(** * Dialogue context manager and realtime transcription session

    A shallow embedding of [xh_2.py] (with the variants of
    [wp_11_analist_gemini.py] where they differ): the bounded, self-summarising
    [DialogueContextManager], the collaborator [SystemAnalystSolver.send_summarization],
    and the start/stop lifecycle and transcript accumulator of
    [AudioTranscriberRealtime]; then the rest of the daemon: the sender
    thread of the recording, [ClipboardSender], the streamed answers and the
    reports of [SystemAnalystSolver], the typing of [DeepSeekSQLSolver] and
    the hotkeys of [run_daemon].

    Conventions.
    - A Python [str] is the list of its code points ([pystr]); [len], [strip],
      [split] and [join] follow CPython on that representation.
    - A Python [int] is a [Z].  A timestamp is a [float] in the source; the
      development is parametric in the type of timestamps and in the two
      operations the code applies to them (subtraction and [>]).
    - A Python [list] that is mutated in place lives in a store of list
      objects, so that aliasing and [copy()] are visible.
    - Code that may raise runs in a state-and-exception monad; a raised
      exception keeps the state reached so far, as in Python. *)

From Stdlib Require Import ZArith NArith String Ascii List Lia Bool.
From stdpp Require Import base option list gmap.

Local Open Scope Z_scope.

(** ** Python strings *)

Module PyStr.

Abbreviation pystr := (list N).

(** Decoding of the UTF-8 bytes of a source literal into code points. *)
Fixpoint utf8_decode (bs : list N) : pystr :=
  match bs with
  | [] => []
  | b0 :: r0 =>
    if (b0 <? 0x80)%N then b0 :: utf8_decode r0
    else if (b0 <? 0xE0)%N then
      match r0 with
      | b1 :: r1 =>
        N.lor (N.shiftl (N.land b0 0x1F) 6) (N.land b1 0x3F) :: utf8_decode r1
      | _ => []
      end
    else if (b0 <? 0xF0)%N then
      match r0 with
      | b1 :: b2 :: r2 =>
        N.lor (N.shiftl (N.land b0 0x0F) 12)
          (N.lor (N.shiftl (N.land b1 0x3F) 6) (N.land b2 0x3F)) :: utf8_decode r2
      | _ => []
      end
    else
      match r0 with
      | b1 :: b2 :: b3 :: r3 =>
        N.lor (N.shiftl (N.land b0 0x07) 18)
          (N.lor (N.shiftl (N.land b1 0x3F) 12)
             (N.lor (N.shiftl (N.land b2 0x3F) 6) (N.land b3 0x3F))) :: utf8_decode r3
      | _ => []
      end
  end.

(** A source literal, written as in the Python file. *)
Definition lit (s : string) : pystr :=
  utf8_decode (List.map N_of_ascii (list_ascii_of_string s)).
Arguments lit : simpl never.

(** [Py_UNICODE_ISSPACE]: the characters [str.strip()] and [str.split()]
    treat as whitespace. *)
Definition is_space (c : N) : bool :=
  ((0x09 <=? c) && (c <=? 0x0D) || (0x1C <=? c) && (c <=? 0x20)
   || (c =? 0x85) || (c =? 0xA0) || (c =? 0x1680)
   || (0x2000 <=? c) && (c <=? 0x200A)
   || (c =? 0x2028) || (c =? 0x2029) || (c =? 0x202F) || (c =? 0x205F)
   || (c =? 0x3000))%N.

Fixpoint lstrip (s : pystr) : pystr :=
  match s with
  | [] => []
  | c :: r => if is_space c then lstrip r else s
  end.

Definition rstrip (s : pystr) : pystr := rev (lstrip (rev s)).

(** [s.strip()] *)
Definition strip (s : pystr) : pystr := rstrip (lstrip s).

(** [s.split()]: the maximal runs of non-whitespace, in order.  [cur] holds
    the run being read, last character first. *)
Fixpoint split_from (cur : pystr) (s : pystr) : list pystr :=
  match s with
  | [] => match cur with [] => [] | _ => [rev cur] end
  | c :: r =>
    if is_space c
    then match cur with [] => split_from [] r | _ => rev cur :: split_from [] r end
    else split_from (c :: cur) r
  end.

Definition split (s : pystr) : list pystr := split_from [] s.

(** [sep.join(parts)] *)
Fixpoint join (sep : pystr) (parts : list pystr) : pystr :=
  match parts with
  | [] => []
  | [p] => p
  | p :: rest => p ++ sep ++ join sep rest
  end.

(** Truth value of a string: non-empty. *)
Definition truthy (s : pystr) : bool :=
  match s with [] => false | _ => true end.

(** Truth value of a list: non-empty. *)
Definition nonempty {A} (l : list A) : bool :=
  match l with [] => false | _ => true end.

(** [len(s)] *)
Definition len {A} (l : list A) : Z := Z.of_nat (length l).

(** [a == b] *)
Fixpoint eqb (a b : pystr) : bool :=
  match a, b with
  | [], [] => true
  | x :: a', y :: b' => (x =? y)%N && eqb a' b'
  | _, _ => false
  end.

End PyStr.
Import PyStr.

(** ** Exceptions and the state-and-exception monad *)

Inductive exn : Type :=
| IndexError | KeyError | TypeError | AttributeError | ValueError
| OSError | QueueFull.

Inductive result (A : Type) : Type :=
| Ok (a : A)
| Raise (e : exn).
Arguments Ok {A} a.
Arguments Raise {A} e.

(** A computation on a state [S]: it returns or raises, and in both cases
    leaves a state behind. *)
Definition M (S A : Type) : Type := S -> result A * S.

Definition ret {S A} (a : A) : M S A := fun s => (Ok a, s).

Definition bind {S A B} (m : M S A) (k : A -> M S B) : M S B :=
  fun s => match m s with
           | (Ok a, s') => k a s'
           | (Raise e, s') => (Raise e, s')
           end.

Definition raise {S A} (e : exn) : M S A := fun s => (Raise e, s).

(** [try: m  except Exception: h] *)
Definition catch {S A} (m : M S A) (h : exn -> M S A) : M S A :=
  fun s => match m s with
           | (Ok a, s') => (Ok a, s')
           | (Raise e, s') => h e s'
           end.

Definition get {S} : M S S := fun s => (Ok s, s).
Definition gets {S A} (f : S -> A) : M S A := fun s => (Ok (f s), s).
Definition modify {S} (f : S -> S) : M S unit := fun s => (Ok tt, f s).

(** The outcome of a call into a library or the operating system, lifted. *)
Definition lift {S A} (r : result A) : M S A := fun s => (r, s).

Declare Scope monad_scope.
Delimit Scope monad_scope with monad.
Notation "x <- m ;; k" := (bind m (fun x => k))
  (at level 62, m at next level, right associativity) : monad_scope.
Notation "m ;;; k" := (bind m (fun _ => k))
  (at level 62, right associativity) : monad_scope.
Local Open Scope monad_scope.


(** ** Values produced by [json.loads] and [Response.json()] *)

(** A float is kept up to whether it is zero, the only thing the code below
    can observe of it. *)
#[local] Unset Elimination Schemes.
Inductive json : Type :=
| JNull
| JBool (b : bool)
| JInt (n : Z)
| JFloat (zero : bool)
| JStr (s : pystr)
| JArr (l : list json)
| JObj (items : list (pystr * json)).
#[local] Set Elimination Schemes.

Module Py.

(** [bool(v)] *)
Definition truth (v : json) : bool :=
  match v with
  | JNull => false
  | JBool b => b
  | JInt n => negb (n =? 0)
  | JFloat zero => negb zero
  | JStr s => truthy s
  | JArr l => match l with [] => false | _ => true end
  | JObj items => match items with [] => false | _ => true end
  end.

Fixpoint assoc (key : pystr) (items : list (pystr * json)) : option json :=
  match items with
  | [] => None
  | (k, v) :: rest => if PyStr.eqb k key then Some v else assoc key rest
  end.

(** [isinstance(v, dict)] *)
Definition is_dict (v : json) : bool :=
  match v with JObj _ => true | _ => false end.

(** [v.get(key, dflt)]: only a dict has the method. *)
Definition dict_get (v : json) (key : pystr) (dflt : json) : result json :=
  match v with
  | JObj items => Ok (default dflt (assoc key items))
  | _ => Raise AttributeError
  end.

(** [v == s] for a string literal [s] *)
Definition eq_str (v : json) (s : pystr) : bool :=
  match v with JStr t => PyStr.eqb t s | _ => false end.

(** [v[i]] for an integer [i]; the keys of a parsed object are strings, so an
    integer is never among them. *)
Definition getitem_int (v : json) (i : Z) : result json :=
  match v with
  | JArr l =>
    let j := if i <? 0 then i + len l else i in
    if (0 <=? j) && (j <? len l)
    then match l !! Z.to_nat j with Some x => Ok x | None => Raise IndexError end
    else Raise IndexError
  | JStr s =>
    let j := if i <? 0 then i + len s else i in
    if (0 <=? j) && (j <? len s)
    then match s !! Z.to_nat j with Some c => Ok (JStr [c]) | None => Raise IndexError end
    else Raise IndexError
  | JObj _ => Raise KeyError
  | _ => Raise TypeError
  end.

(** [v[key]] for a string [key] *)
Definition getitem_str (v : json) (key : pystr) : result json :=
  match v with
  | JObj items =>
    match assoc key items with Some x => Ok x | None => Raise KeyError end
  | _ => Raise TypeError
  end.

(** Truth value of an attribute that holds an object or [None]. *)
Definition is_some {A} (o : option A) : bool :=
  match o with Some _ => true | None => false end.

(** [v.strip()]: only a string has the method. *)
Definition str_strip (v : json) : result pystr :=
  match v with
  | JStr s => Ok (strip s)
  | _ => Raise AttributeError
  end.

End Py.

(** ** AudioTranscriberRealtime *)

Module Transcriber.

Inductive thread : Type := WsThread | SendThread.

(** Durations are in milliseconds. *)
Inductive effect : Type :=
| Popen (cmd : list pystr)
| ProcTerminate
| ProcWait (timeout : Z)
| ProcKill
| SubprocessRun (cmd : list pystr)
| WebSocketApp (url : pystr) (header : list pystr)
| ThreadStart (t : thread)
| ThreadJoin (t : thread) (timeout : Z)
| EventWait (timeout : Z)
| Sleep (duration : Z)
| WsClose.

Record Transcriber : Type := mkTranscriber {
  DEEPGRAM_API_KEY : option pystr;
  is_recording : bool;
  ffmpeg_process : option (list pystr);   (* the Popen object, by its command *)
  _ws_app : option pystr;                 (* the WebSocketApp, by its url *)
  _ws_thread : option thread;
  _send_thread : option thread;
  _ws_connected : bool;                   (* threading.Event *)
  _stop_sending : bool;                   (* threading.Event *)
  _final_chunks : list pystr;
  _partial : pystr;
  trace : list effect                     (* calls made so far, oldest first *)
}.

(** [__init__] *)
Definition init (api_key : option pystr) : Transcriber :=
  {| DEEPGRAM_API_KEY := api_key; is_recording := false; ffmpeg_process := None;
     _ws_app := None; _ws_thread := None; _send_thread := None;
     _ws_connected := false; _stop_sending := false;
     _final_chunks := []; _partial := []; trace := [] |}.

Definition set_is_recording (b : bool) (t : Transcriber) : Transcriber :=
  mkTranscriber (DEEPGRAM_API_KEY t) b (ffmpeg_process t) (_ws_app t) (_ws_thread t)
    (_send_thread t) (_ws_connected t) (_stop_sending t) (_final_chunks t) (_partial t) (trace t).
Definition set_ffmpeg_process (p : option (list pystr)) (t : Transcriber) : Transcriber :=
  mkTranscriber (DEEPGRAM_API_KEY t) (is_recording t) p (_ws_app t) (_ws_thread t)
    (_send_thread t) (_ws_connected t) (_stop_sending t) (_final_chunks t) (_partial t) (trace t).
Definition set_ws_app (a : option pystr) (t : Transcriber) : Transcriber :=
  mkTranscriber (DEEPGRAM_API_KEY t) (is_recording t) (ffmpeg_process t) a (_ws_thread t)
    (_send_thread t) (_ws_connected t) (_stop_sending t) (_final_chunks t) (_partial t) (trace t).
Definition set_ws_thread (h : option thread) (t : Transcriber) : Transcriber :=
  mkTranscriber (DEEPGRAM_API_KEY t) (is_recording t) (ffmpeg_process t) (_ws_app t) h
    (_send_thread t) (_ws_connected t) (_stop_sending t) (_final_chunks t) (_partial t) (trace t).
Definition set_send_thread (h : option thread) (t : Transcriber) : Transcriber :=
  mkTranscriber (DEEPGRAM_API_KEY t) (is_recording t) (ffmpeg_process t) (_ws_app t) (_ws_thread t)
    h (_ws_connected t) (_stop_sending t) (_final_chunks t) (_partial t) (trace t).
Definition set_ws_connected (b : bool) (t : Transcriber) : Transcriber :=
  mkTranscriber (DEEPGRAM_API_KEY t) (is_recording t) (ffmpeg_process t) (_ws_app t) (_ws_thread t)
    (_send_thread t) b (_stop_sending t) (_final_chunks t) (_partial t) (trace t).
Definition set_stop_sending (b : bool) (t : Transcriber) : Transcriber :=
  mkTranscriber (DEEPGRAM_API_KEY t) (is_recording t) (ffmpeg_process t) (_ws_app t) (_ws_thread t)
    (_send_thread t) (_ws_connected t) b (_final_chunks t) (_partial t) (trace t).
Definition set_final_chunks (l : list pystr) (t : Transcriber) : Transcriber :=
  mkTranscriber (DEEPGRAM_API_KEY t) (is_recording t) (ffmpeg_process t) (_ws_app t) (_ws_thread t)
    (_send_thread t) (_ws_connected t) (_stop_sending t) l (_partial t) (trace t).
Definition set_partial (s : pystr) (t : Transcriber) : Transcriber :=
  mkTranscriber (DEEPGRAM_API_KEY t) (is_recording t) (ffmpeg_process t) (_ws_app t) (_ws_thread t)
    (_send_thread t) (_ws_connected t) (_stop_sending t) (_final_chunks t) s (trace t).
Definition set_trace (l : list effect) (t : Transcriber) : Transcriber :=
  mkTranscriber (DEEPGRAM_API_KEY t) (is_recording t) (ffmpeg_process t) (_ws_app t) (_ws_thread t)
    (_send_thread t) (_ws_connected t) (_stop_sending t) (_final_chunks t) (_partial t) l.

(** A call into the operating system or the websocket library: it is
    recorded, and its outcome is the environment's. *)
Definition call {A} (e : effect) (outcome : result A) : M Transcriber A :=
  modify (fun t => set_trace (trace t ++ [e]) t) ;;; lift outcome.

(** [_on_message]; [parsed] is the outcome of [json.loads(message)]. *)
Definition _on_message (parsed : result json) : M Transcriber unit :=
  match parsed with
  | Raise _ => ret tt
  | Ok data =>
    if negb (Py.is_dict data) then ret tt else
    ty <- lift (Py.dict_get data (lit "type") JNull) ;;
    if negb (Py.eq_str ty (lit "Results")) then ret tt else
    channel <- lift (Py.dict_get data (lit "channel") (JObj [])) ;;
    alts <- lift (Py.dict_get channel (lit "alternatives") (JArr [])) ;;
    if negb (Py.truth alts) then ret tt else
    alt <- lift (Py.getitem_int alts 0) ;;
    transcript <- lift (Py.dict_get alt (lit "transcript") (JStr [])) ;;
    text <- lift (Py.str_strip transcript) ;;
    is_final <- lift (Py.dict_get data (lit "is_final") (JBool false)) ;;
    if Py.truth is_final then
      (if truthy text
       then modify (fun t => set_final_chunks (_final_chunks t ++ [text]) t)
       else ret tt) ;;;
      modify (set_partial [])
    else
      modify (set_partial text)
  end.

(** [_on_open], [_on_close], [_on_error] *)
Definition _on_open : M Transcriber unit := modify (set_ws_connected true).
Definition _on_close : M Transcriber unit := modify (set_ws_connected false).
Definition _on_error : M Transcriber unit := modify (set_ws_connected false).

Definition default_monitor : pystr :=
  lit "alsa_output.pci-0000_00_1f.3.analog-stereo.monitor".

(** [line.startswith(prefix)] *)
Fixpoint startswith (line prefix : pystr) : bool :=
  match prefix, line with
  | [], _ => true
  | p :: prefix', c :: line' => (p =? c)%N && startswith line' prefix'
  | _ :: _, [] => false
  end.

(** [line.split(":", 1)]: the text before the first colon and, when there is
    a colon, the text after it. *)
Fixpoint split_colon (line : pystr) : pystr * option pystr :=
  match line with
  | [] => ([], None)
  | c :: rest =>
    if (c =? 0x3A)%N then ([], Some rest)
    else let '(before, after) := split_colon rest in (c :: before, after)
  end.

(** The [for] loop of [detect_pulse_monitor] over the lines of [pactl info]. *)
Fixpoint find_default_sink (lines : list pystr) : result pystr :=
  match lines with
  | [] => Ok default_monitor
  | line :: rest =>
    if startswith line (lit "Default Sink:") then
      match snd (split_colon line) with
      | Some sink => Ok (strip sink ++ lit ".monitor")
      | None => Raise IndexError
      end
    else find_default_sink rest
  end.

(** [detect_pulse_monitor]; [pactl_info] is the outcome of running
    [pactl info]: the lines it printed, or the exception of [subprocess.run]. *)
Definition detect_pulse_monitor (pactl_info : result (list pystr)) : M Transcriber pystr :=
  catch
    (lines <- call (SubprocessRun [lit "pactl"; lit "info"]) pactl_info ;;
     lift (find_default_sink lines))
    (fun _ => ret default_monitor).

(** What the environment answers during one [start_recording]. *)
Record StartEnv : Type := {
  pactl_info : result (list pystr);
  popen_outcome : result unit;      (* [subprocess.Popen] returns or raises *)
  opens_within : Z -> bool;         (* [_on_open] runs within the timeout *)
  kill_outcome : result unit        (* [Popen.kill] returns or raises *)
}.

Definition ffmpeg_cmd (monitor : pystr) : list pystr :=
  [lit "ffmpeg"; lit "-f"; lit "pulse"; lit "-i"; monitor; lit "-ac"; lit "1";
   lit "-ar"; lit "16000"; lit "-f"; lit "s16le"; lit "-loglevel"; lit "error"; lit "-"].

Definition deepgram_url : pystr :=
  lit "wss://api.deepgram.com/v1/listen?encoding=linear16&sample_rate=16000&channels=1&model=nova-2&language=ru&punctuate=true&interim_results=true&endpointing=300".

Arguments ffmpeg_cmd : simpl never.
Arguments deepgram_url : simpl never.
Arguments default_monitor : simpl never.
Arguments find_default_sink : simpl never.

(** The fixed time [start_recording] waits for the connection to open. *)
Definition open_timeout : Z := 3000.

(** [Event.wait(timeout)]: true when the flag is set already or gets set
    within the timeout. *)
Definition event_wait (timeout : Z) (set_in_time : Z -> bool) : M Transcriber bool :=
  call (EventWait timeout) (Ok tt) ;;;
  t <- get ;;
  if _ws_connected t then ret true
  else if set_in_time timeout then modify (set_ws_connected true) ;;; ret true
  else ret false.

(** [start_recording] *)
Definition start_recording (env : StartEnv) : M Transcriber unit :=
  t <- get ;;
  if is_recording t then ret tt else
  modify (set_is_recording true) ;;;
  modify (set_final_chunks []) ;;;
  modify (set_partial []) ;;;
  modify (set_stop_sending false) ;;;
  monitor <- detect_pulse_monitor (pactl_info env) ;;
  let cmd := ffmpeg_cmd monitor in
  spawned <- catch
    (call (Popen cmd) (popen_outcome env) ;;;
     modify (set_ffmpeg_process (Some cmd)) ;;;
     ret true)
    (fun _ => modify (set_is_recording false) ;;; ret false) ;;
  if negb spawned then ret tt else
  let headers :=
    match DEEPGRAM_API_KEY t with
    | Some key => if truthy key then [lit "Authorization: Token " ++ key] else []
    | None => []
    end in
  call (WebSocketApp deepgram_url headers) (Ok tt) ;;;
  modify (set_ws_app (Some deepgram_url)) ;;;
  modify (set_ws_thread (Some WsThread)) ;;;
  call (ThreadStart WsThread) (Ok tt) ;;;
  connected <- event_wait open_timeout (opens_within env) ;;
  if negb connected then
    catch (call ProcKill (kill_outcome env)) (fun _ => ret tt) ;;;
    modify (set_is_recording false)
  else
    modify (set_send_thread (Some SendThread)) ;;;
    call (ThreadStart SendThread) (Ok tt).

(** What the environment answers during one [stop_recording]. *)
Record StopEnv : Type := {
  terminate_outcome : result unit;
  wait_outcome : result unit;       (* [Popen.wait(timeout=2)]; raises on timeout *)
  stop_kill_outcome : result unit;
  send_thread_alive : bool;
  close_outcome : result unit;
  ws_thread_alive : bool
}.

(** [stop_recording] *)
Definition stop_recording (env : StopEnv) : M Transcriber (option pystr) :=
  t <- get ;;
  if negb (is_recording t) then ret None else
  modify (set_is_recording false) ;;;
  catch
    (if Py.is_some (ffmpeg_process t) then
       catch
         (call ProcTerminate (terminate_outcome env) ;;;
          call (ProcWait 2000) (wait_outcome env))
         (fun _ => catch (call ProcKill (stop_kill_outcome env)) (fun _ => ret tt))
     else ret tt)
    (fun _ => ret tt) ;;;
  modify (set_stop_sending true) ;;;
  (if Py.is_some (_send_thread t) && send_thread_alive env
   then call (ThreadJoin SendThread 2000) (Ok tt) else ret tt) ;;;
  call (Sleep 500) (Ok tt) ;;;
  catch
    (if Py.is_some (_ws_app t)
     then catch (call WsClose (close_outcome env)) (fun _ => ret tt)
     else ret tt)
    (fun _ => ret tt) ;;;
  catch
    (if Py.is_some (_ws_thread t) && ws_thread_alive env
     then call (ThreadJoin WsThread 500) (Ok tt) else ret tt)
    (fun _ => ret tt) ;;;
  t' <- get ;;
  let parts := _final_chunks t' ++ (if truthy (_partial t') then [_partial t'] else []) in
  let final_text := strip (join (lit " ") parts) in
  modify (set_final_chunks []) ;;;
  modify (set_partial []) ;;;
  ret (if truthy final_text then Some final_text else None).

(** The receiver: the handler run on each inbound message in turn. *)
Fixpoint receive (messages : list (result json)) : M Transcriber unit :=
  match messages with
  | [] => ret tt
  | m :: rest => _on_message m ;;; receive rest
  end.

(** A recognition event as the service sends it: a [Results] object carrying
    the transcript of the first alternative and the [is_final] flag. *)
Definition results_event (is_final : bool) (transcript : pystr) : result json :=
  Ok (JObj [(lit "type", JStr (lit "Results"));
            (lit "channel",
             JObj [(lit "alternatives", JArr [JObj [(lit "transcript", JStr transcript)]])]);
            (lit "is_final", JBool is_final)]).

Definition partial (transcript : string) : result json := results_event false (lit transcript).
Definition final (transcript : string) : result json := results_event true (lit transcript).

(** The transcript accumulator as the specification words it: an interim
    event replaces the pending segment, a final event appends its text, if
    not empty, to the finalized segments and clears the pending segment.
    The text of an event is its transcript without surrounding whitespace. *)
Definition spec_accumulate_step (acc : list pystr * pystr) (event : bool * pystr)
    : list pystr * pystr :=
  let '(finalized, pending) := acc in
  let '(is_final, transcript) := event in
  let text := strip transcript in
  if is_final
  then (if truthy text then finalized ++ [text] else finalized, [])
  else (finalized, text).

Definition spec_accumulate (events : list (bool * pystr)) : list pystr * pystr :=
  fold_left spec_accumulate_step events ([], []).

(** What the specification has [stop()] return: the finalized segments
    followed by the pending one, if not empty, joined by single spaces and
    trimmed; nothing when that is empty. *)
Definition spec_transcript (acc : list pystr * pystr) : option pystr :=
  let '(finalized, pending) := acc in
  let joined :=
    strip (join (lit " ") (finalized ++ (if truthy pending then [pending] else []))) in
  if truthy joined then Some joined else None.

(** *** Concrete environments and sessions *)

(** A stop during which every call succeeds and both threads have ended. *)
Definition quiet_stop : StopEnv :=
  {| terminate_outcome := Ok tt; wait_outcome := Ok tt; stop_kill_outcome := Ok tt;
     send_thread_alive := false; close_outcome := Ok tt; ws_thread_alive := false |}.

(** A start whose [Popen] raises. *)
Definition failing_spawn : StartEnv :=
  {| pactl_info := Raise OSError; popen_outcome := Raise OSError;
     opens_within := fun _ => false; kill_outcome := Ok tt |}.

(** A start whose connection never opens (and whose [kill] raises). *)
Definition never_opens : StartEnv :=
  {| pactl_info := Ok [lit "Default Sink: speakers"]; popen_outcome := Ok tt;
     opens_within := fun _ => false; kill_outcome := Raise OSError |}.

(** A start during which everything succeeds. *)
Definition opens : StartEnv :=
  {| pactl_info := Ok []; popen_outcome := Ok tt;
     opens_within := fun _ => true; kill_outcome := Ok tt |}.

(** A session right after [__init__] and a successful start. *)
Definition started : Transcriber := snd (start_recording opens (init None)).

(** The message of a recognition event given as a pair. *)
Definition event_message (event : bool * pystr) : result json :=
  results_event (fst event) (snd event).

End Transcriber.

(** ** DialogueContextManager *)

Module Context.

(** The two operations the code applies to timestamps, and the injection of
    the integer literals it compares them with. *)
Class TimeOps (T : Type) : Type := {
  of_int : Z -> T;
  t_sub : T -> T -> T;
  t_gtb : T -> T -> bool
}.

(** Integer timestamps, for concrete runs. *)
#[export] Instance TimeOps_Z : TimeOps Z :=
  {| of_int := fun z => z; t_sub := Z.sub; t_gtb := Z.gtb |}.

Definition nl : pystr := [0x0A]%N.

(** A literal given line by line. *)
Definition text (lines : list string) : pystr := join nl (List.map lit lines).

(** The prompt of [xh_2.py] up to the dialogue text. *)
Definition prompt_head : pystr :=
  text
    ["Ты — системный аналитик, который ведет протокол встречи с Product Owner'ом.";
     EmptyString;
     "Диалог:";
     EmptyString]%string.

(** The prompt of [xh_2.py] after the dialogue text. *)
Definition prompt_tail : pystr :=
  text
    [EmptyString;
     EmptyString;
     "Создай структурированное резюме встречи, выделив:";
     EmptyString;
     "1. **Основные решения и договорённости**";
     "2. **Открытые вопросы** (что осталось неясным)";
     "3. **Собранные требования** (что уже понятно)";
     "4. **Следующие шаги** (что нужно уточнить на следующей встрече)";
     EmptyString;
     "Формат резюме:";
     "---";
     "🎯 ОСНОВНЫЕ ДОГОВОРЁННОСТИ";
     "• [Пункт 1]";
     "• [Пункт 2]";
     EmptyString;
     "⚠️ ОТКРЫТЫЕ ВОПРОСЫ";
     "1. [Вопрос 1 - кто должен ответить, до какого срока]";
     "2. [Вопрос 2 - кто должен ответить, до какого срока]";
     EmptyString;
     "📋 СОБРАННЫЕ ТРЕБОВАНИЯ";
     "• [Требование 1 - статус: подтверждено/предварительно]";
     "• [Требование 2 - статус: подтверждено/предварительно]";
     EmptyString;
     "➡️ СЛЕДУЮЩИЕ ШАГИ";
     "• [Что сделать к следующей встрече]";
     "• [Кому и что нужно подготовить]";
     "---";
     EmptyString;
     "Резюме должно быть конкретным, полезным для дальнейшей работы и написано на русском языке."]%string.

(** The prompt of [wp_11_analist_gemini.py] up to the dialogue text. *)
Definition gemini_prompt_head : pystr :=
  text
    ["Суммаризируй диалог системного аналитика. Сохрани важные технические детали (SQL, API, требования) и сделай краткое резюме на русском.";
     EmptyString;
     "Диалог:";
     EmptyString]%string.

(** The prompt of [wp_11_analist_gemini.py] after the dialogue text. *)
Definition gemini_prompt_tail : pystr :=
  text
    [EmptyString;
     EmptyString;
     "Краткое резюме:"]%string.

(** [l[-k:]] *)
Definition slice_last {A} (k : nat) (l : list A) : list A :=
  match k with
  | O => l
  | _ => drop (length l - k)%nat l
  end.

(** Addresses of list objects. *)
Abbreviation loc := positive.

(** [queue.Queue(maxsize)]; [maxsize <= 0] means unbounded.  An item is a
    list object, or [None], the sentinel. *)
Record Queue : Type := mkQueue {
  maxsize : Z;
  items : list (option loc)
}.

Definition queue_full (q : Queue) : bool :=
  (0 <? maxsize q) && (maxsize q <=? len (items q)).

(** A response of [requests]: what [raise_for_status()] and [json()] do. *)
Record Response : Type := {
  raise_for_status : result unit;
  response_json : result json
}.

Definition and_then {A B} (r : result A) (k : A -> result B) : result B :=
  match r with
  | Ok a => k a
  | Raise e => Raise e
  end.

(** [SystemAnalystSolver.send_summarization]; [post] is the outcome of
    [self._session.post(...)] for the payload built from the prompt. *)
Definition send_summarization (post : result Response) : option pystr :=
  match
    and_then post (fun r =>
    and_then (raise_for_status r) (fun _ =>
    and_then (response_json r) (fun body =>
    and_then (Py.getitem_str body (lit "choices")) (fun choices =>
    and_then (Py.getitem_int choices 0) (fun choice =>
    and_then (Py.getitem_str choice (lit "message")) (fun message =>
    and_then (Py.getitem_str message (lit "content")) (fun content =>
    Py.str_strip content)))))))
  with
  | Ok s => Some s
  | Raise _ => None     (* except Exception: return None *)
  end.

(** [_estimate_tokens] *)
Definition _estimate_tokens (text : pystr) : Z :=
  len (split text) + len text / 4.

Section Manager.

Context {T : Type} `{TimeOps T}.

Record QAEntry : Type := mkQAEntry {
  question : pystr;
  answer : pystr;
  timestamp : T;
  tokens : Z
}.

(** The object held in [solver]; only its presence is tested. *)
Inductive Solver : Type := SystemAnalystSolver.

Record Manager : Type := mkManager {
  max_recent_entries : Z;
  max_tokens : Z;
  summarization_threshold : Z;
  solver : option Solver;
  heap : gmap loc (list QAEntry);       (* the list objects *)
  recent_qa : loc;
  summary : pystr;
  last_summarization_time : T;
  min_summarization_interval : T;
  _token_count : Z;
  _summarization_queue : Queue
}.

(** [__init__]; the defaults of [xh_2.py] are 10, 1200, 900 and no solver. *)
Definition init (max_recent_entries max_tokens summarization_threshold : Z)
    (solver : option Solver) : Manager :=
  {| max_recent_entries := max_recent_entries;
     max_tokens := max_tokens;
     summarization_threshold := summarization_threshold;
     solver := solver;
     heap := {[ 1%positive := [] ]};
     recent_qa := 1%positive;
     summary := [];
     last_summarization_time := of_int 0;
     min_summarization_interval := of_int 60;
     _token_count := 0;
     _summarization_queue := mkQueue 0 [] |}.

Definition set_solver (s : option Solver) (m : Manager) : Manager :=
  mkManager (max_recent_entries m) (max_tokens m) (summarization_threshold m) s
    (heap m) (recent_qa m) (summary m) (last_summarization_time m)
    (min_summarization_interval m) (_token_count m) (_summarization_queue m).
Definition set_heap (h : gmap loc (list QAEntry)) (m : Manager) : Manager :=
  mkManager (max_recent_entries m) (max_tokens m) (summarization_threshold m) (solver m)
    h (recent_qa m) (summary m) (last_summarization_time m)
    (min_summarization_interval m) (_token_count m) (_summarization_queue m).
Definition set_recent_qa (l : loc) (m : Manager) : Manager :=
  mkManager (max_recent_entries m) (max_tokens m) (summarization_threshold m) (solver m)
    (heap m) l (summary m) (last_summarization_time m)
    (min_summarization_interval m) (_token_count m) (_summarization_queue m).
Definition set_summary (s : pystr) (m : Manager) : Manager :=
  mkManager (max_recent_entries m) (max_tokens m) (summarization_threshold m) (solver m)
    (heap m) (recent_qa m) s (last_summarization_time m)
    (min_summarization_interval m) (_token_count m) (_summarization_queue m).
Definition set_last_summarization_time (t : T) (m : Manager) : Manager :=
  mkManager (max_recent_entries m) (max_tokens m) (summarization_threshold m) (solver m)
    (heap m) (recent_qa m) (summary m) t
    (min_summarization_interval m) (_token_count m) (_summarization_queue m).
Definition set_token_count (n : Z) (m : Manager) : Manager :=
  mkManager (max_recent_entries m) (max_tokens m) (summarization_threshold m) (solver m)
    (heap m) (recent_qa m) (summary m) (last_summarization_time m)
    (min_summarization_interval m) n (_summarization_queue m).
Definition set_queue (q : Queue) (m : Manager) : Manager :=
  mkManager (max_recent_entries m) (max_tokens m) (summarization_threshold m) (solver m)
    (heap m) (recent_qa m) (summary m) (last_summarization_time m)
    (min_summarization_interval m) (_token_count m) q.

(** The contents of a list object. *)
Definition contents (m : Manager) (l : loc) : list QAEntry :=
  default [] (heap m !! l).

(** The turns currently in [recent_qa]. *)
Definition recent (m : Manager) : list QAEntry := contents m (recent_qa m).

(** In-place update of the list object [recent_qa] points to. *)
Definition store_recent (l : list QAEntry) (m : Manager) : Manager :=
  set_heap (<[recent_qa m := l]> (heap m)) m.

(** A new list object. *)
Definition alloc (l : list QAEntry) : M Manager loc :=
  fun m => let a := fresh (dom (heap m)) in (Ok a, set_heap (<[a := l]> (heap m)) m).

(** [sum(e.tokens for e in l)] *)
Definition sum_tokens (l : list QAEntry) : Z :=
  foldl (fun acc e => acc + tokens e) 0 l.

(** [self._summarization_queue.put_nowait(item)] *)
Definition put_nowait (item : option loc) : M Manager unit :=
  m <- get ;;
  let q := _summarization_queue m in
  if queue_full q then raise QueueFull
  else modify (set_queue (mkQueue (maxsize q) (items q ++ [item]))).

(** The condition of [_check_summarization_needed]. *)
Definition summarization_due (current_time : T) (m : Manager) : bool :=
  (_token_count m >? summarization_threshold m)
  && t_gtb (t_sub current_time (last_summarization_time m)) (min_summarization_interval m).

(** [_check_summarization_needed]; [current_time] is the reading of
    [time.time()]. *)
Definition _check_summarization_needed (current_time : T) : M Manager unit :=
  m <- get ;;
  if summarization_due current_time m
  then
    qa_to_summarize <- alloc (recent m) ;;            (* self.recent_qa.copy() *)
    catch (put_nowait (Some qa_to_summarize))
      (fun e => match e with QueueFull => ret tt | _ => raise e end)
  else ret tt.

(** The [while] loop of [add_qa]; [l] is the contents of [recent_qa] at the
    loop head. *)
Fixpoint evict (l : list QAEntry) : M Manager unit :=
  fun m =>
    if len l >? max_recent_entries m then
      match l with
      | [] => (Raise IndexError, m)                     (* pop from empty list *)
      | removed :: l' =>
        evict l' (set_token_count (_token_count m - tokens removed) (store_recent l' m))
      end
    else (Ok tt, m).

(** [add_qa]; [now] and [current_time] are the two readings of [time.time()],
    the second one taken in [_check_summarization_needed]. *)
Definition add_qa (now current_time : T) (question answer : pystr) : M Manager unit :=
  let entry := mkQAEntry question answer now (_estimate_tokens (question ++ answer)) in
  modify (fun m => store_recent (recent m ++ [entry]) m) ;;;
  modify (fun m => set_token_count (_token_count m + tokens entry) m) ;;;
  m <- get ;;
  evict (recent m) ;;;
  _check_summarization_needed current_time.

(** A call of [add_qa], by its clock readings and arguments, and a sequence
    of calls; a call that raises ends the sequence. *)
Record Call : Type := {
  call_now : T;
  call_current_time : T;
  call_question : pystr;
  call_answer : pystr
}.

Definition add_call (c : Call) : M Manager unit :=
  add_qa (call_now c) (call_current_time c) (call_question c) (call_answer c).

Fixpoint add_all (calls : list Call) : M Manager unit :=
  match calls with
  | [] => ret tt
  | c :: rest => add_call c ;;; add_all rest
  end.

(** The block of [_perform_summarization] that runs under
    [_summarization_lock], with the keep count of the file ([k] in
    [recent_qa[-k:]]). *)
Definition apply_summary (keep : nat) (new_summary : pystr) (now : T) : M Manager unit :=
  modify (set_summary (strip new_summary)) ;;;
  modify (set_last_summarization_time now) ;;;
  m <- get ;;
  if len (recent m) >? Z.of_nat keep then
    kept <- alloc (slice_last keep (recent m)) ;;
    modify (set_recent_qa kept) ;;;
    modify (fun m => set_token_count (sum_tokens (recent m)) m) ;;;
    modify (fun m => set_token_count (_token_count m + _estimate_tokens (summary m)) m)
  else ret tt.

Definition dialogue_text (entries : list QAEntry) : pystr :=
  join nl
    (List.map (fun e => lit "Вопрос: " ++ question e ++ nl ++ lit "Ответ: " ++ answer e ++ nl)
       entries).

(** The prompt of [xh_2.py] for a batch. *)
Definition summarization_prompt (entries : list QAEntry) : pystr :=
  prompt_head ++ dialogue_text entries ++ prompt_tail.

(** [_perform_summarization] of [xh_2.py]; [post] answers the request the
    solver sends for a prompt, [now] is the reading of [time.time()]. *)
Definition _perform_summarization (qa_entries : loc)
    (post : pystr -> result Response) (now : T) : M Manager unit :=
  m <- get ;;
  let entries := contents m qa_entries in
  if negb (nonempty entries) || negb (Py.is_some (solver m)) then ret tt else
  let prompt := summarization_prompt entries in
  match send_summarization (post prompt) with
  | Some new_summary =>
    if truthy new_summary then apply_summary 4 new_summary now else ret tt
  | None => ret tt
  end.

(** The pieces [get_context_for_query] of [xh_2.py] appends to [parts]. *)
Definition summary_part (summary : pystr) : pystr :=
  lit "📋 Резюме обсуждения:" ++ nl ++ summary ++ nl.

Definition recent_header : pystr := lit "🗣️ Последние реплики:".

Definition turn_parts (entries : list QAEntry) : list pystr :=
  concat (List.map (fun entry => [lit "👤 PO/Я: " ++ question entry;
                                  lit "🤖 Ассистент: " ++ answer entry])
            entries).

(** The value returned: [parts] joined by newlines, or the empty string
    when there are no parts. *)
Definition join_parts (parts : list pystr) : pystr :=
  if nonempty parts then join nl parts else [].

(** [get_context_for_query] of [xh_2.py] *)
Definition get_context_for_query (new_question : pystr) (m : Manager) : pystr :=
  let parts := [] in
  let parts :=
    if truthy (summary m) then parts ++ [summary_part (summary m)] else parts in
  let parts :=
    if nonempty (recent m)
    then (parts ++ [recent_header]) ++ turn_parts (slice_last 4 (recent m))
    else parts in
  join_parts parts.

(** [clear] *)
Definition clear : M Manager unit :=
  modify (fun m => store_recent [] m) ;;;
  modify (set_summary []) ;;;
  modify (set_token_count 0).

(** What the environment supplies to one pass of the worker that reaches
    [_perform_summarization]. *)
Record Attempt : Type := {
  post : pystr -> result Response;
  clock : T
}.

Inductive WorkerState : Type := WaitingForWork | Stopped.

(** The loop of the summarization worker, for as many dequeued batches as
    there are attempts.  An empty queue leaves the worker waiting in
    [get(timeout=300)]; [task_done()] only counts and is left out.  The
    loop catches [queue.Empty] alone, so an exception of
    [_perform_summarization] would end it. *)
Fixpoint worker (attempts : list Attempt) : M Manager WorkerState :=
  match attempts with
  | [] => ret WaitingForWork
  | a :: rest =>
    m <- get ;;
    let q := _summarization_queue m in
    match items q with
    | [] => ret WaitingForWork
    | item :: queued =>
      modify (set_queue (mkQueue (maxsize q) queued)) ;;;
      match item with
      | None => ret Stopped
      | Some qa_entries =>
        _perform_summarization qa_entries (post a) (clock a) ;;;
        worker rest
      end
    end
  end.

(** An attempt whose collaborator fails: whatever the prompt, the request
    raises, the response is an error or malformed, or the text is empty. *)
Definition attempt_fails (a : Attempt) : Prop :=
  forall prompt,
    match send_summarization (post a prompt) with
    | Some s => truthy s = false
    | None => True
    end.

(** The attributes no operation but [__init__], [clear] and a successful
    summarization writes, and the identity of the list object. *)
Definition same_settings (m m' : Manager) : Prop :=
  max_recent_entries m' = max_recent_entries m
  /\ max_tokens m' = max_tokens m
  /\ summarization_threshold m' = summarization_threshold m
  /\ solver m' = solver m
  /\ min_summarization_interval m' = min_summarization_interval m
  /\ summary m' = summary m
  /\ last_summarization_time m' = last_summarization_time m
  /\ recent_qa m' = recent_qa m.

End Manager.

Arguments QAEntry T : clear implicits.
Arguments Manager T : clear implicits.
Arguments Attempt T : clear implicits.
Arguments Call T : clear implicits.

(** *** Concrete runs, with integer timestamps *)

(** A well-formed response carrying [content]. *)
Definition reply (content : pystr) : result Response :=
  Ok {| raise_for_status := Ok tt;
        response_json :=
          Ok (JObj [(lit "choices",
                     JArr [JObj [(lit "message", JObj [(lit "content", JStr content)])]])]) |}.

Definition answering (content : pystr) : Attempt Z :=
  {| post := fun _ => reply content; clock := 200 |}.

Definition network_down : Attempt Z :=
  {| post := fun _ => Raise OSError; clock := 200 |}.

Definition server_error : Attempt Z :=
  {| post := fun _ => Ok {| raise_for_status := Raise OSError; response_json := Ok JNull |};
     clock := 200 |}.

Definition malformed_body : Attempt Z :=
  {| post := fun _ => Ok {| raise_for_status := Ok tt;
                            response_json := Ok (JObj [(lit "choices", JArr [])]) |};
     clock := 200 |}.

Definition demo_call : Call Z :=
  {| call_now := 100; call_current_time := 100;
     call_question := lit "q"; call_answer := lit "a" |}.

(** A manager with threshold 0 after [n] turns; each call found the
    summarization due and queued a copy. *)
Definition demo_manager (n : nat) : Manager Z :=
  snd (add_all (repeat demo_call n) (init 10 1200 0 (Some SystemAnalystSolver))).

(** The variant of [wp_11_analist_gemini.py]. *)
Module Gemini.
Section Gemini.

Context {T : Type} `{TimeOps T}.

(** [GeminiSolver.generate_summary_text]; [generated] is the outcome of
    [generate_content] followed by reading [response.text]. *)
Definition generate_summary_text (generated : result pystr) : option pystr :=
  match generated with
  | Ok s => Some (strip s)
  | Raise _ => None
  end.

(** The prompt for a batch. *)
Definition summarization_prompt (entries : list (QAEntry T)) : pystr :=
  gemini_prompt_head ++ dialogue_text entries ++ gemini_prompt_tail.

(** [_perform_summarization] *)
Definition _perform_summarization (qa_entries : loc)
    (generate : pystr -> result pystr) (now : T) : M (Manager T) unit :=
  m <- get ;;
  let entries := contents m qa_entries in
  if negb (nonempty entries) || negb (Py.is_some (solver m)) then ret tt else
  let prompt := summarization_prompt entries in
  catch
    (match generate_summary_text (generate prompt) with
     | Some new_summary =>
       if truthy new_summary then apply_summary 2 new_summary now else ret tt
     | None => ret tt
     end)
    (fun _ => ret tt).

(** [get_context_for_query] *)
Definition get_context_for_query (new_question : pystr) (m : Manager T) : pystr :=
  let parts := [] in
  let parts :=
    if truthy (summary m)
    then parts ++ [lit "Резюме прошлого контекста:" ++ nl ++ summary m ++ nl]
    else parts in
  let parts :=
    if nonempty (recent m)
    then (parts ++ [lit "Последние Q&A:"])
         ++ concat (List.map (fun entry => [lit "Q: " ++ question entry;
                                            lit "A: " ++ answer entry])
                      (recent m))
    else parts in
  join_parts parts.

End Gemini.
End Gemini.

End Context.

(** ** [get_context_for_query] running against the locked block of
    [_perform_summarization]

    The caller's thread renders the context while the worker thread is in
    the block it runs under [_summarization_lock].  A step of the reader is
    one load of an attribute of the manager; a step of the worker is one
    statement, with its one store (the reader stores nothing, so the loads
    of a statement of the worker are taken together with its store).  A
    schedule says which thread moves next. *)

Module Interleaving.
Import Context.

Inductive thread : Type := Worker | Reader.

(** Program points of the worker, lines 145 to 151 of [xh_2.py]. *)
Inductive wpc : Type :=
| WAcquire        (* with self._summarization_lock: *)
| WSetSummary     (* self.summary = summary.strip() *)
| WSetTime        (* self.last_summarization_time = time.time() *)
| WTestLen        (* if len(self.recent_qa) > 4: *)
| WSlice          (* self.recent_qa = self.recent_qa[-4:] *)
| WSum            (* self._token_count = sum(...) *)
| WAddEstimate    (* self._token_count += self._estimate_tokens(self.summary) *)
| WRelease        (* leaving the with block *)
| WDone.

(** Program points of the reader, lines 154 to 162 of [xh_2.py]. *)
Inductive rpc : Type :=
| RTestSummary    (* if self.summary: *)
| RFormatSummary  (* parts.append(f"...{self.summary}...") *)
| RTestRecent     (* if self.recent_qa: *)
| RSlice          (* for entry in self.recent_qa[-4:]: ... *)
| RJoin           (* return the parts joined by newlines *)
| RDone.

Section Interleaving.

Context {T : Type} `{TimeOps T}.

Record Config : Type := mkConfig {
  shared : Manager T;
  locked : bool;               (* _summarization_lock is held *)
  w_pc : wpc;
  r_pc : rpc;
  parts : list pystr;          (* the reader's local list *)
  returned : option pystr      (* what the reader returned *)
}.

(** Both threads at their first statement. *)
Definition start (m : Manager T) : Config :=
  mkConfig m false WAcquire RTestSummary [] None.

(** One step of the worker; [new_summary] is the text the collaborator
    returned and [now] the reading of [time.time()].  The worker waits at
    [WAcquire] while the lock is held. *)
Definition worker_step (new_summary : pystr) (now : T) (c : Config) : Config :=
  let m := shared c in
  match w_pc c with
  | WAcquire =>
    if locked c then c
    else mkConfig m true WSetSummary (r_pc c) (parts c) (returned c)
  | WSetSummary =>
    mkConfig (set_summary (strip new_summary) m) (locked c) WSetTime
      (r_pc c) (parts c) (returned c)
  | WSetTime =>
    mkConfig (set_last_summarization_time now m) (locked c) WTestLen
      (r_pc c) (parts c) (returned c)
  | WTestLen =>
    mkConfig m (locked c) (if len (recent m) >? 4 then WSlice else WRelease)
      (r_pc c) (parts c) (returned c)
  | WSlice =>
    mkConfig (snd ((kept <- alloc (slice_last 4 (recent m)) ;; modify (set_recent_qa kept)) m))
      (locked c) WSum (r_pc c) (parts c) (returned c)
  | WSum =>
    mkConfig (set_token_count (sum_tokens (recent m)) m) (locked c) WAddEstimate
      (r_pc c) (parts c) (returned c)
  | WAddEstimate =>
    mkConfig (set_token_count (_token_count m + _estimate_tokens (summary m)) m)
      (locked c) WRelease (r_pc c) (parts c) (returned c)
  | WRelease =>
    mkConfig m false WDone (r_pc c) (parts c) (returned c)
  | WDone => c
  end.

(** One step of the reader.  No step looks at the lock: the method does not
    take it. *)
Definition reader_step (c : Config) : Config :=
  let m := shared c in
  match r_pc c with
  | RTestSummary =>
    mkConfig m (locked c) (w_pc c)
      (if truthy (summary m) then RFormatSummary else RTestRecent) (parts c) (returned c)
  | RFormatSummary =>
    mkConfig m (locked c) (w_pc c) RTestRecent
      (parts c ++ [summary_part (summary m)]) (returned c)
  | RTestRecent =>
    mkConfig m (locked c) (w_pc c)
      (if nonempty (recent m) then RSlice else RJoin) (parts c) (returned c)
  | RSlice =>
    mkConfig m (locked c) (w_pc c) RJoin
      ((parts c ++ [recent_header]) ++ turn_parts (slice_last 4 (recent m))) (returned c)
  | RJoin =>
    mkConfig m (locked c) (w_pc c) RDone (parts c) (Some (join_parts (parts c)))
  | RDone => c
  end.

Definition step (new_summary : pystr) (now : T) (c : Config) (t : thread) : Config :=
  match t with
  | Worker => worker_step new_summary now c
  | Reader => reader_step c
  end.

(** The configuration a schedule leads to. *)
Definition run (new_summary : pystr) (now : T) (schedule : list thread) (c : Config) : Config :=
  foldl (step new_summary now) c schedule.

(** The number of steps a schedule gives the reader. *)
Fixpoint reader_steps (schedule : list thread) : nat :=
  match schedule with
  | [] => O
  | Reader :: rest => S (reader_steps rest)
  | Worker :: rest => reader_steps rest
  end.

(** The statements the reader still has to run. *)
Definition remaining (pc : rpc) : nat :=
  match pc with
  | RTestSummary => 5
  | RFormatSummary => 4
  | RTestRecent => 3
  | RSlice => 2
  | RJoin => 1
  | RDone => 0
  end.

(** The manager as the worker has left it on reaching a program point,
    having started from [m]. *)
Definition shared_at (m : Manager T) (new_summary : pystr) (now : T) (pc : wpc) : Manager T :=
  let m1 := set_summary (strip new_summary) m in
  let m2 := set_last_summarization_time now m1 in
  let m3 := snd ((kept <- alloc (slice_last 4 (recent m2)) ;; modify (set_recent_qa kept)) m2) in
  let m4 := set_token_count (sum_tokens (recent m3)) m3 in
  let m5 := set_token_count (_token_count m4 + _estimate_tokens (summary m4)) m4 in
  match pc with
  | WAcquire | WSetSummary => m
  | WSetTime => m1
  | WTestLen | WSlice => m2
  | WSum => m3
  | WAddEstimate => m4
  | WRelease | WDone => if len (recent m) >? 4 then m5 else m2
  end.

(** The program points the worker only reaches with more than four turns. *)
Definition collapsing (pc : wpc) : bool :=
  match pc with
  | WSlice | WSum | WAddEstimate => true
  | _ => false
  end.

(** Invariant of a run from [start m], worker side: the shared manager is
    the one of the worker's program point. *)
Definition worker_inv (m : Manager T) (new_summary : pystr) (now : T) (c : Config) : Prop :=
  shared c = shared_at m new_summary now (w_pc c)
  /\ (collapsing (w_pc c) = true -> (len (recent m) >? 4) = true).

(** What the reader appends for a summary and for a list of turns. *)
Definition summary_parts (summary : pystr) : list pystr :=
  if truthy summary then [summary_part summary] else [].

Definition turns_parts (l : list (QAEntry T)) : list pystr :=
  if nonempty l then recent_header :: turn_parts (slice_last 4 l) else [].

(** The summary part the reader holds is that of the old summary or that
    of the new one. *)
Definition seen_summary (m : Manager T) (new_summary : pystr) (sp : list pystr) : Prop :=
  sp = summary_parts (summary m) \/ sp = summary_parts (strip new_summary).

(** Invariant of a run from [start m], reader side: what the reader holds
    at each of its program points. *)
Definition reader_inv (m : Manager T) (new_summary : pystr) (c : Config) : Prop :=
  match r_pc c with
  | RTestSummary => parts c = [] /\ returned c = None
  | RFormatSummary =>
    parts c = [] /\ returned c = None /\ truthy (summary (shared c)) = true
  | RTestRecent => returned c = None /\ seen_summary m new_summary (parts c)
  | RSlice =>
    returned c = None /\ seen_summary m new_summary (parts c)
    /\ nonempty (recent m) = true
  | RJoin =>
    returned c = None
    /\ exists sp, seen_summary m new_summary sp /\ parts c = sp ++ turns_parts (recent m)
  | RDone =>
    exists sp, seen_summary m new_summary sp
               /\ returned c = Some (join_parts (sp ++ turns_parts (recent m)))
  end.

End Interleaving.

Arguments Config T : clear implicits.

End Interleaving.

(** ** More of [AudioTranscriberRealtime] *)

(** [_on_message] of [wp_11_analist_gemini.py]: the whole body is in one
    [try]. *)
Module GeminiTranscriber.
Import Transcriber.

Definition _on_message (parsed : result json) : M Transcriber unit :=
  catch
    (data <- lift parsed ;;
     ty <- lift (Py.dict_get data (lit "type") JNull) ;;
     if negb (Py.eq_str ty (lit "Results")) then ret tt else
     channel <- lift (Py.dict_get data (lit "channel") (JObj [])) ;;
     alts <- lift (Py.dict_get channel (lit "alternatives") (JArr [])) ;;
     if negb (Py.truth alts) then ret tt else
     alt <- lift (Py.getitem_int alts 0) ;;
     transcript <- lift (Py.dict_get alt (lit "transcript") (JStr [])) ;;
     text <- lift (Py.str_strip transcript) ;;
     is_final <- lift (Py.dict_get data (lit "is_final") (JBool false)) ;;
     if Py.truth is_final then
       (if truthy text
        then modify (fun t => set_final_chunks (_final_chunks t ++ [text]) t)
        else ret tt) ;;;
       modify (set_partial [])
     else
       modify (set_partial text))
    (fun _ => ret tt).

End GeminiTranscriber.

(** The sender thread of [start_recording], [send_audio].  It runs beside
    the thread that calls [stop_recording], so what it finds in the
    attributes of the session is given pass by pass; the frames it hands to
    the websocket are the state. *)
Module Sender.

Inductive frame : Type :=
| Binary (chunk : list N)       (* opcode=ABNF.OPCODE_BINARY *)
| Text (payload : pystr).

(** One pass of the loop in which [_stop_sending] was found unset: whether
    [ffmpeg_process] and its [stdout] are there, what [stdout.read(CHUNK)]
    gives, whether [_ws_app] is there and [_ws_connected] is set, and what
    [send] does. *)
Record Tick : Type := {
  process : bool;
  read_outcome : result (list N);
  app : bool;
  connected : bool;
  send_outcome : result unit
}.

(** After the loop: whether [_ws_app] is there and [_ws_connected] is set,
    and what [send] does. *)
Record Closing : Type := {
  app_at_end : bool;
  connected_at_end : bool;
  close_send_outcome : result unit
}.

(** [self._ws_app.send(...)] *)
Definition ws_send (f : frame) (outcome : result unit) : M (list frame) unit :=
  fun frames =>
    match outcome with
    | Ok _ => (Ok tt, frames ++ [f])
    | Raise e => (Raise e, frames)
    end.

(** [json.dumps({"type": "CloseStream"})] *)
Definition close_stream : pystr :=
  lit "{" ++ [0x22]%N ++ lit "type" ++ [0x22]%N ++ lit ": "
  ++ [0x22]%N ++ lit "CloseStream" ++ [0x22]%N ++ lit "}".

(** The [while] loop; the passes are those made before [_stop_sending] is
    found set. *)
Fixpoint send_loop (ticks : list Tick) : M (list frame) unit :=
  match ticks with
  | [] => ret tt
  | k :: rest =>
    if negb (process k) then ret tt else
    chunk <- lift (read_outcome k) ;;
    if negb (nonempty chunk) then ret tt else
    continue <- catch
      ((if app k && connected k
        then ws_send (Binary chunk) (send_outcome k) else ret tt) ;;;
       ret true)
      (fun _ => ret false) ;;
    if continue then send_loop rest else ret tt
  end.

(** [send_audio] *)
Definition send_audio (ticks : list Tick) (closing : Closing) : M (list frame) unit :=
  catch
    (send_loop ticks ;;;
     catch
       (if app_at_end closing && connected_at_end closing
        then ws_send (Text close_stream) (close_send_outcome closing) else ret tt)
       (fun _ => ret tt))
    (fun _ => ret tt).

(** The chunks the reads of a run gave. *)
Definition chunks_read (ticks : list Tick) : list (list N) :=
  omap (fun k => match read_outcome k with Ok c => Some c | Raise _ => None end) ticks.

(** A pass after which the loop goes on: the process is there, the read
    gives bytes, and [send], if called, returns. *)
Definition goes_on (k : Tick) : Prop :=
  process k = true
  /\ (exists chunk, read_outcome k = Ok chunk /\ chunk <> [])
  /\ (app k && connected k = true -> send_outcome k = Ok tt).

(** The chunks read in the passes in which the websocket was there and
    connected. *)
Definition forwarded (ticks : list Tick) : list (list N) :=
  omap (fun k => if app k && connected k
                 then match read_outcome k with Ok c => Some c | Raise _ => None end
                 else None) ticks.

(** The frame that ends the stream, when [send_audio] gets to send it. *)
Definition closing_frames (closing : Closing) : list frame :=
  if app_at_end closing && connected_at_end closing
  then match close_send_outcome closing with
       | Ok _ => [Text close_stream]
       | Raise _ => []
       end
  else [].

(** Concrete passes: one that reads and forwards [chunk], one that reads
    it while the connection is down, one whose read raises; and a stop that
    finds the websocket connected. *)
Definition streaming (chunk : list N) : Tick :=
  {| process := true; read_outcome := Ok chunk; app := true; connected := true;
     send_outcome := Ok tt |}.

Definition unconnected (chunk : list N) : Tick :=
  {| process := true; read_outcome := Ok chunk; app := true; connected := false;
     send_outcome := Raise OSError |}.

Definition broken_pipe : Tick :=
  {| process := true; read_outcome := Raise OSError; app := true; connected := true;
     send_outcome := Ok tt |}.

Definition open_closing : Closing :=
  {| app_at_end := true; connected_at_end := true; close_send_outcome := Ok tt |}.

End Sender.

(** Strings with a character that is not whitespace at both ends. *)
Definition head_solid (s : pystr) : bool :=
  match s with
  | c :: _ => negb (is_space c)
  | [] => false
  end.

Definition solid (s : pystr) : Prop :=
  head_solid s = true /\ head_solid (rev s) = true.

(** Whether [subprocess.Popen] returned. *)
Definition popen_ok (env : Transcriber.StartEnv) : bool :=
  match Transcriber.popen_outcome env with Ok _ => true | Raise _ => false end.

(** The parts [stop_recording] joins, and sessions whose parts are all
    solid. *)
Definition parts_of (t : Transcriber.Transcriber) : list pystr :=
  Transcriber._final_chunks t
  ++ (if truthy (Transcriber._partial t) then [Transcriber._partial t] else []).

Definition tidy (t : Transcriber.Transcriber) : Prop :=
  Forall solid (Transcriber._final_chunks t)
  /\ (Transcriber._partial t = [] \/ solid (Transcriber._partial t)).

(** ** More of [DialogueContextManager] *)

Module Dialogue.
Import Context.

Section Dialogue.

Context {T : Type} `{TimeOps T}.

(** The entry [add_qa] builds for a call. *)
Definition entry_of (c : Call T) : QAEntry T :=
  mkQAEntry (call_question c) (call_answer c) (call_now c)
    (_estimate_tokens (call_question c ++ call_answer c)).

(** The pieces [get_full_context] appends to [parts]. *)
Definition full_summary_part (summary : pystr) : pystr :=
  lit "📋 Резюме встречи:" ++ nl ++ summary ++ nl.

Definition history_header : pystr := lit "🗣️ История диалога:".

Definition empty_history : pystr := lit "История диалога пуста.".

(** [get_full_context] *)
Definition get_full_context (m : Manager T) : pystr :=
  let parts := [] in
  let parts :=
    if truthy (summary m) then parts ++ [full_summary_part (summary m)] else parts in
  let parts :=
    if nonempty (recent m)
    then (parts ++ [history_header]) ++ turn_parts (recent m)
    else parts in
  if nonempty parts then join nl parts else empty_history.

(** What the two threads do to a manager, one operation at a time: a call
    of [add_qa], a pass of the worker, a call of [clear]. *)
Inductive Op : Type :=
| AddQA (c : Call T)
| Work (a : Attempt T)
| Clear.

(** A sequence of operations; [ws] is where the worker is.  An operation
    that raises ends the sequence. *)
Fixpoint run_ops (ops : list Op) (ws : WorkerState) : M (Manager T) WorkerState :=
  match ops with
  | [] => ret ws
  | AddQA c :: rest => add_call c ;;; run_ops rest ws
  | Work a :: rest =>
    match ws with
    | Stopped => run_ops rest Stopped
    | WaitingForWork => ws' <- worker [a] ;; run_ops rest ws'
    end
  | Clear :: rest => clear ;;; run_ops rest ws
  end.

(** What holds of a manager between operations, [n] being the bound. *)
Definition settled (n : Z) (m : Manager T) : Prop :=
  max_recent_entries m = n
  /\ len (recent m) <= n
  /\ Forall (fun e => 0 <= tokens e) (recent m)
  /\ sum_tokens (recent m) <= _token_count m
  /\ Forall (fun item => item <> None) (items (_summarization_queue m)).

End Dialogue.

Arguments Op T : clear implicits.

End Dialogue.

(** ** ClipboardSender *)

Module Clipboard.

(** A slice bound [i] on a sequence of length [n], as Python clamps it. *)
Definition clamp (i n : Z) : nat :=
  Z.to_nat (if i <? 0 then Z.max (i + n) 0 else Z.min i n).

(** [text[:idx]] and [text[idx:]] *)
Definition slice_to (idx : Z) (text : pystr) : pystr := take (clamp idx (len text)) text.
Definition slice_from (idx : Z) (text : pystr) : pystr := drop (clamp idx (len text)) text.

(** The highest index at which [c] occurs. *)
Fixpoint find_last (c : N) (s : pystr) : option nat :=
  match s with
  | [] => None
  | x :: r =>
    match find_last c r with
    | Some j => Some (S j)
    | None => if (x =? c)%N then Some 0%nat else None
    end
  end.

(** [text.rfind(c, 0, stop)] for a string [c] of one character *)
Definition rfind (c : N) (text : pystr) (stop : Z) : Z :=
  match find_last c (slice_to stop text) with
  | Some j => Z.of_nat j
  | None => -1
  end.

(** The [while] loop of [split_long_message], for at most [fuel] passes;
    [None] when it has not ended by then. *)
Fixpoint split_loop (fuel : nat) (text : pystr) (max_length : Z) (parts : list pystr)
    : option (list pystr) :=
  match fuel with
  | O => None
  | S fuel' =>
    if negb (truthy text) then Some parts else
    if len text <=? max_length then Some (parts ++ [text]) else
    let idx := rfind 0x0A text max_length in
    let idx := if idx =? -1 then rfind 0x20 text max_length else idx in
    let idx := if idx =? -1 then max_length else idx in
    split_loop fuel' (lstrip (slice_from idx text)) max_length
      (parts ++ [slice_to idx text])
  end.

(** The index the three assignments to [idx] leave. *)
Definition break_index (text : pystr) (max_length : Z) : Z :=
  let idx := rfind 0x0A text max_length in
  let idx := if idx =? -1 then rfind 0x20 text max_length else idx in
  if idx =? -1 then max_length else idx.

(** [split_long_message]; a loop that ends does so within as many passes as
    the text has characters, and one more. *)
Definition split_long_message (text : pystr) (max_length : Z) : option (list pystr) :=
  split_loop (S (length text)) text max_length [].

(** The parts with the whitespace dropped after each put back. *)
Definition rejoin (parts gaps : list pystr) : pystr :=
  concat (zip_with (fun part gap => part ++ gap) parts gaps).

Definition blank (s : pystr) : Prop := forallb is_space s = true.

Section Sender.

Context {T : Type} `{Context.TimeOps T}.

(** [ch.isprintable()], a table of the Unicode database, and [hash(s)]. *)
Variable isprintable : N -> bool.
Variable hash : pystr -> Z.

Record ClipboardSender : Type := mkClipboardSender {
  TELEGRAM_CHAT_ID : option pystr;
  _base : option pystr;
  last_clipboard_content : pystr;
  _last_sent_hash : option Z;
  _last_sent_time : T;
  _debounce_seconds : T;
  requests : list pystr        (* the texts of the requests made, oldest first *)
}.

(** [__init__]; the arguments are the two readings of [os.getenv]. *)
Definition init (token chat_id : option pystr) : ClipboardSender :=
  {| TELEGRAM_CHAT_ID := chat_id;
     _base := match token with
              | Some tk => if truthy tk
                           then Some (lit "https://api.telegram.org/bot" ++ tk)
                           else None
              | None => None
              end;
     last_clipboard_content := [];
     _last_sent_hash := None;
     _last_sent_time := Context.of_int 0;
     _debounce_seconds := Context.of_int 2;
     requests := [] |}.

Definition set_last_clipboard_content (c : pystr) (s : ClipboardSender) : ClipboardSender :=
  mkClipboardSender (TELEGRAM_CHAT_ID s) (_base s) c (_last_sent_hash s)
    (_last_sent_time s) (_debounce_seconds s) (requests s).
Definition set_last_sent (h : Z) (now : T) (s : ClipboardSender) : ClipboardSender :=
  mkClipboardSender (TELEGRAM_CHAT_ID s) (_base s) (last_clipboard_content s) (Some h)
    now (_debounce_seconds s) (requests s).
Definition set_requests (l : list pystr) (s : ClipboardSender) : ClipboardSender :=
  mkClipboardSender (TELEGRAM_CHAT_ID s) (_base s) (last_clipboard_content s)
    (_last_sent_hash s) (_last_sent_time s) (_debounce_seconds s) l.

(** Truth value of an attribute that holds a string or [None]. *)
Definition set_and_truthy (o : option pystr) : bool :=
  match o with Some s => truthy s | None => false end.

(** [_send_single_message]; [post k text] is what the [k]-th request of the
    process, with [text], and its [raise_for_status()] do. *)
Definition _send_single_message (post : nat -> pystr -> result unit) (message : pystr)
    : M ClipboardSender bool :=
  s <- get ;;
  if negb (set_and_truthy (_base s)) || negb (set_and_truthy (TELEGRAM_CHAT_ID s))
  then ret false else
  catch
    (modify (set_requests (requests s ++ [message])) ;;;
     lift (post (length (requests s)) message) ;;;
     ret true)
    (fun _ => ret false).

(** [clean_telegram_message] *)
Definition clean_telegram_message (text : pystr) : pystr :=
  List.filter
    (fun ch => isprintable ch || (ch =? 0x0A)%N || (ch =? 0x0D)%N || (ch =? 0x09)%N) text.

(** Whether the requests for [parts], the first of them being the [k]-th of
    the process, all go through. *)
Fixpoint all_sent (post : nat -> pystr -> result unit) (k : nat) (parts : list pystr)
    : bool :=
  match parts with
  | [] => true
  | p :: rest =>
    match post k p with Ok _ => true | Raise _ => false end && all_sent post (S k) rest
  end.

(** Whether the sender has what it needs to post. *)
Definition configured (s : ClipboardSender) : bool :=
  set_and_truthy (_base s) && set_and_truthy (TELEGRAM_CHAT_ID s).

(** The test that suppresses a repeated message. *)
Definition debounced (now : T) (message : pystr) (s : ClipboardSender) : bool :=
  match _last_sent_hash s with Some h' => hash message =? h' | None => false end
  && Context.t_gtb (_debounce_seconds s) (Context.t_sub now (_last_sent_time s)).

(** The [for] loop of [send_to_telegram] over the parts. *)
Fixpoint send_parts (post : nat -> pystr -> result unit) (parts : list pystr) (ok : bool)
    : M ClipboardSender bool :=
  match parts with
  | [] => ret ok
  | p :: rest =>
    sent <- _send_single_message post p ;;
    send_parts post rest (if negb sent then false else ok)
  end.

(** [h == self._last_sent_hash] *)
Definition hash_eqb (h : Z) (last : option Z) : bool :=
  match last with Some h' => h =? h' | None => false end.

(** What [send_to_telegram] posts for a cleaned message: the message, or
    its parts when it is longer than 4000 characters (with that limit the
    loop of [split_long_message] ends). *)
Definition parts_to_send (message : pystr) : list pystr :=
  if len message >? 4000
  then default [] (split_long_message message 4000)
  else [message].

(** [send_to_telegram]; [now] is the reading of [time.time()].  The test
    [(now - self._last_sent_time) < self._debounce_seconds] is the [>] of
    [TimeOps] with its sides exchanged. *)
Definition send_to_telegram (post : nat -> pystr -> result unit) (now : T)
    (message : pystr) : M ClipboardSender bool :=
  catch
    (let message := clean_telegram_message message in
     let h := hash message in
     s <- get ;;
     if hash_eqb h (_last_sent_hash s)
        && Context.t_gtb (_debounce_seconds s) (Context.t_sub now (_last_sent_time s))
     then ret false else
     if len message >? 4000 then
       ok <- send_parts post (default [] (split_long_message message 4000)) true ;;
       (if ok then modify (set_last_sent h now) else ret tt) ;;;
       ret ok
     else
       ok <- _send_single_message post message ;;
       (if ok then modify (set_last_sent h now) else ret tt) ;;;
       ret ok)
    (fun _ => ret false).

(** What the clipboard and the keyboard do during one [copy_selected_text]. *)
Record CopyEnv : Type := {
  paste_before : result pystr;
  keys : result unit;
  paste_after : result pystr
}.

(** [copy_selected_text] *)
Definition copy_selected_text (env : CopyEnv) : M ClipboardSender bool :=
  catch
    (old <- lift (paste_before env) ;;
     lift (keys env) ;;;
     new <- lift (paste_after env) ;;
     if truthy new && negb (PyStr.eqb new old)
     then modify (set_last_clipboard_content new) ;;; ret true
     else ret false)
    (fun _ => ret false).

(** What the copy took, when it took something new: the clipboard after
    the key presses, if every call returned and it is neither empty nor what
    it was before. *)
Definition taken (env : CopyEnv) : option pystr :=
  match paste_before env, keys env, paste_after env with
  | Ok old, Ok _, Ok new => if truthy new && negb (PyStr.eqb new old) then Some new else None
  | _, _, _ => None
  end.

(** [process_clipboard] *)
Definition process_clipboard (env : CopyEnv) (post : nat -> pystr -> result unit)
    (now : T) : M ClipboardSender unit :=
  copied <- copy_selected_text env ;;
  s <- get ;;
  if copied && truthy (last_clipboard_content s)
  then send_to_telegram post now (last_clipboard_content s) ;;; ret tt
  else ret tt.

End Sender.

Arguments ClipboardSender T : clear implicits.

(** A concrete sender, with integer timestamps: every character from the
    space on is printable, and the hash of a text is its length. *)
Definition demo_isprintable (c : N) : bool := (0x20 <=? c)%N.
Definition demo_hash (s : pystr) : Z := len s.
Definition demo_sender : ClipboardSender Z :=
  init (H:=Context.TimeOps_Z) (Some (lit "token")) (Some (lit "42")).
Definition demo_send (post : nat -> pystr -> result unit) (now : Z) (message : pystr)
    : M (ClipboardSender Z) bool :=
  send_to_telegram (H:=Context.TimeOps_Z) demo_isprintable demo_hash post now message.

End Clipboard.

(** ** SystemAnalystSolver: the streamed answer *)

Module Streaming.
Import Context.

Section Streaming.

Context {T : Type} `{TimeOps T}.

(** [json.loads] *)
Variable loads : pystr -> result json.

Inductive effect : Type :=
| Sleep (duration : T)
| SendToTelegram (buffer : pystr)
| Close.

Record Solver : Type := mkSolver {
  telegram_sender : bool;           (* whether a sender is set *)
  last_request_time : T;
  RATE_LIMIT_DELAY : T;             (* 0.5 *)
  trace : list effect               (* calls made so far, oldest first *)
}.

Definition set_last_request_time (t : T) (s : Solver) : Solver :=
  mkSolver (telegram_sender s) t (RATE_LIMIT_DELAY s) (trace s).

(** The solver after further calls. *)
Definition after_calls (calls : list effect) (s : Solver) : Solver :=
  mkSolver (telegram_sender s) (last_request_time s) (RATE_LIMIT_DELAY s)
    (trace s ++ calls).

Definition call (e : effect) : M Solver unit := modify (after_calls [e]).

(** A line of the response, with the reading of [time.time()] taken when it
    carries a piece. *)
Record Line : Type := {
  raw_line : pystr;
  piece_clock : T
}.

(** What the environment answers during one [send_to_api_streaming]. *)
Record StreamEnv : Type := {
  request_clock : T;
  post_outcome : result unit;       (* [post] and [raise_for_status] *)
  lines : list Line;
  ending : result unit;             (* the iterator ends, or raises *)
  final_clock : T;
  close_outcome : result unit
}.

(** The piece of a line: the [content] of the [delta] of the first of the
    [choices] of the parsed line, each taken with [get] and its default (a
    list holding an empty dict, an empty dict, the empty string). *)
Definition piece_of (line : pystr) : result json :=
  and_then (loads line) (fun chunk =>
  and_then (Py.dict_get chunk (lit "choices") (JArr [JObj []])) (fun choices =>
  and_then (Py.getitem_int choices 0) (fun choice =>
  and_then (Py.dict_get choice (lit "delta") (JObj [])) (fun delta =>
  Py.dict_get delta (lit "content") (JStr []))))).

(** ["\n\n" in buffer] *)
Fixpoint has_blank_line (buffer : pystr) : bool :=
  match buffer with
  | a :: (b :: _) as rest => ((a =? 0x0A)%N && (b =? 0x0A)%N) || has_blank_line rest
  | _ => false
  end.

(** [buffer += piece]: only a string can be added to a string. *)
Definition as_str (piece : json) : result pystr :=
  match piece with
  | JStr p => Ok p
  | _ => Raise TypeError
  end.

(** The payload of a line, or nothing when the line is skipped. *)
Definition payload (raw : pystr) : option pystr :=
  if negb (truthy raw) then None else
  let line := strip raw in
  if negb (truthy line) || PyStr.eqb line (lit "[DONE]")
     || PyStr.eqb line (lit "data: [DONE]")
  then None else
  Some (if Transcriber.startswith line (lit "data:") then strip (drop 5 line) else line).

(** The [for] loop over the lines of the response; [buffer], [full] and
    [last_send] are its local variables. *)
Fixpoint stream_loop (lines : list Line) (buffer : pystr) (full : list pystr)
    (last_send : T) : M Solver (pystr * list pystr) :=
  match lines with
  | [] => ret (buffer, full)
  | l :: rest =>
    match payload (raw_line l) with
    | None => stream_loop rest buffer full last_send
    | Some line =>
      match piece_of line with
      | Raise _ => stream_loop rest buffer full last_send
      | Ok piece =>
        if Py.truth piece then
          p <- lift (as_str piece) ;;
          let buffer := buffer ++ p in
          let full := full ++ [p] in
          let now := piece_clock l in
          if (len buffer >=? 200) || has_blank_line buffer
             || t_gtb (t_sub now last_send) (of_int 1)
          then
            s <- get ;;
            (if telegram_sender s then call (SendToTelegram buffer) else ret tt) ;;;
            stream_loop rest [] full now
          else stream_loop rest buffer full last_send
        else stream_loop rest buffer full last_send
      end
    end
  end.

(** [send_to_api_streaming]; the lines are those of the response to the
    prompt.  The test [now - self.last_request_time < self.RATE_LIMIT_DELAY]
    is the [>] of [TimeOps] with its sides exchanged. *)
Definition send_to_api_streaming (env : StreamEnv) : M Solver (option pystr) :=
  s <- get ;;
  let now := request_clock env in
  (if t_gtb (RATE_LIMIT_DELAY s) (t_sub now (last_request_time s))
   then call (Sleep (t_sub (RATE_LIMIT_DELAY s) (t_sub now (last_request_time s))))
   else ret tt) ;;;
  match post_outcome env with
  | Raise _ => ret None
  | Ok _ =>
    answer <- catch
      (locals <- stream_loop (lines env) [] [] (of_int 0) ;;
       lift (ending env) ;;;
       let '(buffer, full) := locals in
       (if truthy buffer && telegram_sender s
        then call (SendToTelegram buffer) else ret tt) ;;;
       let assembled := strip (concat full) in
       modify (set_last_request_time (final_clock env)) ;;;
       ret (if truthy assembled then Some assembled else None))
      (fun _ => ret None) ;;
    catch (call Close ;;; lift (close_outcome env)) (fun _ => ret tt) ;;;   (* finally *)
    ret answer
  end.

(** The buffers handed to the sender. *)
Definition forwarded (calls : list effect) : list pystr :=
  omap (fun e => match e with SendToTelegram buffer => Some buffer | _ => None end) calls.

End Streaming.

Arguments Solver T : clear implicits.
Arguments StreamEnv T : clear implicits.
Arguments Line T : clear implicits.
Arguments effect T : clear implicits.

End Streaming.

(** ** SystemAnalystSolver: a question from the meeting *)

Module Analyst.
Import Context Streaming.

(** [system_role] *)
Definition system_role : pystr :=
  join nl
    [lit "Ты — опытный бизнес- и системный аналитик (10+ лет), который ведёт встречу с Product Owner'ом для сбора требований.";
     lit "Твоя задача — помочь мне задавать правильные вопросы, чтобы получить полную информацию для создания качественной документации.";
     lit "Ты должен мыслить как практикующий аналитик, который понимает, какие именно детали нужны для проектирования системы."].

(** The prompt for a question in context: the text between the role and the context. *)
Definition context_prompt_head : pystr :=
  join nl
    [[];
     [];
     lit "Текущий контекст обсуждения:";
     []].

(** The prompt for a question in context: the text between the context and the question. *)
Definition context_prompt_middle : pystr :=
  join nl
    [[];
     [];
     lit "Новый вопрос или информация от Product Owner'а:";
     []].

(** The prompt for a question in context: the text after the question. *)
Definition context_prompt_tail : pystr :=
  join nl
    [[];
     [];
     lit "Проанализируй текущую ситуацию и:";
     [];
     lit "1. **Резюме понимания**: Кратко (1-2 предложения) сформулируй, что мы уже выяснили";
     lit "2. **Пробелы в информации**: Определи, какой информации не хватает для полного понимания требования";
     lit "3. **Уточняющие вопросы**: Предложи 3-5 конкретных вопросов, которые нужно задать Product Owner'у прямо сейчас";
     lit "4. **Готовые блоки**: Укажи, какие элементы уже можно документировать (если есть достаточно данных)";
     [];
     lit "Формат ответа строго такой:";
     [];
     lit "📌 **Понимание контекста**:";
     lit "[1-2 предложения о том, что уже понятно]";
     [];
     lit "⚠️ **Требует уточнения**:";
     lit "• [пробел 1 - что именно неясно]";
     lit "• [пробел 2 - какая информация отсутствует]";
     lit "• [пробел 3 - какие допущения есть]";
     [];
     lit "❓ **Вопросы к Product Owner'у** (от наиболее важных):";
     lit "1. [Бизнес-логика/Данные/UX/Интеграции/НФТ] Вопрос, который поможет закрыть пробел...";
     lit "2. [Бизнес-логика/Данные/UX/Интеграции/НФТ] Вопрос...";
     lit "3. [Бизнес-логика/Данные/UX/Интеграции/НФТ] Вопрос...";
     [];
     lit "✅ **Готово к документированию**:";
     lit "• [Таблица " ++ [0x22]%N ++ lit "Название" ++ [0x22]%N ++ lit "] - если достаточно данных о структуре";
     lit "• [API-метод " ++ [0x22]%N ++ lit "Название" ++ [0x22]%N ++ lit "] - если понятны все параметры";
     lit "• [Процесс " ++ [0x22]%N ++ lit "Название" ++ [0x22]%N ++ lit "] - если описан бизнес-процесс";
     lit "• [—] - если ничего не готово";
     [];
     lit "ВАЖНО: Будь максимально конкретным. Не задавай абстрактных вопросов, а предлагай четкие, закрытые вопросы там, где это возможно.";
     lit "Фокусируйся на получении информации, которая нужна для конкретных артефактов документации."].

(** The prompt for a new topic: the text between the role and the question. *)
Definition topic_prompt_head : pystr :=
  join nl
    [[];
     [];
     lit "Новая тема/вопрос от Product Owner'а:";
     []].

(** The prompt for a new topic: the text after the question. *)
Definition topic_prompt_tail : pystr :=
  join nl
    [[];
     [];
     lit "Начни сбор требований. Проанализируй эту тему и:";
     [];
     lit "1. Определи основные направления для уточнения";
     lit "2. Предложи первоочередные вопросы для понимания масштаба и контекста";
     lit "3. Наметь структуру информации, которую нужно собрать";
     [];
     lit "Формат ответа:";
     [];
     lit "🎯 **Тема обсуждения**:";
     lit "[Кратко обозначь основную тему]";
     [];
     lit "🔍 **Области для выяснения**:";
     lit "1. Бизнес-цель и ценность";
     lit "2. Пользователи и их роли";
     lit "3. Основной функционал";
     lit "4. Данные и их источники";
     lit "5. Ограничения и требования";
     [];
     lit "❓ **Первые вопросы к Product Owner'у**:";
     lit "1. Какова основная бизнес-цель этой функции? Какие метрики улучшим?";
     lit "2. Кто основные пользователи и как они будут использовать эту функцию?";
     lit "3. Есть ли аналоги в текущей системе или у конкурентов?";
     lit "4. Какие данные участвуют в процессе? Откуда они берутся?";
     lit "5. Какие сроки и ограничения по реализации?";
     [];
     lit "✅ **Следующий шаг**: После ответа на эти вопросы мы сможем перейти к детальному уточнению.";
     [];
     lit "Начинай с общего понимания, затем углубляйся в детали."].

(** The prompt [process_analyst_question] builds. *)
Definition prompt_for (context question : pystr) : pystr :=
  if truthy context
  then system_role ++ context_prompt_head ++ context ++ context_prompt_middle
       ++ question ++ context_prompt_tail
  else system_role ++ topic_prompt_head ++ question ++ topic_prompt_tail.

Section Analyst.

Context {T : Type} `{TimeOps T}.

(** [json.loads] *)
Variable loads : pystr -> result json.

(** The solver with the context manager it holds, if any. *)
Record World : Type := mkWorld {
  context_manager : option (Manager T);
  solver_state : Solver T
}.

(** A method of the solver's own state, and one of the context manager. *)
Definition on_solver {A} (m : M (Solver T) A) : M World A :=
  fun w =>
    let '(r, s') := m (solver_state w) in (r, mkWorld (context_manager w) s').

Definition on_manager {A} (m : M (Manager T) A) (mgr : Manager T) : M World A :=
  fun w =>
    let '(r, mgr') := m mgr in (r, mkWorld (Some mgr') (solver_state w)).

(** What the environment answers during one [process_analyst_question]:
    the response to the prompt, and the two clock readings of [add_qa]. *)
Record AnalystEnv : Type := {
  respond : pystr -> StreamEnv T;
  add_now : T;
  add_current_time : T
}.

(** [process_analyst_question] *)
Definition process_analyst_question (question : pystr) (env : AnalystEnv)
    : M World unit :=
  if negb (truthy question) || (len (strip question) <? 5) then ret tt else
  w <- get ;;
  let context :=
    match context_manager w with
    | Some mgr => get_context_for_query question mgr
    | None => []
    end in
  let prompt := prompt_for context question in
  answer <- on_solver (send_to_api_streaming loads (respond env prompt)) ;;
  w' <- get ;;
  match answer, context_manager w' with
  | Some a, Some mgr =>
    if truthy a
    then on_manager (add_qa (add_now env) (add_current_time env) question a) mgr
    else ret tt
  | _, _ => ret tt
  end.

End Analyst.

Arguments World T : clear implicits.
Arguments AnalystEnv T : clear implicits.

(** A concrete run, with integer timestamps (in tenths of a second): a
    parser that takes any line for a chunk whose piece is the line, and a
    response of two lines. *)
Definition demo_loads (line : pystr) : result json :=
  Ok (JObj [(lit "choices",
             JArr [JObj [(lit "delta", JObj [(lit "content", JStr line)])]])]).

Definition demo_response : StreamEnv Z :=
  {| request_clock := 1000; post_outcome := Ok tt;
     lines := [{| raw_line := lit "data: Ask about "; piece_clock := 1001 |};
               {| raw_line := lit "data: [DONE]"; piece_clock := 1002 |};
               {| raw_line := lit "the deadline. "; piece_clock := 1003 |}];
     ending := Ok tt; final_clock := 1004; close_outcome := Ok tt |}.

Definition demo_analyst_env : AnalystEnv Z :=
  {| respond := fun _ => demo_response; add_now := 1005; add_current_time := 1005 |}.

Definition demo_world : World Z :=
  mkWorld (Some (Context.init 10 1200 900 None)) (mkSolver true 0 5 []).

End Analyst.

(** ** The hotkeys of [run_daemon] *)

Module Hotkeys.

Inductive key : Type :=
| CtrlL | CtrlR | NumLock | F1 | F2 | F3 | F8 | F9 | Insert | OtherKey.

(** What a handler sets off: a call it makes itself, or a thread it starts. *)
Inductive action : Type :=
| StartRecording              (* transcriber.start_recording() *)
| ProcessAudioQuestion        (* Thread(target=process_audio_question).start() *)
| CheckCompleteness           (* the thread of ctrl+F1 *)
| SuggestStructure            (* the thread of ctrl+F2 *)
| FinalizeGathering           (* the thread of ctrl+F3 *)
| ProcessSqlTask              (* sql_solver.process_sql_task() *)
| TogglePause                 (* toggle_typing_pause() *)
| ProcessClipboard.           (* telegram_sender.process_clipboard() *)

Record Keys : Type := mkKeys {
  num_lock_pressed : bool;
  ctrl_pressed : bool;
  started : list action         (* what was set off so far, oldest first *)
}.

(** The two flags as [run_daemon] creates them. *)
Definition released : Keys :=
  {| num_lock_pressed := false; ctrl_pressed := false; started := [] |}.

Definition set_num_lock_pressed (b : bool) (s : Keys) : Keys :=
  mkKeys b (ctrl_pressed s) (started s).
Definition set_ctrl_pressed (b : bool) (s : Keys) : Keys :=
  mkKeys (num_lock_pressed s) b (started s).

(** An action is set off; [outcome] says whether the call returns. *)
Definition act (outcome : action -> result unit) (a : action) : M Keys unit :=
  modify (fun s => mkKeys (num_lock_pressed s) (ctrl_pressed s) (started s ++ [a])) ;;;
  lift (outcome a).

(** [try: ... except AttributeError: pass] *)
Definition ignoring_attribute_error (m : M Keys unit) : M Keys unit :=
  catch m (fun e => match e with AttributeError => ret tt | _ => raise e end).

Definition is_ctrl (k : key) : bool :=
  match k with CtrlL | CtrlR => true | _ => false end.

(** [on_press] *)
Definition on_press (outcome : action -> result unit) (k : key) : M Keys unit :=
  ignoring_attribute_error
    (if is_ctrl k then modify (set_ctrl_pressed true) else
     match k with
     | NumLock =>
       s <- get ;;
       if negb (num_lock_pressed s) then
         modify (set_num_lock_pressed true) ;;;
         if negb (ctrl_pressed s) then act outcome StartRecording else ret tt
       else ret tt
     | _ =>
       s <- get ;;
       if ctrl_pressed s && negb (num_lock_pressed s) then
         match k with
         | F1 => act outcome CheckCompleteness
         | F2 => act outcome SuggestStructure
         | F3 => act outcome FinalizeGathering
         | _ => ret tt
         end
       else
         match k with
         | F8 => act outcome ProcessSqlTask
         | F9 => act outcome TogglePause
         | Insert => act outcome ProcessClipboard
         | _ => ret tt
         end
     end).

(** [on_release] *)
Definition on_release (outcome : action -> result unit) (k : key) : M Keys unit :=
  ignoring_attribute_error
    (if is_ctrl k then modify (set_ctrl_pressed false) else
     match k with
     | NumLock =>
       s <- get ;;
       if num_lock_pressed s then
         modify (set_num_lock_pressed false) ;;;
         if negb (ctrl_pressed s) then act outcome ProcessAudioQuestion else ret tt
       else ret tt
     | _ => ret tt
     end).

Inductive event : Type :=
| Press (k : key)
| Release (k : key).

Definition key_of (e : event) : key :=
  match e with Press k | Release k => k end.

(** The listener: the handlers run on the events in turn; an exception a
    handler lets through ends it. *)
Fixpoint listen (outcome : action -> result unit) (events : list event) : M Keys unit :=
  match events with
  | [] => ret tt
  | Press k :: rest => on_press outcome k ;;; listen outcome rest
  | Release k :: rest => on_release outcome k ;;; listen outcome rest
  end.

(** The starts and stops of the recording among the actions. *)
Definition recording (actions : list action) : list action :=
  List.filter
    (fun a => match a with StartRecording | ProcessAudioQuestion => true | _ => false end)
    actions.

Definition reports (actions : list action) : list action :=
  List.filter
    (fun a => match a with
              | CheckCompleteness | SuggestStructure | FinalizeGathering => true
              | _ => false
              end)
    actions.

(** [n] rounds of a start and a stop. *)
Fixpoint rounds (n : nat) : list action :=
  match n with
  | O => []
  | S n' => StartRecording :: ProcessAudioQuestion :: rounds n'
  end.

(** What holds of the flags and the actions while no Ctrl key is touched. *)
Definition in_step (s : Keys) : Prop :=
  ctrl_pressed s = false
  /\ reports (started s) = []
  /\ exists n,
       recording (started s)
       = rounds n ++ (if num_lock_pressed s then [StartRecording] else []).

End Hotkeys.

(** ** SystemAnalystSolver: the three reports *)

Module Reports.
Import Context Dialogue Streaming Analyst.

(** The prompt of [check_requirements_completeness] up to the context. *)
Definition completeness_prompt_head : pystr :=
  join nl
    [lit "Ты — старший системный аналитик, проверяющий полноту собранных требований.";
     [];
     lit "Собранная информация:";
     []].

(** The prompt of [check_requirements_completeness] after the context. *)
Definition completeness_prompt_tail : pystr :=
  join nl
    [[];
     [];
     lit "Проанализируй, достаточно ли информации для создания следующих артефактов:";
     [];
     lit "1. **Таблицы БД** — есть ли все поля, типы, ограничения?";
     lit "2. **API-методы** — понятны ли все параметры, ответы, ошибки?";
     lit "3. **Бизнес-процессы** — описан ли основной поток и исключения?";
     lit "4. **Пользовательские сценарии** — понятны ли все шаги и роли?";
     [];
     lit "Для каждого артефакта определи:";
     lit "✅ ГОТОВ — можно начинать документирование";
     lit "⚠️ ЧАСТИЧНО ГОТОВ — нужны небольшие уточнения";
     lit "❌ НЕ ГОТОВ — нужна дополнительная встреча";
     [];
     lit "Формат ответа:";
     [];
     lit "📊 АНАЛИЗ ПОЛНОТЫ ТРЕБОВАНИЙ";
     lit "---";
     lit "🗄️ ТАБЛИЦЫ БД";
     lit "• [Название таблицы] — статус (✅/⚠️/❌)";
     lit "  Примечание: [что именно нужно уточнить]";
     [];
     lit "🌐 API-МЕТОДЫ";
     lit "• [Название метода] — статус (✅/⚠️/❌)";
     lit "  Примечание: [что именно нужно уточнить]";
     [];
     lit "🔄 БИЗНЕС-ПРОЦЕССЫ";
     lit "• [Название процесса] — статус (✅/⚠️/❌)";
     lit "  Примечание: [что именно нужно уточнить]";
     [];
     lit "👥 ПОЛЬЗОВАТЕЛЬСКИЕ СЦЕНАРИИ";
     lit "• [Название сценария] — статус (✅/⚠️/❌)";
     lit "  Примечание: [что именно нужно уточнить]";
     [];
     lit "🎯 РЕКОМЕНДАЦИИ";
     lit "• [Что делать дальше — встреча/уточнение/документирование]"].

(** The prompt of [suggest_documentation_structure] up to the context. *)
Definition structure_prompt_head : pystr :=
  join nl
    [lit "На основе собранных требований:";
     lit "        "].

(** The prompt of [suggest_documentation_structure] after the context. *)
Definition structure_prompt_tail : pystr :=
  join nl
    [[];
     lit "        ";
     lit "        Предложи структуру итоговой документации. Укажи, какие разделы нужно создать, и что в них должно быть.";
     lit "        ";
     lit "        Формат:";
     lit "        📑 СТРУКТУРА ДОКУМЕНТАЦИИ";
     lit "        ";
     lit "        1. БИЗНЕС-ТРЕБОВАНИЯ (BRD)";
     lit "           • Цели и метрики";
     lit "           • Пользователи и роли";
     lit "           • Бизнес-процессы";
     lit "           • Ограничения";
     lit "        ";
     lit "        2. ФУНКЦИОНАЛЬНЫЕ ТРЕБОВАНИЯ (SRS)";
     lit "           • Пользовательские сценарии";
     lit "           • Системные функции";
     lit "           • Правила бизнес-логики";
     lit "        ";
     lit "        3. ТЕХНИЧЕСКИЕ ТРЕБОВАНИЯ";
     lit "           • API-спецификации";
     lit "           • Структура БД";
     lit "           • Интеграции";
     lit "        ";
     lit "        4. НЕФУНКЦИОНАЛЬНЫЕ ТРЕБОВАНИЯ";
     lit "           • Производительность";
     lit "           • Безопасность";
     lit "           • Масштабируемость";
     lit "        ";
     lit "        🎯 ПРИОРИТЕТЫ ДОКУМЕНТИРОВАНИЯ:";
     lit "        1. [Что документировать в первую очередь]";
     lit "        2. [Что можно отложить]";
     lit "        3. [Что требует дополнительных уточнений]"].

(** The prompt of [finalize_requirements_gathering] up to the context. *)
Definition finalization_prompt_head : pystr :=
  join nl
    [lit "Ты завершаешь сбор требований с Product Owner'ом.";
     [];
     lit "Вся собранная информация:";
     []].

(** The prompt of [finalize_requirements_gathering] after the context. *)
Definition finalization_prompt_tail : pystr :=
  join nl
    [[];
     [];
     lit "Проанализируй и:";
     lit "1. Составь итоговый список подтверждённых требований";
     lit "2. Выдели все допущения и риски";
     lit "3. Предложи план документирования";
     lit "4. Определи, что нужно утвердить у PO перед началом разработки";
     [];
     lit "Формат:";
     [];
     lit "🏁 ИТОГ ВСТРЕЧИ ПО СБОРУ ТРЕБОВАНИЙ";
     lit "---";
     lit "✅ ПОДТВЕРЖДЁННЫЕ ТРЕБОВАНИЯ";
     lit "[Список с приоритетами]";
     [];
     lit "⚠️ ДОПУЩЕНИЯ И ОТКРЫТЫЕ ВОПРОСЫ";
     lit "[Что мы предположили, что требует проверки]";
     [];
     lit "📋 ПЛАН ДОКУМЕНТИРОВАНИЯ";
     lit "1. [Документ 1] - срок, ответственный";
     lit "2. [Документ 2] - срок, ответственный";
     lit "3. [Документ 3] - срок, ответственный";
     [];
     lit "🎯 НА УТВЕРЖДЕНИЕ PO";
     lit "• [Требование 1 - требует формального согласования]";
     lit "• [Требование 2 - требует формального согласования]";
     [];
     lit "➡️ СЛЕДУЮЩИЕ ШАГИ";
     lit "• [Что делать дальше]";
     lit "• [Кого информировать о результатах]"].

Inductive report : Type :=
| Completeness        (* check_requirements_completeness, ctrl+F1 *)
| Structure           (* suggest_documentation_structure, ctrl+F2 *)
| Finalization.       (* finalize_requirements_gathering, ctrl+F3 *)

(** The prompt a report builds around the full context. *)
Definition report_prompt (r : report) (context : pystr) : pystr :=
  match r with
  | Completeness => completeness_prompt_head ++ context ++ completeness_prompt_tail
  | Structure => structure_prompt_head ++ context ++ structure_prompt_tail
  | Finalization => finalization_prompt_head ++ context ++ finalization_prompt_tail
  end.

(** What a report returns without a context manager. *)
Definition not_initialised : pystr := lit "Контекстный менеджер не инициализирован".

(** The prefix [on_press] passes for a report. *)
Definition report_prefix (r : report) : pystr :=
  match r with
  | Completeness => lit "📊 Анализ полноты требований"
  | Structure => lit "📑 Структура документации"
  | Finalization => lit "🏁 Итоги сбора требований"
  end.

Section Reports.

Context {T : Type} `{TimeOps T}.

(** [json.loads] *)
Variable loads : pystr -> result json.

(** [check_requirements_completeness], [suggest_documentation_structure]
    and [finalize_requirements_gathering]; [respond] gives the response to
    a prompt. *)
Definition run_report (r : report) (respond : pystr -> StreamEnv T)
    : M (World T) (option pystr) :=
  w <- get ;;
  match context_manager w with
  | None => ret (Some not_initialised)
  | Some mgr =>
    on_solver
      (send_to_api_streaming loads (respond (report_prompt r (get_full_context mgr))))
  end.

(** [send_to_telegram_with_prefix] of [run_daemon]; the sender is the one
    the solver holds. *)
Definition send_to_telegram_with_prefix (message : option pystr) (prefix : pystr)
    : M (World T) unit :=
  w <- get ;;
  match message with
  | Some text =>
    if telegram_sender (solver_state w) && truthy text
       && negb (PyStr.eqb text not_initialised)
    then on_solver (call (SendToTelegram (prefix ++ nl ++ text)))
    else ret tt
  | None => ret tt
  end.

(** The thread [on_press] starts for a report. *)
Definition report_thread (r : report) (respond : pystr -> StreamEnv T)
    : M (World T) unit :=
  message <- run_report r respond ;;
  send_to_telegram_with_prefix message (report_prefix r).

End Reports.

End Reports.

(** ** DeepSeekSQLSolver: typing out a solution

    A key press may raise, and a wait for [typing_paused] to be unset may
    never end: both are the environment's.  [time.sleep] and the random
    delays press nothing and are left out. *)

Module Typing.

Inductive keystroke : Type :=
| Enter               (* Key.enter *)
| Space               (* Key.space *)
| Char (c : N).       (* the character itself *)

Record Typist : Type := mkTypist {
  typing_active : bool;         (* the global *)
  current_indent : Z;
  typed : list keystroke;       (* the keys [press] was called with, oldest first *)
  polls : nat                   (* the waits on [typing_paused] that have ended *)
}.

Definition set_typing_active (b : bool) (s : Typist) : Typist :=
  mkTypist b (current_indent s) (typed s) (polls s).
Definition set_current_indent (n : Z) (s : Typist) : Typist :=
  mkTypist (typing_active s) n (typed s) (polls s).

(** What the environment does during one [human_like_typing]: the outcome
    of the calls that give the input focus to the window; the outcome of
    [press] and [release] for a key, by the number of keys pressed before
    it; and, by the number of waits on [typing_paused] that ended before
    it, whether a wait finds the flag set and never sees it unset. *)
Record TypingEnv : Type := {
  focus : result unit;
  key_outcome : nat -> keystroke -> result unit;
  held : nat -> bool
}.

(** How a computation ends: it returns or raises, or it waits for ever. *)
Inductive ending (A : Type) : Type :=
| Leaves (r : result A)
| Hangs.
Arguments Leaves {A} r.
Arguments Hangs {A}.

Definition W (A : Type) : Type := Typist -> ending A * Typist.

Definition leave {A} (a : A) : W A := fun s => (Leaves (Ok a), s).

Definition and_next {A B} (m : W A) (k : A -> W B) : W B :=
  fun s =>
    match m s with
    | (Leaves (Ok a), s') => k a s'
    | (Leaves (Raise e), s') => (Leaves (Raise e), s')
    | (Hangs, s') => (Hangs, s')
    end.

Declare Scope typing_scope.
Delimit Scope typing_scope with typing.
Notation "m ;;; k" := (and_next m (fun _ => k))
  (at level 62, right associativity) : typing_scope.
Local Open Scope typing_scope.

(** [self.keyboard.press(k); self.keyboard.release(k)] *)
Definition press (env : TypingEnv) (k : keystroke) : W unit :=
  fun s =>
    (Leaves (key_outcome env (length (typed s)) k),
     mkTypist (typing_active s) (current_indent s) (typed s ++ [k]) (polls s)).

(** [while typing_paused and typing_active: time.sleep(0.1)], and the
    [if typing_paused: ...; continue] of the indentation loop: the flag is
    another thread's to unset, and [typing_active] is set for as long as
    the typing lasts. *)
Definition wait (env : TypingEnv) : W unit :=
  fun s =>
    if held env (polls s) then (Hangs, s)
    else (Leaves (Ok tt),
          mkTypist (typing_active s) (current_indent s) (typed s) (S (polls s))).

(** [text.split("\n")]; [cur] holds the line being read, last character
    first. *)
Fixpoint split_lines_from (cur : pystr) (s : pystr) : list pystr :=
  match s with
  | [] => [rev cur]
  | c :: r =>
    if (c =? 0x0A)%N then rev cur :: split_lines_from [] r
    else split_lines_from (c :: cur) r
  end.

Definition split_lines (s : pystr) : list pystr := split_lines_from [] s.

(** [len(line) - len(line.lstrip())] *)
Definition indent_of (line : pystr) : Z := len line - len (lstrip line).

(** [min(...)] of a non-empty sequence. *)
Definition minimum (first : Z) (others : list Z) : Z := foldl Z.min first others.

(** [min_indent] *)
Definition min_indent (lines : list pystr) : Z :=
  match List.filter (fun line => truthy (strip line)) (drop 1 lines) with
  | [] => 0
  | line :: others => minimum (indent_of line) (List.map indent_of others)
  end.

(** [line[n:]] for [n >= 0] *)
Definition slice_from (n : Z) (line : pystr) : pystr := drop (Z.to_nat n) line.

(** [clean_lines] *)
Definition clean_lines (lines : list pystr) : list pystr :=
  take 1 lines
  ++ List.map (fun line => if truthy (strip line)
                           then slice_from (min_indent lines) line else line)
       (drop 1 lines).

(** The [while] loop that types the indentation, for the [missing] steps
    from [current_indent] up to [line_indent]. *)
Fixpoint type_indent_loop (env : TypingEnv) (missing : nat) : W unit :=
  match missing with
  | O => leave tt
  | S missing' =>
    wait env ;;;
    press env Space ;;;
    (fun s => (Leaves (Ok tt), set_current_indent (current_indent s + 1) s)) ;;;
    type_indent_loop env missing'
  end.

Definition type_indent (env : TypingEnv) (line_indent : Z) : W unit :=
  fun s => type_indent_loop env (Z.to_nat (line_indent - current_indent s)) s.

(** [_type_line] *)
Fixpoint _type_line (env : TypingEnv) (line : pystr) : W unit :=
  match line with
  | [] => leave tt
  | c :: rest => wait env ;;; press env (Char c) ;;; _type_line env rest
  end.

(** The [for] loop over [clean_lines[1:]]; [i] is the index of [line] in
    [clean_lines], [count] is [len(clean_lines)]. *)
Fixpoint type_lines (env : TypingEnv) (i : Z) (count : Z) (lines : list pystr)
    : W unit :=
  match lines with
  | [] => leave tt
  | line :: rest =>
    wait env ;;;
    (if negb (truthy (strip line)) then press env Enter
     else
       let stripped_line := lstrip line in
       let line_indent := len line - len stripped_line in
       type_indent env line_indent ;;;
       _type_line env stripped_line ;;;
       if i <? count - 1 then press env Enter else leave tt) ;;;
    type_lines env (i + 1) count rest
  end.

(** The body of the [try]. *)
Definition typing_body (env : TypingEnv) (text : pystr) : W unit :=
  (fun s => (Leaves (focus env), s)) ;;;
  let lines := split_lines text in
  if len lines <? 2 then leave tt else
  let clean := clean_lines lines in
  type_lines env 1 (len clean) (drop 1 clean).

(** [human_like_typing]; the [finally] clause runs when the body returns or
    raises, not while it waits. *)
Definition human_like_typing (env : TypingEnv) (text : pystr) : W unit :=
  fun s =>
    if negb (truthy text) || typing_active s then (Leaves (Ok tt), s) else
    match typing_body env text (set_current_indent 0 (set_typing_active true s)) with
    | (Leaves r, s') => (Leaves r, set_current_indent 0 (set_typing_active false s'))
    | (Hangs, s') => (Hangs, s')
    end.

(** An environment in which every call returns and nothing is held. *)
Definition calm : TypingEnv :=
  {| focus := Ok tt; key_outcome := fun _ _ => Ok tt; held := fun _ => false |}.

(** One in which the fourth key pressed raises. *)
Definition fourth_key_fails : TypingEnv :=
  {| focus := Ok tt;
     key_outcome := fun n _ => if (n =? 3)%nat then Raise OSError else Ok tt;
     held := fun _ => false |}.

(** One in which [typing_paused] is set after the third key, for good. *)
Definition paused_for_good : TypingEnv :=
  {| focus := Ok tt; key_outcome := fun _ _ => Ok tt; held := fun n => (n =? 4)%nat |}.

(** The lines after the first of a query, the last one indented. *)
Definition where_clause : pystr := lit "FROM t" ++ 0x0A%N :: lit "  WHERE a b".

(** A solver that is not typing and has pressed no key yet. *)
Definition idle : Typist := mkTypist false 0 [] 0.

(** The keys a text makes the solver press in it. *)
Definition keys_for (text : pystr) : list keystroke :=
  typed (snd (human_like_typing calm text idle)).






(** The presses from the [start]-th on all returned. *)
Definition pressed_ok (env : TypingEnv) (start : nat) (keys : list keystroke) : Prop :=
  forall i key, keys !! i = Some key -> key_outcome env (start + i) key = Ok tt.

(** What a run of presses and waits from [s] can have done: the keys it
    pressed come after those of [s], the flag is as it was, and the presses
    returned, but the last when it raised; a run that hangs does so where
    the environment holds it. *)
Definition sound {A} (env : TypingEnv) (s : Typist) (out : ending A * Typist) : Prop :=
  exists keys,
    typed (snd out) = typed s ++ keys
    /\ typing_active (snd out) = typing_active s
    /\ match fst out with
       | Leaves (Ok _) => pressed_ok env (length (typed s)) keys
       | Leaves (Raise e) =>
         exists before key,
           keys = before ++ [key]
           /\ pressed_ok env (length (typed s)) before
           /\ key_outcome env (length (typed s) + length before) key = Raise e
       | Hangs =>
         pressed_ok env (length (typed s)) keys
         /\ held env (polls (snd out)) = true
       end.

End Typing.

(** * Properties *)

(** ** Python strings: sanity checks *)

Example lit_ascii : lit "he llo" = [104; 101; 32; 108; 108; 111]%N.
Proof. reflexivity. Qed.

Example lit_cyrillic : lit "Q: Вопрос" = [0x51; 0x3A; 0x20; 0x412; 0x43E; 0x43F; 0x440; 0x43E; 0x441]%N.
Proof. reflexivity. Qed.

Example lit_emoji : lit "📋 " = [0x1F4CB; 0x20]%N.
Proof. reflexivity. Qed.

Example split_example : split (lit "  part one	two  ") = [lit "part"; lit "one"; lit "two"].
Proof. reflexivity. Qed.

Example strip_example : strip (lit "  hello world ") = lit "hello world".
Proof. reflexivity. Qed.

Example join_example : join (lit " ") [lit "a"; lit "b"; lit "c"] = lit "a b c".
Proof. reflexivity. Qed.

(** ** Recording session lifecycle *)

Module TranscriberFacts.
Import Transcriber.

(** Projections of updated sessions and environments. *)
Ltac fields :=
  cbn [DEEPGRAM_API_KEY is_recording ffmpeg_process _ws_app _ws_thread _send_thread
       _ws_connected _stop_sending _final_chunks _partial trace
       set_is_recording set_ffmpeg_process set_ws_app set_ws_thread set_send_thread
       set_ws_connected set_stop_sending set_final_chunks set_partial set_trace
       pactl_info popen_outcome opens_within kill_outcome
       terminate_outcome wait_outcome stop_kill_outcome send_thread_alive
       close_outcome ws_thread_alive negb andb Py.is_some].

Ltac run_monad := unfold call; unfold bind, get, ret, raise, modify, catch, lift.

(** A stopped session, whatever the environment answers. *)
Lemma stop_recording_idle (env : StopEnv) (t : Transcriber) :
  is_recording t = false -> stop_recording env t = (Ok None, t).
Proof.
  intros Hidle. unfold stop_recording. run_monad. now rewrite Hidle.
Qed.

(** A recording session always stops: whatever the calls do, the method
    returns the transcript of the accumulator, and the session it leaves
    differs by the two flags, the emptied accumulator and the trace. *)
Lemma stop_recording_spec (env : StopEnv) (t : Transcriber) :
  is_recording t = true ->
  exists tr,
    stop_recording env t
    = (Ok (spec_transcript (_final_chunks t, _partial t)),
       set_partial [] (set_final_chunks []
         (set_trace tr (set_stop_sending true (set_is_recording false t))))).
Proof.
  intros Hrec. unfold stop_recording. run_monad. rewrite Hrec. fields.
  destruct env as [term wait kill salive close walive]. fields.
  destruct (ffmpeg_process t), term as [[]|], wait as [[]|], kill as [[]|]; fields;
    destruct (_send_thread t), salive; fields;
    destruct (_ws_app t), close as [[]|]; fields;
    destruct (_ws_thread t), walive; fields;
    eexists; reflexivity.
Qed.

Lemma stop_recording_returns (env : StopEnv) (t : Transcriber) :
  exists r t', stop_recording env t = (Ok r, t') /\ is_recording t' = false.
Proof.
  destruct (is_recording t) eqn:Hrec.
  - destruct (stop_recording_spec env t Hrec) as (tr & ->). eauto.
  - exists None, t. split; [now apply stop_recording_idle | exact Hrec].
Qed.

(** C4. [stop_recording] on a session that is not recording returns [None]
    without raising and leaves every field of the session as it was; this
    covers a session that was never started, and the second of two
    consecutive calls, whatever the first one did. *)
Theorem C4_stop_when_not_active :
  (forall env t, is_recording t = false -> stop_recording env t = (Ok None, t))
  /\ (forall env key, stop_recording env (init key) = (Ok None, init key))
  /\ (forall env1 env2 t,
        exists r t1, stop_recording env1 t = (Ok r, t1)
                     /\ stop_recording env2 t1 = (Ok None, t1)).
Proof.
  split; [|split].
  - intros env t. apply stop_recording_idle.
  - intros env key. now apply stop_recording_idle.
  - intros env1 env2 t.
    destruct (stop_recording_returns env1 t) as (r & t1 & Hstop & Hidle).
    exists r, t1. split; [exact Hstop | now apply stop_recording_idle].
Qed.

Lemma C4_stop_when_not_active_witness :
  is_recording (init None) = false
  /\ stop_recording quiet_stop (init None) = (Ok None, init None).
Proof.
  split; [reflexivity|].
  apply (proj1 C4_stop_when_not_active quiet_stop (init None)). reflexivity.
Defined.

(** [detect_pulse_monitor] never raises and touches nothing but the trace. *)
Lemma detect_pulse_monitor_returns (pactl : result (list pystr)) (t : Transcriber) :
  exists monitor,
    detect_pulse_monitor pactl t
    = (Ok monitor, set_trace (trace t ++ [SubprocessRun [lit "pactl"; lit "info"]]) t).
Proof.
  unfold detect_pulse_monitor. run_monad.
  destruct pactl as [lines|e]; [destruct (find_default_sink lines)|]; eauto.
Qed.

(** [start_recording] on a recording session changes nothing.  On an idle
    session, when [Popen] raises, or when the open flag is unset at the call
    and is not set within [open_timeout] (3 s), it returns without raising
    and leaves [is_recording] false; in the second case the calls it made
    end with [kill] on the child process, and no sender thread was started. *)
Lemma start_recording_failures :
  (forall env t, is_recording t = true -> start_recording env t = (Ok tt, t))
  /\ (forall env t e,
        is_recording t = false -> popen_outcome env = Raise e ->
        exists t', start_recording env t = (Ok tt, t') /\ is_recording t' = false)
  /\ (forall env t,
        is_recording t = false -> popen_outcome env = Ok tt ->
        _ws_connected t = false -> opens_within env open_timeout = false ->
        exists t' calls,
          start_recording env t = (Ok tt, t')
          /\ is_recording t' = false
          /\ trace t' = trace t ++ calls
          /\ In (EventWait 3000) calls
          /\ last calls = Some ProcKill
          /\ ~ In (ThreadStart SendThread) calls).
Proof.
  split; [|split].
  - intros env t Hrec. unfold start_recording. run_monad. now rewrite Hrec.
  - intros env t e Hidle Hpopen.
    unfold start_recording. unfold bind at 1. unfold get at 1. rewrite Hidle.
    do 4 (unfold bind at 1; unfold modify at 1). unfold bind at 1.
    match goal with
    | |- context [detect_pulse_monitor ?p ?u] =>
      destruct (detect_pulse_monitor_returns p u) as (monitor & ->)
    end.
    run_monad. rewrite Hpopen. fields. eauto.
  - intros env t Hidle Hpopen Hflag Hwait.
    unfold start_recording. unfold bind at 1. unfold get at 1. rewrite Hidle.
    do 4 (unfold bind at 1; unfold modify at 1). unfold bind at 1.
    match goal with
    | |- context [detect_pulse_monitor ?p ?u] =>
      destruct (detect_pulse_monitor_returns p u) as (monitor & ->)
    end.
    unfold event_wait. run_monad. rewrite Hpopen. fields. rewrite Hflag, Hwait.
    destruct (kill_outcome env) as [[]|]; fields;
      (eexists; eexists; split; [reflexivity|]); fields;
      (split; [reflexivity|]);
      rewrite <- ?app_assoc; cbn [app];
      (split; [reflexivity|]);
      (split; [unfold open_timeout; cbn [In]; tauto|]);
      (split; [reflexivity|]);
      cbn [In]; intros Hin;
      repeat (destruct Hin as [Hin|Hin]; [discriminate Hin|]); exact Hin.
Qed.

Lemma start_recording_failures_at_init :
  (exists t', start_recording failing_spawn (init None) = (Ok tt, t')
              /\ is_recording t' = false)
  /\ (exists t' calls,
        start_recording never_opens (init None) = (Ok tt, t')
        /\ is_recording t' = false
        /\ trace t' = trace (init None) ++ calls
        /\ In (EventWait 3000) calls
        /\ last calls = Some ProcKill
        /\ ~ In (ThreadStart SendThread) calls).
Proof.
  split.
  - apply (proj1 (proj2 start_recording_failures) failing_spawn (init None) OSError);
      reflexivity.
  - apply (proj2 (proj2 start_recording_failures) never_opens (init None)); reflexivity.
Defined.

(** C8. [start_recording] clears [_stop_sending] and never [_ws_connected],
    which only [_on_close] and [_on_error] clear.  A start that times out
    leaves its connection behind; when that connection opens late,
    [_on_open] sets the flag on the idle session.  The next
    [start_recording] finds the flag set: its wait of [open_timeout] (3 s)
    comes back at once although its own connection never opens, it makes no
    call of [kill], starts the sender thread as its last call and leaves
    [is_recording] true: the child process is not torn down and the session
    is not idle. *)
Theorem C8_stale_open_flag :
  let timed_out := snd (start_recording never_opens (init None)) in
  let idle := snd (_on_open timed_out) in
  is_recording timed_out = false
  /\ is_recording idle = false
  /\ _ws_connected idle = true
  /\ opens_within never_opens open_timeout = false
  /\ exists t' calls,
       start_recording never_opens idle = (Ok tt, t')
       /\ is_recording t' = true
       /\ trace t' = trace idle ++ calls
       /\ In (EventWait open_timeout) calls
       /\ ~ In ProcKill calls
       /\ last calls = Some (ThreadStart SendThread).
Proof.
  cbv zeta.
  split; [vm_compute; reflexivity|]. split; [vm_compute; reflexivity|].
  split; [vm_compute; reflexivity|]. split; [vm_compute; reflexivity|].
  set (idle := snd (_on_open (snd (start_recording never_opens (init None))))).
  exists (snd (start_recording never_opens idle)),
         (drop (length (trace idle)) (trace (snd (start_recording never_opens idle)))).
  split; [vm_compute; reflexivity|]. split; [vm_compute; reflexivity|].
  split; [vm_compute; reflexivity|].
  split; [vm_compute; tauto|].
  split; [|vm_compute; reflexivity].
  intros Hin. vm_compute in Hin.
  repeat (destruct Hin as [Hin|Hin]; [discriminate Hin|]). exact Hin.
Qed.

(** *** The transcript accumulator *)

(** Text that is not JSON, a value that is not an object and an object of
    another type are dropped; a [Results] object whose [channel] is not an
    object makes the handler raise. *)
Example on_message_dropped :
  _on_message (Raise ValueError) started = (Ok tt, started)
  /\ _on_message (Ok (JArr [])) started = (Ok tt, started)
  /\ _on_message (Ok (JObj [(lit "type", JStr (lit "Metadata"))])) started = (Ok tt, started)
  /\ _on_message (Ok (JObj [(lit "type", JStr (lit "Results")); (lit "channel", JNull)]))
       started = (Raise AttributeError, started).
Proof. repeat split. Qed.

Lemma eqb_refl (a : pystr) : PyStr.eqb a a = true.
Proof.
  induction a as [|x a IH]; simpl; [reflexivity|].
  now rewrite N.eqb_refl, IH.
Qed.

Lemma assoc_here (key : pystr) (v : json) rest :
  Py.assoc key ((key, v) :: rest) = Some v.
Proof. simpl. now rewrite eqb_refl. Qed.

Lemma assoc_skip (key k : pystr) (v : json) rest :
  PyStr.eqb k key = false -> Py.assoc key ((k, v) :: rest) = Py.assoc key rest.
Proof. intros Hne. simpl. now rewrite Hne. Qed.

(** The handler on a recognition event: it never raises, and updates the
    two accumulator fields as [spec_accumulate_step] says. *)
Lemma on_message_results (is_final : bool) (transcript : pystr) (t : Transcriber) :
  _on_message (results_event is_final transcript) t =
  (Ok tt,
   let acc := spec_accumulate_step (_final_chunks t, _partial t) (is_final, transcript) in
   set_partial (snd acc) (set_final_chunks (fst acc) t)).
Proof.
  unfold _on_message, results_event, Py.dict_get, Py.is_dict. cbn [negb].
  rewrite assoc_here.
  rewrite (assoc_skip (lit "channel") (lit "type")) by (vm_compute; reflexivity).
  rewrite assoc_here.
  rewrite (assoc_skip (lit "is_final") (lit "type")) by (vm_compute; reflexivity).
  rewrite (assoc_skip (lit "is_final") (lit "channel")) by (vm_compute; reflexivity).
  rewrite assoc_here.
  unfold bind, lift. cbn [from_option id Py.eq_str]. rewrite eqb_refl. cbn [negb].
  rewrite assoc_here. cbn [from_option id Py.truth negb].
  change (Py.getitem_int (JArr [JObj [(lit "transcript", JStr transcript)]]) 0)
    with (@Ok json (JObj [(lit "transcript", JStr transcript)])).
  cbn iota beta. rewrite assoc_here. cbn [from_option id Py.str_strip Py.truth].
  unfold spec_accumulate_step.
  destruct is_final; cbn iota.
  - destruct (truthy (strip transcript)) eqn:Htext; unfold modify, ret;
      destruct t; reflexivity.
  - unfold modify. destruct t; reflexivity.
Qed.

Lemma receive_results (events : list (bool * pystr)) (t : Transcriber) :
  exists t',
    receive (List.map event_message events) t = (Ok tt, t')
    /\ (_final_chunks t', _partial t')
       = fold_left spec_accumulate_step events (_final_chunks t, _partial t)
    /\ is_recording t' = is_recording t.
Proof.
  revert t. induction events as [|[is_final transcript] events IH]; intros t.
  - exists t. repeat split.
  - cbn [List.map receive fold_left]. unfold bind, event_message. cbn [fst snd].
    rewrite on_message_results.
    match goal with |- context [receive _ ?u] => destruct (IH u) as (t' & Hrun & Hacc & Hrec) end.
    exists t'. split; [exact Hrun|]. split.
    + rewrite Hacc. f_equal.
      destruct (spec_accumulate_step (_final_chunks t, _partial t) (is_final, transcript));
        destruct t; reflexivity.
    + rewrite Hrec. destruct t; reflexivity.
Qed.

(** What [stop_recording] returns on a recording session. *)
Lemma stop_recording_active (env : StopEnv) (t : Transcriber) :
  is_recording t = true ->
  fst (stop_recording env t) = Ok (spec_transcript (_final_chunks t, _partial t)).
Proof.
  intros Hrec. now destruct (stop_recording_spec env t Hrec) as (tr & ->).
Qed.

(** C2. From an empty accumulator on a recording session, the receiver runs
    through any sequence of recognition events without raising and leaves
    the finalized and pending segments as the specification describes them
    (interim replaces pending; final appends its text if not empty and clears
    pending), and [stop_recording] then returns the finalized segments
    followed by the non-empty pending one, joined by single spaces and
    trimmed ([None] when that is empty).  The two sequences of the
    specification give "hello world" and "part one part tw". *)
Theorem C2_transcript_accumulator :
  (forall events env t,
     is_recording t = true -> _final_chunks t = [] -> _partial t = [] ->
     exists t',
       receive (List.map event_message events) t = (Ok tt, t')
       /\ (_final_chunks t', _partial t') = spec_accumulate events
       /\ fst (stop_recording env t') = Ok (spec_transcript (spec_accumulate events)))
  /\ (forall env,
        fst (stop_recording env
               (snd (receive [partial "he"; partial "hello"; final "hello world"] started)))
        = Ok (Some (lit "hello world")))
  /\ (forall env,
        fst (stop_recording env
               (snd (receive [final "part one"; partial "part tw"] started)))
        = Ok (Some (lit "part one part tw"))).
Proof.
  assert (Hgen : forall events env t,
     is_recording t = true -> _final_chunks t = [] -> _partial t = [] ->
     exists t',
       receive (List.map event_message events) t = (Ok tt, t')
       /\ (_final_chunks t', _partial t') = spec_accumulate events
       /\ fst (stop_recording env t') = Ok (spec_transcript (spec_accumulate events))).
  { intros events env t Hrec Hchunks Hpartial.
    destruct (receive_results events t) as (t' & Hrun & Hacc & Hrec').
    exists t'. rewrite Hchunks, Hpartial in Hacc. fold (spec_accumulate events) in Hacc.
    split; [exact Hrun|]. split; [exact Hacc|].
    rewrite <- Hacc. apply stop_recording_active. now rewrite Hrec'. }
  split; [exact Hgen|]. split; intros env.
  - destruct (Hgen [(false, lit "he"); (false, lit "hello"); (true, lit "hello world")]
                env started) as (t' & Hrun & _ & Hstop); try reflexivity.
    change (List.map event_message
              [(false, lit "he"); (false, lit "hello"); (true, lit "hello world")])
      with [partial "he"; partial "hello"; final "hello world"] in Hrun.
    rewrite Hrun. cbn [snd]. rewrite Hstop. vm_compute. reflexivity.
  - destruct (Hgen [(true, lit "part one"); (false, lit "part tw")]
                env started) as (t' & Hrun & _ & Hstop); try reflexivity.
    change (List.map event_message [(true, lit "part one"); (false, lit "part tw")])
      with [final "part one"; partial "part tw"] in Hrun.
    rewrite Hrun. cbn [snd]. rewrite Hstop. vm_compute. reflexivity.
Qed.

Lemma C2_transcript_accumulator_witness :
  exists t',
    receive (List.map event_message [(true, lit " one "); (true, lit "  "); (false, lit "tw")])
      started = (Ok tt, t')
    /\ (_final_chunks t', _partial t')
       = spec_accumulate [(true, lit " one "); (true, lit "  "); (false, lit "tw")]
    /\ fst (stop_recording quiet_stop t')
       = Ok (spec_transcript
               (spec_accumulate [(true, lit " one "); (true, lit "  "); (false, lit "tw")])).
Proof.
  apply (proj1 C2_transcript_accumulator
           [(true, lit " one "); (true, lit "  "); (false, lit "tw")] quiet_stop started);
    reflexivity.
Defined.

End TranscriberFacts.

(** ** The dialogue context manager *)

Module ContextFacts.
Import Context.

Section Facts.

Context {T : Type} `{TimeOps T}.

Implicit Types (m : Manager T) (l : list (QAEntry T)) (e : QAEntry T).

(** *** Sums of weights *)

Lemma foldl_tokens_acc l (acc : Z) :
  foldl (fun a e => a + tokens e) acc l = acc + sum_tokens l.
Proof.
  unfold sum_tokens. revert acc.
  induction l as [|x l IH]; intros acc; simpl; [lia|].
  rewrite (IH (acc + tokens x)), (IH (0 + tokens x)). lia.
Qed.

Lemma sum_tokens_nil : sum_tokens (@nil (QAEntry T)) = 0.
Proof. reflexivity. Qed.

Lemma sum_tokens_cons e l : sum_tokens (e :: l) = tokens e + sum_tokens l.
Proof. unfold sum_tokens at 1. simpl. rewrite foldl_tokens_acc. lia. Qed.

Lemma sum_tokens_app l1 l2 : sum_tokens (l1 ++ l2) = sum_tokens l1 + sum_tokens l2.
Proof.
  induction l1 as [|x l1 IH]; simpl; [reflexivity|].
  rewrite !sum_tokens_cons, IH. lia.
Qed.

Lemma sum_tokens_take_drop (k : nat) l :
  sum_tokens (take k l) + sum_tokens (drop k l) = sum_tokens l.
Proof. now rewrite <- sum_tokens_app, take_drop. Qed.

(** *** The store of list objects *)

Lemma recent_store_recent l m : recent (store_recent l m) = l.
Proof. unfold recent, contents, store_recent. simpl. now rewrite lookup_insert_eq. Qed.

Lemma store_recent_twice l l' m :
  store_recent l' (store_recent l m) = store_recent l' m.
Proof. unfold store_recent. simpl. now rewrite insert_insert_eq. Qed.

Lemma set_token_count_store_recent (c c' : Z) l l' m :
  set_token_count c' (store_recent l' (set_token_count c (store_recent l m)))
  = set_token_count c' (store_recent l' m).
Proof.
  unfold set_token_count, store_recent, set_heap. simpl. now rewrite insert_insert_eq.
Qed.

Lemma set_queue_twice (q q' : Queue) m : set_queue q' (set_queue q m) = set_queue q' m.
Proof. reflexivity. Qed.

Lemma set_queue_same m : set_queue (_summarization_queue m) m = m.
Proof. now destruct m. Qed.

(** *** The eviction loop *)

(** The loop pops some number [k] of turns off the front, subtracting their
    weights; when the bound is not negative it returns, and [k] is the
    excess of the length over the bound. *)
Lemma evict_spec l m (c : Z) :
  exists r k,
    evict l (set_token_count c (store_recent l m))
    = (r, set_token_count (c - sum_tokens (take k l)) (store_recent (drop k l) m))
    /\ (0 <= max_recent_entries m ->
        r = Ok tt /\ k = (length l - Z.to_nat (max_recent_entries m))%nat).
Proof.
  revert c. induction l as [|x l IH]; intros c.
  - exists (if len (@nil (QAEntry T)) >? max_recent_entries m then Raise IndexError else Ok tt), O.
    split.
    + cbn [evict]. cbn [max_recent_entries set_token_count store_recent set_heap].
      rewrite Z.sub_0_r. now destruct (len [] >? max_recent_entries m).
    + intros Hmax. change (len (@nil (QAEntry T))) with 0.
      destruct (Z.gtb_spec 0 (max_recent_entries m)); [lia|]. split; reflexivity.
  - cbn [evict]. cbn [max_recent_entries set_token_count store_recent set_heap
                       heap recent_qa _token_count].
    destruct (Z.gtb_spec (len (x :: l)) (max_recent_entries m)) as [Hgt|Hle].
    + destruct (IH (c - tokens x)) as (r & k & Hrun & Hok).
      exists r, (S k). split.
      * rewrite set_token_count_store_recent, Hrun.
        cbn [take drop]. rewrite sum_tokens_cons.
        now replace (c - (tokens x + sum_tokens (take k l)))
          with (c - tokens x - sum_tokens (take k l)) by lia.
      * intros Hmax. destruct (Hok Hmax) as [-> ->]. split; [reflexivity|].
        unfold len in Hgt. simpl length in *. lia.
    + exists (Ok tt), O. split.
      * cbn [take drop]. rewrite sum_tokens_nil, Z.sub_0_r. reflexivity.
      * intros Hmax. split; [reflexivity|]. unfold len in Hle. simpl length in *. lia.
Qed.

(** With a negative bound the loop pops every turn and then raises. *)
Lemma evict_negative l m (c : Z) :
  max_recent_entries m < 0 ->
  evict l (set_token_count c (store_recent l m))
  = (Raise IndexError, set_token_count (c - sum_tokens l) (store_recent [] m)).
Proof.
  intros Hneg. revert c. induction l as [|x l IH]; intros c.
  - cbn [evict]. cbn [max_recent_entries set_token_count store_recent set_heap].
    change (len (@nil (QAEntry T))) with 0.
    destruct (Z.gtb_spec 0 (max_recent_entries m)); [|lia].
    now rewrite sum_tokens_nil, Z.sub_0_r.
  - cbn [evict]. cbn [max_recent_entries set_token_count store_recent set_heap
                       heap recent_qa _token_count].
    destruct (Z.gtb_spec (len (x :: l)) (max_recent_entries m)) as [Hgt|Hle].
    + rewrite set_token_count_store_recent, IH, sum_tokens_cons.
      now replace (c - (tokens x + sum_tokens l)) with (c - tokens x - sum_tokens l) by lia.
    + unfold len in Hle. lia.
Qed.

(** *** [add_qa] *)

Lemma same_settings_refl m : same_settings m m.
Proof. repeat split. Qed.

(** Everything a call of [add_qa] does, in one statement. *)
Lemma add_qa_spec (now current_time : T) (q a : pystr) m :
  let e := mkQAEntry q a now (_estimate_tokens (q ++ a)) in
  let l := recent m ++ [e] in
  exists r k m',
    add_qa now current_time q a m = (r, m')
    /\ recent m' = drop k l
    /\ _token_count m' = _token_count m + tokens e - sum_tokens (take k l)
    /\ same_settings m m'
    /\ (forall b, b <> recent_qa m -> is_Some (heap m !! b) -> heap m' !! b = heap m !! b)
    /\ maxsize (_summarization_queue m') = maxsize (_summarization_queue m)
    /\ (r <> Ok tt -> _summarization_queue m' = _summarization_queue m)
    /\ (0 <= max_recent_entries m ->
        r = Ok tt
        /\ k = (length l - Z.to_nat (max_recent_entries m))%nat
        /\ if summarization_due current_time m' && negb (queue_full (_summarization_queue m))
           then exists b,
                  b <> recent_qa m' /\ heap m !! b = None
                  /\ heap m' !! b = Some (recent m')
                  /\ items (_summarization_queue m')
                     = items (_summarization_queue m) ++ [Some b]
           else _summarization_queue m' = _summarization_queue m).
Proof.
  intros e l. unfold add_qa. fold e.
  unfold bind at 1. unfold modify at 1. unfold bind at 1. unfold modify at 1.
  unfold bind at 1. unfold get at 1. cbv beta iota. fold l.
  set (m0 := set_token_count _ _).
  assert (Hm0 : m0 = set_token_count (_token_count m + tokens e) (store_recent l m)) by reflexivity.
  assert (Hl : recent m0 = l) by (rewrite Hm0; apply recent_store_recent).
  rewrite Hl. clearbody m0. subst m0.
  destruct (evict_spec l m (_token_count m + tokens e)) as (r & k & Hrun & Hok).
  unfold bind. rewrite Hrun.
  set (m1 := set_token_count _ (store_recent (drop k l) m)) in *.
  assert (Hrecent : recent m1 = drop k l) by apply recent_store_recent.
  assert (Hframe : forall b, b <> recent_qa m -> heap m1 !! b = heap m !! b).
  { intros b Hb. unfold m1, store_recent. simpl. now rewrite lookup_insert_ne. }
  assert (Hin : is_Some (heap m1 !! recent_qa m)).
  { unfold m1, store_recent. simpl. rewrite lookup_insert_eq. eauto. }
  destruct r as [[]|err].
  2:{ exists (Raise err), k, m1. split; [reflexivity|].
      split; [exact Hrecent|]. split; [reflexivity|]. split; [repeat split|].
      split; [intros b Hb _; now apply Hframe|]. split; [reflexivity|].
      split; [reflexivity|]. intros Hmax. destruct (Hok Hmax) as [Habs _]. discriminate. }
  unfold _check_summarization_needed, bind, get, alloc, catch, put_nowait, bind, get.
  cbv beta iota.
  destruct (summarization_due current_time m1) eqn:Hdue.
  2:{ exists (Ok tt), k, m1. unfold ret.
      split; [reflexivity|].
      split; [exact Hrecent|]. split; [reflexivity|]. split; [repeat split|].
      split; [intros b Hb _; now apply Hframe|]. split; [reflexivity|].
      split; [congruence|]. intros Hmax. destruct (Hok Hmax) as [_ ->].
      split; [reflexivity|]. split; [reflexivity|]. now rewrite Hdue. }
  set (b := fresh (dom (heap m1))).
  assert (Hfresh : heap m1 !! b = None).
  { apply not_elem_of_dom. apply is_fresh. }
  assert (Hb : b <> recent_qa m).
  { intros ->. rewrite Hfresh in Hin. now destruct Hin. }
  assert (Hfresh0 : heap m !! b = None) by now rewrite <- (Hframe b Hb).
  cbn [_summarization_queue set_heap].
  change (_summarization_queue m1) with (_summarization_queue m).
  destruct (queue_full (_summarization_queue m)) eqn:Hfull.
  - unfold raise, ret.
    eexists (Ok tt), k, _. split; [reflexivity|].
    split.
    { unfold recent, contents. cbn [heap recent_qa set_heap].
      change (recent_qa m1) with (recent_qa m).
      rewrite lookup_insert_ne by exact Hb. exact Hrecent. }
    split; [reflexivity|]. split; [repeat split|].
    split.
    { intros c Hc [v Hv]. cbn [heap set_heap].
      rewrite lookup_insert_ne by (intros ->; congruence). now apply Hframe. }
    split; [reflexivity|]. split; [congruence|].
    intros Hmax. destruct (Hok Hmax) as [_ ->].
    split; [reflexivity|]. split; [reflexivity|].
    rewrite andb_false_r. reflexivity.
  - unfold modify.
    eexists (Ok tt), k, _. split; [reflexivity|].
    split.
    { unfold recent, contents. cbn [heap recent_qa set_heap set_queue].
      change (recent_qa m1) with (recent_qa m).
      rewrite lookup_insert_ne by exact Hb. exact Hrecent. }
    split; [reflexivity|]. split; [repeat split|].
    split.
    { intros c Hc [v Hv]. cbn [heap set_heap set_queue].
      rewrite lookup_insert_ne by (intros ->; congruence). now apply Hframe. }
    split; [reflexivity|]. split; [congruence|].
    intros Hmax. destruct (Hok Hmax) as [_ ->].
    split; [reflexivity|]. split; [reflexivity|].
    match goal with |- context [summarization_due current_time ?u] =>
      change (summarization_due current_time u) with (summarization_due current_time m1)
    end.
    rewrite Hdue. cbn [andb negb].
    exists b. split; [exact Hb|]. split; [exact Hfresh0|].
    split; [|reflexivity].
    cbn [heap set_heap set_queue]. rewrite lookup_insert_eq.
    f_equal. unfold recent, contents. cbn [heap recent_qa set_heap set_queue].
    change (recent_qa m1) with (recent_qa m).
    rewrite lookup_insert_ne by exact Hb. reflexivity.
Qed.

Lemma recent_init (n mt th : Z) (sv : option Solver) :
  recent (init (T:=T) n mt th sv) = [].
Proof. unfold recent, contents, init. simpl. now rewrite lookup_singleton_eq. Qed.

(** With a negative bound [add_qa] raises [IndexError], leaving no turns
    and the queue as it was. *)
Lemma add_qa_negative_bound (now current_time : T) (q a : pystr) m :
  max_recent_entries m < 0 ->
  exists m',
    add_qa now current_time q a m = (Raise IndexError, m')
    /\ recent m' = []
    /\ _summarization_queue m' = _summarization_queue m.
Proof.
  intros Hneg. unfold add_qa.
  unfold bind at 1. unfold modify at 1. unfold bind at 1. unfold modify at 1.
  unfold bind at 1. unfold get at 1. cbv beta iota.
  set (e := mkQAEntry q a now (_estimate_tokens (q ++ a))).
  set (m0 := set_token_count _ _).
  assert (Hm0 : m0 = set_token_count (_token_count m + tokens e)
                       (store_recent (recent m ++ [e]) m)) by reflexivity.
  assert (Hl : recent m0 = recent m ++ [e]) by (rewrite Hm0; apply recent_store_recent).
  rewrite Hl. clearbody m0. subst m0.
  unfold bind. rewrite evict_negative by exact Hneg.
  eexists. split; [reflexivity|]. split; [apply recent_store_recent | reflexivity].
Qed.

(** C3. With a bound [N >= 0], a call of [add_qa] returns and leaves at most
    [N] turns: the turns kept are the last ones of the old turns followed by
    the new one, in their order, the [k] oldest having been popped off the
    front, [k] being the excess over [N], and [_token_count] is the old one
    plus the new weight minus the weights of the popped turns.  Hence after
    any sequence of calls on a new manager there are at most [N] turns. *)
Theorem C3_bounded_fifo :
  (forall (now current_time : T) (q a : pystr) m,
     0 <= max_recent_entries m ->
     let e := mkQAEntry q a now (_estimate_tokens (q ++ a)) in
     let l := recent m ++ [e] in
     let k := (length l - Z.to_nat (max_recent_entries m))%nat in
     exists m',
       add_qa now current_time q a m = (Ok tt, m')
       /\ max_recent_entries m' = max_recent_entries m
       /\ len (recent m') <= max_recent_entries m
       /\ recent m' = drop k l
       /\ _token_count m' = _token_count m + tokens e - sum_tokens (take k l))
  /\ (forall (n mt th : Z) (sv : option Solver) (calls : list (Call T)),
        0 <= n ->
        exists m',
          add_all calls (init n mt th sv) = (Ok tt, m')
          /\ len (recent m') <= n).
Proof.
  assert (Hone : forall (now current_time : T) (q a : pystr) m,
     0 <= max_recent_entries m ->
     let e := mkQAEntry q a now (_estimate_tokens (q ++ a)) in
     let l := recent m ++ [e] in
     let k := (length l - Z.to_nat (max_recent_entries m))%nat in
     exists m',
       add_qa now current_time q a m = (Ok tt, m')
       /\ max_recent_entries m' = max_recent_entries m
       /\ len (recent m') <= max_recent_entries m
       /\ recent m' = drop k l
       /\ _token_count m' = _token_count m + tokens e - sum_tokens (take k l)).
  { intros now current_time q a m Hmax e l k.
    destruct (add_qa_spec now current_time q a m)
      as (r & k' & m' & Hrun & Hrecent & Hcount & Hsame & _ & _ & _ & Hok).
    destruct (Hok Hmax) as (-> & -> & _).
    exists m'. split; [exact Hrun|].
    split; [apply Hsame|].
    split; [|split; [exact Hrecent | exact Hcount]].
    rewrite Hrecent. unfold len. rewrite length_drop.
    generalize (length (recent m ++ [mkQAEntry q a now (_estimate_tokens (q ++ a))])).
    intros n. clear - Hmax. lia. }
  split; [exact Hone|].
  intros n mt th sv calls Hn.
  assert (Hall : forall m, max_recent_entries m = n -> len (recent m) <= n ->
            exists m', add_all calls m = (Ok tt, m') /\ len (recent m') <= n).
  { induction calls as [|c calls IH]; intros m Hmax Hlen.
    - exists m. split; [reflexivity | exact Hlen].
    - cbn [add_all]. unfold bind, add_call.
      destruct (Hone (call_now c) (call_current_time c) (call_question c) (call_answer c) m)
        as (m1 & Hrun & Hmax1 & Hlen1 & _); [lia|].
      rewrite Hrun. apply IH; [congruence | now rewrite <- Hmax]. }
  apply Hall; [reflexivity|]. rewrite recent_init. unfold len. simpl. lia.
Qed.

(** C7. With a bound [N >= 0], a call of [add_qa] returns, and it appends one
    item to the work queue exactly when, after the eviction, [_token_count]
    is above the threshold and the time since [last_summarization_time] is
    above [min_summarization_interval] (and the queue is not full: a full
    queue is left as it is, without an exception).  The item is a list
    object that did not exist before, distinct from [recent_qa], holding the
    turns of [recent_qa] at that moment, and a later [add_qa] does not
    change it.  The queue [__init__] creates has no bound and is never
    full. *)
Theorem C7_trigger_and_snapshot :
  (forall (now current_time : T) (q a : pystr) m,
     0 <= max_recent_entries m ->
     exists m',
       add_qa now current_time q a m = (Ok tt, m')
       /\ summarization_due current_time m'
          = (_token_count m' >? summarization_threshold m)
            && t_gtb (t_sub current_time (last_summarization_time m))
                 (min_summarization_interval m)
       /\ if summarization_due current_time m' && negb (queue_full (_summarization_queue m))
          then exists b,
                 items (_summarization_queue m') = items (_summarization_queue m) ++ [Some b]
                 /\ b <> recent_qa m'
                 /\ heap m !! b = None
                 /\ contents m' b = recent m'
                 /\ forall now2 current_time2 q2 a2,
                      contents (snd (add_qa now2 current_time2 q2 a2 m')) b = recent m'
          else _summarization_queue m' = _summarization_queue m)
  /\ (forall q : Queue, maxsize q <= 0 -> queue_full q = false)
  /\ (forall (n mt th : Z) (sv : option Solver),
        maxsize (_summarization_queue (init (T:=T) n mt th sv)) = 0).
Proof.
  split; [|split].
  - intros now current_time q a m Hmax.
    destruct (add_qa_spec now current_time q a m)
      as (r & k & m' & Hrun & Hrecent & Hcount & Hsame & _ & _ & _ & Hok).
    destruct (Hok Hmax) as (-> & -> & Hqueue).
    destruct Hsame as (_ & _ & Hth & _ & Hint & _ & Hlast & _).
    exists m'. split; [exact Hrun|]. split.
    { unfold summarization_due. now rewrite Hth, Hint, Hlast. }
    destruct (summarization_due current_time m' && negb (queue_full (_summarization_queue m)));
      [|exact Hqueue].
    destruct Hqueue as (b & Hb & Hfresh & Hheap & Hitems).
    exists b. split; [exact Hitems|]. split; [exact Hb|]. split; [exact Hfresh|].
    assert (Hcontents : contents m' b = recent m').
    { unfold contents. now rewrite Hheap. }
    split; [exact Hcontents|].
    intros now2 current_time2 q2 a2.
    destruct (add_qa_spec now2 current_time2 q2 a2 m')
      as (r2 & k2 & m2 & Hrun2 & _ & _ & _ & Hframe & _).
    rewrite Hrun2. cbn [snd]. unfold contents.
    rewrite (Hframe b Hb) by (rewrite Hheap; eauto). now rewrite Hheap.
  - intros q Hq. unfold queue_full.
    destruct (Z.ltb_spec 0 (maxsize q)); [lia | reflexivity].
  - reflexivity.
Qed.

(** *** Summarization *)

Lemma length_slice_last {A} (keep : nat) (l : list A) :
  (0 < keep < length l)%nat -> length (slice_last keep l) = keep.
Proof.
  intros Hlt. destruct keep as [|keep]; [lia|].
  unfold slice_last. rewrite length_drop. lia.
Qed.

(** What the locked block does. *)
Lemma apply_summary_spec (keep : nat) (s : pystr) (now : T) m :
  exists m',
    apply_summary keep s now m = (Ok tt, m')
    /\ summary m' = strip s
    /\ last_summarization_time m' = now
    /\ _summarization_queue m' = _summarization_queue m
    /\ (forall b, is_Some (heap m !! b) -> heap m' !! b = heap m !! b)
    /\ if len (recent m) >? Z.of_nat keep
       then recent m' = slice_last keep (recent m)
            /\ _token_count m' = sum_tokens (recent m') + _estimate_tokens (strip s)
       else recent m' = recent m /\ _token_count m' = _token_count m.
Proof.
  unfold apply_summary, bind, modify, get, alloc. cbv beta iota.
  change (recent (set_last_summarization_time now (set_summary (strip s) m)))
    with (recent m).
  destruct (len (recent m) >? Z.of_nat keep).
  - eexists. split; [reflexivity|]. cbn.
    split; [reflexivity|]. split; [reflexivity|]. split; [reflexivity|].
    split.
    { intros b [v Hv]. rewrite lookup_insert_ne; [reflexivity|].
      intros <-. pose proof (is_fresh (dom (heap m))) as Hfresh.
      apply Hfresh. apply elem_of_dom. eauto. }
    unfold recent, contents. cbn. rewrite lookup_insert_eq. cbn.
    split; reflexivity.
  - unfold ret. eexists. split; [reflexivity|]. cbn.
    repeat split; reflexivity.
Qed.

(** A failed attempt of [_perform_summarization] changes nothing. *)
Lemma perform_summarization_failed (batch : loc) (a : Attempt T) m :
  attempt_fails a \/ solver m = None ->
  _perform_summarization batch (post a) (clock a) m = (Ok tt, m).
Proof.
  intros Hfail. unfold _perform_summarization, bind, get. cbv beta iota zeta.
  destruct (nonempty (contents m batch)); [|reflexivity].
  destruct Hfail as [Hfail | ->]; [|reflexivity].
  destruct (solver m); [|reflexivity]. cbn [negb orb Py.is_some].
  specialize (Hfail (summarization_prompt (contents m batch))).
  destruct (send_summarization _); [|reflexivity]. now rewrite Hfail.
Qed.

Lemma worker_failed (attempts : list (Attempt T)) m :
  Forall attempt_fails attempts \/ solver m = None ->
  exists ws q, worker attempts m = (Ok ws, set_queue q m).
Proof.
  revert m. induction attempts as [|a attempts IH]; intros m Hfail.
  - exists WaitingForWork, (_summarization_queue m). cbn. unfold ret.
    now rewrite set_queue_same.
  - cbn [worker]. unfold bind at 1. unfold get at 1. cbv beta iota zeta.
    destruct (items (_summarization_queue m)) as [|item queued].
    + exists WaitingForWork, (_summarization_queue m). unfold ret.
      now rewrite set_queue_same.
    + unfold bind at 1. unfold modify at 1. cbv beta iota.
      destruct item as [batch|].
      * unfold bind. rewrite perform_summarization_failed.
        2:{ destruct Hfail as [Hall | Hnone]; [left; now inversion Hall | right; exact Hnone]. }
        destruct (IH (set_queue (mkQueue (maxsize (_summarization_queue m)) queued) m))
          as (ws & q & Hrun).
        { destruct Hfail as [Hall | Hnone]; [left; now inversion Hall | right; exact Hnone]. }
        rewrite Hrun. exists ws, q. reflexivity.
      * exists Stopped, (mkQueue (maxsize (_summarization_queue m)) queued). reflexivity.
Qed.

(** C5. When every attempt fails (the request raises, the response is an
    error or malformed, or the text is empty) or no collaborator is set, the
    worker runs through any number of queued batches without raising, and
    leaves the manager as it was but for the queue it consumed: [summary],
    the turns, [_token_count] and [last_summarization_time] are unchanged.
    An exception of the request, of [raise_for_status] or of [json] is
    turned into [None] by [send_summarization]. *)
Theorem C5_failed_summarization_changes_nothing :
  (forall (attempts : list (Attempt T)) m,
     Forall attempt_fails attempts \/ solver m = None ->
     exists ws q,
       worker attempts m = (Ok ws, set_queue q m)
       /\ summary (set_queue q m) = summary m
       /\ recent (set_queue q m) = recent m
       /\ _token_count (set_queue q m) = _token_count m
       /\ last_summarization_time (set_queue q m) = last_summarization_time m)
  /\ (forall err : exn, send_summarization (Raise err) = None)
  /\ (forall r (err : exn),
        raise_for_status r = Raise err -> send_summarization (Ok r) = None)
  /\ (forall r (err : exn),
        response_json r = Raise err -> send_summarization (Ok r) = None).
Proof.
  split; [|split; [|split]].
  - intros attempts m Hfail.
    destruct (worker_failed attempts m Hfail) as (ws & q & Hrun).
    exists ws, q. repeat split. exact Hrun.
  - reflexivity.
  - intros r err Hr. unfold send_summarization, and_then. now rewrite Hr.
  - intros r err Hr. unfold send_summarization, and_then. rewrite Hr.
    now destruct (raise_for_status r).
Qed.

(** A successful attempt of [_perform_summarization] in [xh_2.py]. *)
Lemma perform_summarization_succeeds
    (batch : loc) (post : pystr -> result Response) (now : T) (s : pystr) m :
  contents m batch <> [] -> solver m <> None ->
  send_summarization (post (summarization_prompt (contents m batch))) = Some s ->
  truthy s = true ->
  exists m',
    _perform_summarization batch post now m = (Ok tt, m')
    /\ summary m' = strip s
    /\ last_summarization_time m' = now
    /\ if len (recent m) >? 4
       then recent m' = slice_last 4 (recent m)
            /\ length (recent m') = 4%nat
            /\ _token_count m' = sum_tokens (recent m') + _estimate_tokens (strip s)
       else recent m' = recent m /\ _token_count m' = _token_count m.
Proof.
  intros Hbatch Hsolver Hsend Htruthy.
  unfold _perform_summarization, bind, get. cbv beta iota zeta.
  destruct (contents m batch) as [|x entries] eqn:Hentries; [congruence|].
  destruct (solver m); [|congruence]. cbn [nonempty negb orb Py.is_some].
  rewrite Hsend, Htruthy.
  destruct (apply_summary_spec 4 s now m) as (m' & Hrun & Hsum & Hlast & _ & _ & Hcase).
  exists m'. split; [exact Hrun|]. split; [exact Hsum|]. split; [exact Hlast|].
  change (Z.of_nat 4) with 4 in Hcase.
  destruct (Z.gtb_spec (len (recent m)) 4) as [Hgt|Hle]; [|exact Hcase].
  destruct Hcase as [Hrecent Hcount]. split; [exact Hrecent|]. split; [|exact Hcount].
  rewrite Hrecent. apply length_slice_last. unfold len in Hgt. lia.
Qed.

(** A successful attempt in [wp_11_analist_gemini.py]. *)
Lemma gemini_perform_summarization_succeeds
    (batch : loc) (generate : pystr -> result pystr) (now : T) (s : pystr) m :
  contents m batch <> [] -> solver m <> None ->
  Gemini.generate_summary_text
    (generate (Gemini.summarization_prompt (contents m batch))) = Some s ->
  truthy s = true ->
  exists m',
    Gemini._perform_summarization batch generate now m = (Ok tt, m')
    /\ summary m' = strip s
    /\ last_summarization_time m' = now
    /\ if len (recent m) >? 2
       then recent m' = slice_last 2 (recent m)
            /\ length (recent m') = 2%nat
            /\ _token_count m' = sum_tokens (recent m') + _estimate_tokens (strip s)
       else recent m' = recent m /\ _token_count m' = _token_count m.
Proof.
  intros Hbatch Hsolver Hgen Htruthy.
  unfold Gemini._perform_summarization, bind, get, catch. cbv beta iota zeta.
  destruct (contents m batch) as [|x entries] eqn:Hentries; [congruence|].
  destruct (solver m); [|congruence]. cbn [nonempty negb orb Py.is_some].
  rewrite Hgen, Htruthy.
  destruct (apply_summary_spec 2 s now m) as (m' & Hrun & Hsum & Hlast & _ & _ & Hcase).
  rewrite Hrun.
  exists m'. split; [reflexivity|]. split; [exact Hsum|]. split; [exact Hlast|].
  change (Z.of_nat 2) with 2 in Hcase.
  destruct (Z.gtb_spec (len (recent m)) 2) as [Hgt|Hle]; [|exact Hcase].
  destruct Hcase as [Hrecent Hcount]. split; [exact Hrecent|]. split; [|exact Hcount].
  rewrite Hrecent. apply length_slice_last. unfold len in Hgt. lia.
Qed.

(** C6 (amended). When the collaborator returns a non-empty text, the
    attempt returns without raising, [summary] becomes that text trimmed and
    [last_summarization_time] the current time.  When there are more turns
    than the keep count (4 in [xh_2.py], 2 in [wp_11_analist_gemini.py]),
    the turns are cut down to the last ones, that many, and [_token_count]
    becomes the sum of their weights plus the estimate for the new summary;
    otherwise the turns and [_token_count] stay as they were. *)
Theorem C6_successful_summarization :
  (forall (batch : loc) (post : pystr -> result Response) (now : T) (s : pystr) m,
     contents m batch <> [] -> solver m <> None ->
     send_summarization (post (summarization_prompt (contents m batch))) = Some s ->
     truthy s = true ->
     exists m',
       _perform_summarization batch post now m = (Ok tt, m')
       /\ summary m' = strip s
       /\ last_summarization_time m' = now
       /\ if len (recent m) >? 4
          then recent m' = slice_last 4 (recent m)
               /\ length (recent m') = 4%nat
               /\ _token_count m' = sum_tokens (recent m') + _estimate_tokens (strip s)
          else recent m' = recent m /\ _token_count m' = _token_count m)
  /\ (forall (batch : loc) (generate : pystr -> result pystr) (now : T) (s : pystr) m,
        contents m batch <> [] -> solver m <> None ->
        Gemini.generate_summary_text
          (generate (Gemini.summarization_prompt (contents m batch))) = Some s ->
        truthy s = true ->
        exists m',
          Gemini._perform_summarization batch generate now m = (Ok tt, m')
          /\ summary m' = strip s
          /\ last_summarization_time m' = now
          /\ if len (recent m) >? 2
             then recent m' = slice_last 2 (recent m)
                  /\ length (recent m') = 2%nat
                  /\ _token_count m' = sum_tokens (recent m') + _estimate_tokens (strip s)
             else recent m' = recent m /\ _token_count m' = _token_count m).
Proof.
  split.
  - intros batch post now s m. apply perform_summarization_succeeds.
  - intros batch generate now s m. apply gemini_perform_summarization_succeeds.
Qed.

(** [add_qa] keeps the difference between [_token_count] and the sum of
    the weights, whether it returns or raises. *)
Lemma add_qa_offset (now current_time : T) (q a : pystr) m :
  let m' := snd (add_qa now current_time q a m) in
  _token_count m' - sum_tokens (recent m') = _token_count m - sum_tokens (recent m).
Proof.
  destruct (add_qa_spec now current_time q a m)
    as (r & k & m' & Hrun & Hrecent & Hcount & _).
  rewrite Hrun. cbn [snd]. rewrite Hrecent, Hcount.
  pose proof (sum_tokens_take_drop k
                (recent m ++ [mkQAEntry q a now (_estimate_tokens (q ++ a))])) as Hsplit.
  rewrite sum_tokens_app, sum_tokens_cons, sum_tokens_nil in Hsplit. lia.
Qed.

Lemma add_all_offset (calls : list (Call T)) m :
  let m' := snd (add_all calls m) in
  _token_count m' - sum_tokens (recent m') = _token_count m - sum_tokens (recent m).
Proof.
  revert m. induction calls as [|c calls IH]; intros m; [reflexivity|].
  cbn [add_all]. unfold bind, add_call.
  pose proof (add_qa_offset (call_now c) (call_current_time c)
                (call_question c) (call_answer c) m) as Hstep.
  destruct (add_qa _ _ _ _ m) as [[[]|err] m1]; cbn [snd] in *.
  - specialize (IH m1). cbv zeta in IH. lia.
  - exact Hstep.
Qed.

(** C1 (amended). A call of [add_qa] leaves the difference between
    [_token_count] and the sum of the weights of the turns in [recent_qa] as
    it was; so when the two agree they still agree after any sequence of
    calls, as they do after any sequence of calls on a new manager.  A
    summarization that succeeds with more than four turns present leaves
    [_token_count] equal to the sum of the weights of the turns kept plus the
    estimate for the new summary. *)
Theorem C1_weight_accounting :
  (forall (now current_time : T) (q a : pystr) m,
     let m' := snd (add_qa now current_time q a m) in
     _token_count m' - sum_tokens (recent m') = _token_count m - sum_tokens (recent m))
  /\ (forall (calls : list (Call T)) m,
        _token_count m = sum_tokens (recent m) ->
        let m' := snd (add_all calls m) in
        _token_count m' = sum_tokens (recent m'))
  /\ (forall (n mt th : Z) (sv : option Solver) (calls : list (Call T)),
        let m' := snd (add_all calls (init n mt th sv)) in
        _token_count m' = sum_tokens (recent m'))
  /\ (forall (batch : loc) (post : pystr -> result Response) (now : T) (s : pystr) m,
        contents m batch <> [] -> solver m <> None ->
        send_summarization (post (summarization_prompt (contents m batch))) = Some s ->
        truthy s = true ->
        len (recent m) > 4 ->
        let m' := snd (_perform_summarization batch post now m) in
        _token_count m' = sum_tokens (recent m') + _estimate_tokens (summary m')).
Proof.
  split; [|split; [|split]].
  - exact add_qa_offset.
  - intros calls m Heq. pose proof (add_all_offset calls m) as Hoff.
    cbv zeta in *. lia.
  - intros n mt th sv calls.
    pose proof (add_all_offset calls (init n mt th sv)) as Hoff.
    cbv zeta in *. rewrite recent_init in Hoff. cbn in Hoff. lia.
  - intros batch post now s m Hbatch Hsolver Hsend Htruthy Hlen.
    destruct (perform_summarization_succeeds batch post now s m)
      as (m' & Hrun & Hsum & _ & Hcase); try assumption.
    rewrite Hrun. cbn [snd].
    destruct (Z.gtb_spec (len (recent m)) 4) as [Hgt|Hle]; [|lia].
    destruct Hcase as (_ & _ & Hcount). now rewrite Hsum.
Qed.

(** C10. The rendering does not depend on the question passed in: it is a
    function of [summary] and of the turns in [recent_qa] alone, in
    [xh_2.py] and in [wp_11_analist_gemini.py]. *)
Theorem C10_query_independence :
  (forall (q1 q2 : pystr) m,
     get_context_for_query q1 m = get_context_for_query q2 m)
  /\ (forall (q1 q2 : pystr) m m',
        summary m = summary m' -> recent m = recent m' ->
        get_context_for_query q1 m = get_context_for_query q2 m')
  /\ (forall (q1 q2 : pystr) m,
        Gemini.get_context_for_query q1 m = Gemini.get_context_for_query q2 m)
  /\ (forall (q1 q2 : pystr) m m',
        summary m = summary m' -> recent m = recent m' ->
        Gemini.get_context_for_query q1 m = Gemini.get_context_for_query q2 m').
Proof.
  split; [|split; [|split]].
  - reflexivity.
  - intros q1 q2 m m' Hsum Hrecent. unfold get_context_for_query.
    now rewrite Hsum, Hrecent.
  - reflexivity.
  - intros q1 q2 m m' Hsum Hrecent. unfold Gemini.get_context_for_query.
    now rewrite Hsum, Hrecent.
Qed.

End Facts.

(** *** Concrete runs *)

(** C1, counterexample.  Five turns on a manager with threshold 0, then one
    successful summarization: four turns of weight 1 are kept, and
    [_token_count] is 5, the estimate for the summary included. *)
Lemma C1_counterexample :
  let m := demo_manager 5 in
  let m' := snd (worker [answering (lit "ok")] m) in
  _token_count m = sum_tokens (recent m)
  /\ _token_count m' = 5 /\ sum_tokens (recent m') = 4
  /\ _token_count m' <> sum_tokens (recent m').
Proof. vm_compute. repeat split; discriminate. Qed.

Lemma C1_weight_accounting_witness :
  (_token_count (demo_manager 3) = sum_tokens (recent (demo_manager 3)))
  /\ (let m := demo_manager 5 in
      len (recent m) > 4
      /\ let m' := snd (_perform_summarization 2%positive (fun _ => reply (lit "ok")) 200 m) in
         _token_count m' = sum_tokens (recent m') + _estimate_tokens (summary m')).
Proof.
  split.
  - apply (proj1 (proj2 (proj2 (C1_weight_accounting (T:=Z))))).
  - cbv zeta. split; [vm_compute; reflexivity|].
    apply (proj2 (proj2 (proj2 (C1_weight_accounting (T:=Z))))
             2%positive (fun _ => reply (lit "ok")) 200 (lit "ok") (demo_manager 5)).
    + vm_compute. discriminate.
    + vm_compute. discriminate.
    + vm_compute. reflexivity.
    + reflexivity.
    + vm_compute. reflexivity.
Defined.

Lemma C3_bounded_fifo_witness :
  0 <= max_recent_entries (demo_manager 10)
  /\ exists m',
       add_qa 100 100 (lit "q") (lit "a") (demo_manager 10) = (Ok tt, m')
       /\ max_recent_entries m' = 10
       /\ len (recent m') <= 10
       /\ recent m'
          = drop 1 (recent (demo_manager 10)
                    ++ [mkQAEntry (lit "q") (lit "a") 100 (_estimate_tokens (lit "q" ++ lit "a"))])
       /\ _token_count m'
          = _token_count (demo_manager 10) + 1
            - sum_tokens
                (take 1 (recent (demo_manager 10)
                         ++ [mkQAEntry (lit "q") (lit "a") 100
                               (_estimate_tokens (lit "q" ++ lit "a"))])).
Proof.
  split; [vm_compute; discriminate|].
  apply (proj1 (C3_bounded_fifo (T:=Z)) 100 100 (lit "q") (lit "a") (demo_manager 10)).
  vm_compute. discriminate.
Defined.

Lemma C5_failed_summarization_changes_nothing_witness :
  let attempts := [network_down; server_error; malformed_body; answering (lit "  ")] in
  let m := demo_manager 5 in
  Forall attempt_fails attempts
  /\ exists ws q,
       worker attempts m = (Ok ws, set_queue q m)
       /\ summary (set_queue q m) = summary m
       /\ recent (set_queue q m) = recent m
       /\ _token_count (set_queue q m) = _token_count m
       /\ last_summarization_time (set_queue q m) = last_summarization_time m.
Proof.
  cbv zeta.
  assert (Hfail : Forall attempt_fails
                    [network_down; server_error; malformed_body; answering (lit "  ")]).
  { repeat constructor; intros prompt; vm_compute; auto. }
  split; [exact Hfail|].
  apply (proj1 (C5_failed_summarization_changes_nothing (T:=Z))). left. exact Hfail.
Defined.

(** C6, counterexample.  One turn, then one successful summarization: the
    summary is replaced, and [_token_count] is still the weight of the turn,
    without the estimate for the summary. *)
Lemma C6_counterexample :
  let m := demo_manager 1 in
  let m' := snd (worker [answering (lit "ok")] m) in
  summary m = [] /\ summary m' = lit "ok"
  /\ recent m' = recent m
  /\ _token_count m' = 1
  /\ sum_tokens (recent m') + _estimate_tokens (summary m') = 2
  /\ _token_count m' <> sum_tokens (recent m') + _estimate_tokens (summary m').
Proof. vm_compute. repeat split; discriminate. Qed.

Lemma C6_successful_summarization_witness :
  let m := demo_manager 5 in
  (contents m 2%positive <> [] /\ solver m <> None
   /\ send_summarization (reply (lit " ok ")) = Some (lit "ok"))
  /\ exists m',
       _perform_summarization 2%positive (fun _ => reply (lit " ok ")) 200 m = (Ok tt, m')
       /\ summary m' = strip (lit "ok")
       /\ last_summarization_time m' = 200
       /\ if len (recent m) >? 4
          then recent m' = slice_last 4 (recent m)
               /\ length (recent m') = 4%nat
               /\ _token_count m' = sum_tokens (recent m') + _estimate_tokens (strip (lit "ok"))
          else recent m' = recent m /\ _token_count m' = _token_count m.
Proof.
  cbv zeta. split.
  - repeat split; vm_compute; (discriminate || reflexivity).
  - apply (proj1 (C6_successful_summarization (T:=Z))
             2%positive (fun _ => reply (lit " ok ")) 200 (lit "ok") (demo_manager 5)).
    + vm_compute. discriminate.
    + vm_compute. discriminate.
    + vm_compute. reflexivity.
    + reflexivity.
Defined.

Lemma C7_trigger_and_snapshot_witness :
  let m := demo_manager 2 in
  0 <= max_recent_entries m
  /\ exists m',
       add_qa 100 100 (lit "q") (lit "a") m = (Ok tt, m')
       /\ summarization_due 100 m'
          = (_token_count m' >? summarization_threshold m)
            && t_gtb (t_sub 100 (last_summarization_time m)) (min_summarization_interval m)
       /\ if summarization_due 100 m' && negb (queue_full (_summarization_queue m))
          then exists b,
                 items (_summarization_queue m') = items (_summarization_queue m) ++ [Some b]
                 /\ b <> recent_qa m'
                 /\ heap m !! b = None
                 /\ contents m' b = recent m'
                 /\ forall now2 current_time2 q2 a2,
                      contents (snd (add_qa now2 current_time2 q2 a2 m')) b = recent m'
          else _summarization_queue m' = _summarization_queue m.
Proof.
  cbv zeta. split; [vm_compute; discriminate|].
  apply (proj1 (C7_trigger_and_snapshot (T:=Z)) 100 100 (lit "q") (lit "a") (demo_manager 2)).
  vm_compute. discriminate.
Defined.

Lemma C10_query_independence_witness :
  let m := demo_manager 2 in
  let m' := set_queue (mkQueue 0 []) (set_token_count 7 m) in
  (summary m = summary m' /\ recent m = recent m')
  /\ get_context_for_query (lit "first") m = get_context_for_query (lit "second") m'.
Proof.
  cbv zeta. split; [split; reflexivity|].
  apply (proj1 (proj2 (C10_query_independence (T:=Z)))); reflexivity.
Defined.

End ContextFacts.

(** ** Rendering the context while a summarization is being applied *)

Module InterleavingFacts.
Import Context Interleaving.

(** *** [strip] is idempotent *)

Lemma lstrip_idem (s : pystr) : lstrip (lstrip s) = lstrip s.
Proof.
  induction s as [|c r IH]; [reflexivity|].
  simpl. destruct (is_space c) eqn:Hc; [exact IH|]. simpl. now rewrite Hc.
Qed.

Lemma lstrip_snoc (l : pystr) (c : N) :
  is_space c = false -> lstrip (l ++ [c]) = lstrip l ++ [c].
Proof.
  intros Hc. induction l as [|x l IH]; simpl.
  - now rewrite Hc.
  - destruct (is_space x); [exact IH | reflexivity].
Qed.

Lemma rstrip_idem (s : pystr) : rstrip (rstrip s) = rstrip s.
Proof. unfold rstrip. now rewrite rev_involutive, lstrip_idem. Qed.

Lemma rstrip_cons (c : N) (r : pystr) :
  is_space c = false -> rstrip (c :: r) = c :: rstrip r.
Proof.
  intros Hc. unfold rstrip. simpl rev at 2.
  rewrite lstrip_snoc by exact Hc. rewrite rev_app_distr. reflexivity.
Qed.

Lemma lstrip_head (s : pystr) :
  lstrip s = [] \/ exists c r, lstrip s = c :: r /\ is_space c = false.
Proof.
  induction s as [|c r IH]; [now left|].
  simpl. destruct (is_space c) eqn:Hc; [exact IH|]. right. eauto.
Qed.

Lemma strip_idem (s : pystr) : strip (strip s) = strip s.
Proof.
  unfold strip. destruct (lstrip_head s) as [-> | (c & r & -> & Hc)]; [reflexivity|].
  rewrite rstrip_cons by exact Hc. simpl. rewrite Hc.
  rewrite rstrip_cons by exact Hc. now rewrite rstrip_idem.
Qed.

Lemma and_then_ok {A B} (r : result A) (k : A -> result B) (b : B) :
  and_then r k = Ok b -> exists a, r = Ok a /\ k a = Ok b.
Proof. destruct r as [a|e]; simpl; [eauto | discriminate]. Qed.

(** The text [send_summarization] returns is already trimmed. *)
Lemma send_summarization_stripped (r : result Response) (s : pystr) :
  send_summarization r = Some s -> strip s = s.
Proof.
  unfold send_summarization.
  destruct (and_then r _) as [s'|] eqn:Hchain; [|discriminate].
  intros [= <-].
  repeat (apply and_then_ok in Hchain; destruct Hchain as (? & _ & Hchain)).
  match type of Hchain with Py.str_strip ?v = _ =>
    destruct v; try discriminate Hchain; injection Hchain as <- end.
  apply strip_idem.
Qed.

Section Invariant.

Context {T : Type} `{TimeOps T}.

Implicit Types (m : Manager T) (c : Config T) (l : list (QAEntry T)).

(** *** Slices *)

Lemma slice_last_idem {A} (k : nat) (l : list A) :
  slice_last k (slice_last k l) = slice_last k l.
Proof.
  destruct k as [|k]; [reflexivity|]. unfold slice_last.
  rewrite length_drop.
  replace (length l - (length l - S k) - S k)%nat with O by lia.
  reflexivity.
Qed.

Lemma nonempty_length {A} (l : list A) : nonempty l = negb (Nat.eqb (length l) 0).
Proof. now destruct l. Qed.

Lemma nonempty_slice_last {A} (k : nat) (l : list A) :
  nonempty (slice_last (S k) l) = nonempty l.
Proof.
  rewrite !nonempty_length. unfold slice_last. rewrite length_drop.
  destruct (length l) as [|n]; [reflexivity|].
  replace (S n - (S n - S k))%nat with (S (Nat.min n k)) by lia. reflexivity.
Qed.

(** *** The states of the worker *)

Section Run.

Variables (m : Manager T) (new_summary : pystr) (now : T).

Let collapsed : Manager T :=
  snd ((kept <- alloc (slice_last 4 (recent m)) ;; modify (set_recent_qa kept))
         (set_last_summarization_time now (set_summary (strip new_summary) m))).

Lemma recent_collapsed : recent collapsed = slice_last 4 (recent m).
Proof.
  unfold collapsed, bind, alloc, modify. cbn. unfold recent at 1, contents. cbn.
  now rewrite lookup_insert_eq.
Qed.

Lemma recent_shared_at (pc : wpc) :
  nonempty (recent (shared_at m new_summary now pc)) = nonempty (recent m)
  /\ slice_last 4 (recent (shared_at m new_summary now pc)) = slice_last 4 (recent m).
Proof.
  assert (Hcollapsed : nonempty (recent collapsed) = nonempty (recent m)
                       /\ slice_last 4 (recent collapsed) = slice_last 4 (recent m)).
  { rewrite recent_collapsed. split; [apply nonempty_slice_last | apply slice_last_idem]. }
  destruct pc; cbn [shared_at]; try (split; reflexivity); try exact Hcollapsed.
  all: destruct (len (recent m) >? 4); [exact Hcollapsed | split; reflexivity].
Qed.

Lemma summary_shared_at (pc : wpc) :
  summary (shared_at m new_summary now pc) = summary m
  \/ summary (shared_at m new_summary now pc) = strip new_summary.
Proof.
  destruct pc; cbn [shared_at]; try (now left); try (now right).
  all: destruct (len (recent m) >? 4); now right.
Qed.

(** The worker alone runs the locked block of [_perform_summarization]. *)
Lemma shared_at_done :
  shared_at m new_summary now WDone = snd (apply_summary 4 new_summary now m).
Proof.
  cbn [shared_at]. unfold apply_summary, bind, modify, get. cbv beta iota.
  change (recent (set_last_summarization_time now (set_summary (strip new_summary) m)))
    with (recent m).
  change (Z.of_nat 4) with 4.
  destruct (len (recent m) >? 4); reflexivity.
Qed.

Lemma worker_step_inv c :
  worker_inv m new_summary now c ->
  worker_inv m new_summary now (worker_step new_summary now c).
Proof.
  destruct c as [sh lk wp rp pt rt]. unfold worker_inv, worker_step. cbn [shared w_pc locked].
  intros [-> Hcol].
  destruct wp; cbn [shared w_pc shared_at collapsing] in *;
    try (split; [reflexivity | (discriminate || assumption)]).
  - destruct lk; cbn [shared w_pc shared_at collapsing]; split;
      (reflexivity || discriminate).
  - change (recent (set_last_summarization_time now (set_summary (strip new_summary) m)))
      with (recent m).
    destruct (len (recent m) >? 4) eqn:Hlen; cbn [shared w_pc shared_at collapsing].
    + split; reflexivity.
    + rewrite Hlen. split; [reflexivity | discriminate].
  - rewrite (Hcol eq_refl). split; [reflexivity | discriminate].
Qed.

Lemma worker_step_summary c :
  summary (shared (worker_step new_summary now c)) = summary (shared c)
  \/ summary (shared (worker_step new_summary now c)) = strip new_summary.
Proof.
  destruct c as [sh lk wp rp pt rt]. unfold worker_step. cbn [shared w_pc locked].
  destruct wp; try (now left); try (now right).
  destruct lk; now left.
Qed.

Lemma worker_step_reader c :
  r_pc (worker_step new_summary now c) = r_pc c
  /\ parts (worker_step new_summary now c) = parts c
  /\ returned (worker_step new_summary now c) = returned c.
Proof.
  destruct c as [sh lk wp rp pt rt]. unfold worker_step. cbn [shared w_pc locked].
  destruct wp; try (repeat split; reflexivity).
  destruct lk; repeat split; reflexivity.
Qed.

Hypothesis new_summary_truthy : truthy (strip new_summary) = true.

Lemma worker_step_reader_inv c :
  reader_inv m new_summary c ->
  reader_inv m new_summary (worker_step new_summary now c).
Proof.
  unfold reader_inv.
  destruct (worker_step_reader c) as (-> & -> & ->).
  destruct (r_pc c); try exact (fun Hinv => Hinv).
  intros (Hparts & Hret & Htruthy). split; [exact Hparts|]. split; [exact Hret|].
  destruct (worker_step_summary c) as [-> | ->]; assumption.
Qed.

Lemma reader_step_inv c :
  worker_inv m new_summary now c ->
  reader_inv m new_summary c ->
  reader_inv m new_summary (reader_step c).
Proof.
  destruct c as [sh lk wp rp pt rt]. unfold worker_inv, reader_inv, reader_step.
  cbn [shared w_pc r_pc parts returned]. intros [-> _].
  destruct (recent_shared_at wp) as [Hnonempty Hslice].
  destruct rp; cbn [r_pc parts returned shared].
  - intros [-> ->].
    destruct (truthy (summary (shared_at m new_summary now wp))) eqn:Htruthy;
      cbn [r_pc parts returned shared].
    + repeat split; assumption.
    + split; [reflexivity|]. unfold seen_summary, summary_parts.
      destruct (summary_shared_at wp) as [Hs | Hs]; rewrite Hs in Htruthy; rewrite Htruthy;
        [now left | now right].
  - intros (-> & -> & Htruthy). split; [reflexivity|].
    unfold seen_summary, summary_parts. cbn [app].
    destruct (summary_shared_at wp) as [Hs | Hs]; rewrite Hs in *; rewrite Htruthy;
      [now left | now right].
  - intros [-> Hseen]. rewrite Hnonempty.
    destruct (nonempty (recent m)) eqn:Hne; cbn [r_pc parts returned shared].
    + repeat split; assumption.
    + split; [reflexivity|]. exists pt. split; [exact Hseen|].
      unfold turns_parts. rewrite Hne. now rewrite app_nil_r.
  - intros (-> & Hseen & Hne). split; [reflexivity|].
    exists pt. split; [exact Hseen|].
    unfold turns_parts. rewrite Hne, Hslice, <- app_assoc. reflexivity.
  - intros (-> & sp & Hseen & ->). exists sp. split; [exact Hseen | reflexivity].
  - exact (fun Hinv => Hinv).
Qed.

Lemma run_inv (schedule : list thread) c :
  worker_inv m new_summary now c -> reader_inv m new_summary c ->
  worker_inv m new_summary now (run new_summary now schedule c)
  /\ reader_inv m new_summary (run new_summary now schedule c).
Proof.
  revert c. induction schedule as [|t schedule IH]; intros c Hw Hr; [now split|].
  cbn [run foldl]. apply IH; destruct t; cbn [step].
  - now apply worker_step_inv.
  - destruct c as [sh lk wp rp pt rt]. destruct rp; exact Hw.
  - now apply worker_step_reader_inv.
  - now apply reader_step_inv.
Qed.

Lemma start_inv : worker_inv m new_summary now (start m) /\ reader_inv m new_summary (start m).
Proof. repeat split. discriminate. Qed.

End Run.

(** *** What the method returns, in terms of the parts *)

Lemma get_context_for_query_parts (q : pystr) m :
  get_context_for_query q m
  = join_parts (summary_parts (summary m) ++ turns_parts (recent m)).
Proof.
  unfold get_context_for_query, summary_parts, turns_parts.
  destruct (truthy (summary m)), (nonempty (recent m)); reflexivity.
Qed.

Lemma get_context_for_query_after (q : pystr) (new_summary : pystr) (now : T) m :
  get_context_for_query q (snd (apply_summary 4 new_summary now m))
  = join_parts (summary_parts (strip new_summary) ++ turns_parts (recent m)).
Proof.
  rewrite get_context_for_query_parts.
  destruct (ContextFacts.apply_summary_spec 4 new_summary now m) as (m' & Hrun & Hsum & _).
  rewrite <- shared_at_done.
  destruct (recent_shared_at m new_summary now WDone) as [Hne Hslice].
  unfold turns_parts. rewrite Hne, Hslice.
  rewrite shared_at_done, Hrun. cbn [snd]. now rewrite Hsum.
Qed.

(** The reader needs at most five steps of its own, whatever the worker
    does in between and whether or not the lock is held. *)
Lemma reader_progress (new_summary : pystr) (now : T) (schedule : list thread) c :
  (remaining (r_pc (run new_summary now schedule c))
   <= remaining (r_pc c) - reader_steps schedule)%nat.
Proof.
  revert c. induction schedule as [|t schedule IH]; intros c; cbn [run foldl reader_steps].
  - lia.
  - specialize (IH (step new_summary now c t)). unfold run in IH.
    destruct t; cbn [step] in *.
    + destruct (worker_step_reader new_summary now c) as (Hpc & _). rewrite Hpc in IH. exact IH.
    + assert (Hstep : (remaining (r_pc (reader_step c)) <= remaining (r_pc c) - 1)%nat).
      { destruct c as [sh lk wp rp pt rt]. unfold reader_step. cbn [r_pc shared].
        destruct rp; cbn [r_pc remaining]; try lia.
        - destruct (truthy (summary sh)); cbn [remaining]; lia.
        - destruct (nonempty (recent sh)); cbn [remaining]; lia. }
      lia.
Qed.

(** C9 (amended).  [get_context_for_query] takes no lock.  Run against the
    locked block of a summarization whose collaborator returned a non-empty
    text, under any schedule, it returns once it has been given five steps,
    whatever the worker does and while the worker holds the lock; and what
    it returns is the rendering of the manager as it was before the
    summarization or the rendering of the manager as the summarization
    leaves it: the four last turns it renders are the turns the
    summarization keeps, so the new summary never comes with an evicted
    turn. *)
Theorem C9_render_during_summarization
    (m : Manager T) (response : result Response) (new_summary : pystr) (now : T)
    (q : pystr) (schedule : list thread) :
  send_summarization response = Some new_summary ->
  truthy new_summary = true ->
  let c := run new_summary now schedule (start m) in
  ((5 <= reader_steps schedule)%nat -> r_pc c = RDone)
  /\ (forall rendered,
        returned c = Some rendered ->
        rendered = get_context_for_query q m
        \/ rendered = get_context_for_query q (snd (apply_summary 4 new_summary now m))).
Proof.
  intros Hsend Htruthy c. split.
  - intros Hsteps.
    pose proof (reader_progress new_summary now schedule (start m)) as Hprog.
    fold c in Hprog. cbn [start r_pc remaining] in Hprog.
    destruct (r_pc c); cbn [remaining] in Hprog; (reflexivity || lia).
  - intros rendered Hret.
    assert (Hstripped : truthy (strip new_summary) = true).
    { now rewrite (send_summarization_stripped response new_summary Hsend). }
    destruct (start_inv m new_summary now) as [Hw Hr].
    destruct (run_inv m new_summary now Hstripped schedule (start m) Hw Hr) as [_ Hinv].
    fold c in Hinv. unfold reader_inv in Hinv.
    destruct (r_pc c).
    1-5: (destruct Hinv as (? & ? & ?) || destruct Hinv as (? & ?)); congruence.
    destruct Hinv as (sp & [-> | ->] & Hreturned);
      rewrite Hreturned in Hret; injection Hret as <-.
    + left. symmetry. apply get_context_for_query_parts.
    + right. symmetry. apply get_context_for_query_after.
Qed.

(** *** The steps against the methods *)

Lemma run_cons (new_summary : pystr) (now : T) (t : thread) (schedule : list thread) c :
  run new_summary now (t :: schedule) c
  = run new_summary now schedule (step new_summary now c t).
Proof. reflexivity. Qed.

Ltac one_step :=
  rewrite run_cons;
  cbn [step worker_step reader_step shared locked w_pc r_pc parts returned].

(** The reader run alone is [get_context_for_query]. *)
Lemma reader_alone (new_summary : pystr) (now : T) (q : pystr) m :
  returned (run new_summary now [Reader; Reader; Reader; Reader; Reader] (start m))
  = Some (get_context_for_query q m).
Proof.
  unfold start, get_context_for_query. one_step.
  destruct (truthy (summary m)); one_step; [one_step|];
    destruct (nonempty (recent m)); repeat one_step; reflexivity.
Qed.

(** The worker run alone is the locked block, and it releases the lock. *)
Lemma worker_alone (new_summary : pystr) (now : T) m :
  let c := run new_summary now (repeat Worker 8) (start m) in
  shared c = snd (apply_summary 4 new_summary now m)
  /\ locked c = false /\ w_pc c = WDone.
Proof.
  rewrite <- shared_at_done. cbn [shared_at repeat]. unfold start.
  do 4 one_step.
  change (recent (set_last_summarization_time now (set_summary (strip new_summary) m)))
    with (recent m).
  destruct (len (recent m) >? 4); repeat one_step; repeat split.
Qed.

End Invariant.

(** *** Concrete runs *)

(** C9, counterexample.  Five turns are present and a summarization is
    being applied.  The worker takes the lock and stores the new summary;
    the reader then runs from its first statement to its return.  The lock
    is held at every one of these steps, and the manager the reader read
    from has the new summary with the five turns and the old count: the
    reads were not made under the lock. *)
Lemma C9_counterexample :
  let m := demo_manager 5 in
  let schedule := [Worker; Worker; Reader; Reader; Reader; Reader; Reader] in
  let c := run (lit "ok") 200 schedule (start m) in
  Forall (fun k => locked (run (lit "ok") 200 (take k schedule) (start m)) = true)
    [1; 2; 3; 4; 5; 6; 7]%nat
  /\ w_pc c = WSetTime /\ r_pc c = RDone
  /\ summary (shared c) = lit "ok"
  /\ length (recent (shared c)) = 5%nat
  /\ _token_count (shared c) = 5
  /\ returned c <> None.
Proof.
  cbv zeta. split.
  - repeat (constructor; [vm_compute; reflexivity|]). constructor.
  - vm_compute. repeat split; discriminate.
Qed.

Lemma C9_render_during_summarization_witness :
  let m := demo_manager 5 in
  let schedule := [Worker; Worker; Reader; Reader; Worker; Reader; Reader; Reader] in
  let c := run (lit "ok") 200 schedule (start m) in
  (send_summarization (reply (lit " ok ")) = Some (lit "ok") /\ truthy (lit "ok") = true)
  /\ ((5 <= reader_steps schedule)%nat -> r_pc c = RDone)
  /\ (forall rendered,
        returned c = Some rendered ->
        rendered = get_context_for_query (lit "next") m
        \/ rendered = get_context_for_query (lit "next")
                        (snd (apply_summary 4 (lit "ok") 200 m))).
Proof.
  cbv zeta. split; [split; vm_compute; reflexivity|].
  apply (C9_render_during_summarization (T:=Z) (demo_manager 5) (reply (lit " ok "))
           (lit "ok") 200 (lit "next")
           [Worker; Worker; Reader; Reader; Worker; Reader; Reader; Reader]).
  - vm_compute. reflexivity.
  - reflexivity.
Defined.

End InterleavingFacts.

(** ** More on the recording session *)

Module TranscriberExtras.
Import Transcriber TranscriberFacts.

Lemma bind_lift {S A B} (r : result A) (k : A -> M S B) (s : S) :
  bind (lift r) k s = match r with Ok a => k a s | Raise e => (Raise e, s) end.
Proof. now destruct r. Qed.

(** The session a recognition event leaves. *)
Lemma event_update (is_final : bool) (transcript : pystr) (t : Transcriber) :
  (if is_final
   then bind (if truthy (strip transcript)
              then modify (fun t => set_final_chunks (_final_chunks t ++ [strip transcript]) t)
              else ret tt)
          (fun _ => modify (set_partial []))
   else modify (set_partial (strip transcript))) t
  = (Ok tt,
     let acc := spec_accumulate_step (_final_chunks t, _partial t) (is_final, transcript) in
     set_partial (snd acc) (set_final_chunks (fst acc) t)).
Proof.
  unfold spec_accumulate_step. destruct is_final; cbn iota.
  - unfold bind. destruct (truthy (strip transcript)); unfold modify, ret;
      destruct t; reflexivity.
  - unfold modify. destruct t; reflexivity.
Qed.

Lemma str_strip_ok (v : json) (text : pystr) :
  Py.str_strip v = Ok text -> exists x, v = JStr x /\ text = strip x.
Proof. destruct v; try discriminate. intros [= <-]. eauto. Qed.

(** Whatever the message, [_on_message] either leaves the session exactly
    as it was, returning or raising, or returns having done to the two
    accumulator fields what a recognition event does. *)
Lemma on_message_cases (parsed : result json) (t : Transcriber) :
  (exists r, _on_message parsed t = (r, t))
  \/ (exists is_final transcript,
        _on_message parsed t
        = (Ok tt,
           let acc := spec_accumulate_step (_final_chunks t, _partial t)
                        (is_final, transcript) in
           set_partial (snd acc) (set_final_chunks (fst acc) t))).
Proof.
  unfold _on_message.
  destruct parsed as [data|e]; [|left; eexists; reflexivity].
  destruct (Py.is_dict data); cbn [negb]; [|left; eexists; reflexivity].
  rewrite bind_lift.
  destruct (Py.dict_get data (lit "type") JNull) as [ty|e]; [|left; eexists; reflexivity].
  destruct (Py.eq_str ty (lit "Results")); cbn [negb]; [|left; eexists; reflexivity].
  rewrite bind_lift.
  destruct (Py.dict_get data (lit "channel") (JObj [])) as [channel|e];
    [|left; eexists; reflexivity].
  rewrite bind_lift.
  destruct (Py.dict_get channel (lit "alternatives") (JArr [])) as [alts|e];
    [|left; eexists; reflexivity].
  destruct (Py.truth alts); cbn [negb]; [|left; eexists; reflexivity].
  rewrite bind_lift.
  destruct (Py.getitem_int alts 0) as [alt|e]; [|left; eexists; reflexivity].
  rewrite bind_lift.
  destruct (Py.dict_get alt (lit "transcript") (JStr [])) as [transcript|e];
    [|left; eexists; reflexivity].
  rewrite bind_lift.
  destruct (Py.str_strip transcript) as [text|e] eqn:Hstrip; [|left; eexists; reflexivity].
  rewrite bind_lift.
  destruct (Py.dict_get data (lit "is_final") (JBool false)) as [is_final|e];
    [|left; eexists; reflexivity].
  destruct (str_strip_ok _ _ Hstrip) as (x & _ & ->).
  right. exists (Py.truth is_final), x. apply event_update.
Qed.

(** X2. [_on_message] of [wp_11_analist_gemini.py] never raises, and leaves
    the session [_on_message] of [xh_2.py] leaves. *)
Theorem X2_gemini_on_message (parsed : result json) (t : Transcriber) :
  GeminiTranscriber._on_message parsed t = (Ok tt, snd (_on_message parsed t)).
Proof.
  unfold GeminiTranscriber._on_message, _on_message, catch.
  destruct parsed as [data|e]; rewrite bind_lift; [|reflexivity].
  rewrite bind_lift.
  destruct (Py.is_dict data) eqn:Hdict; cbn [negb].
  2:{ destruct data; try discriminate Hdict; reflexivity. }
  rewrite bind_lift.
  destruct (Py.dict_get data (lit "type") JNull) as [ty|e]; [|reflexivity].
  destruct (Py.eq_str ty (lit "Results")); cbn [negb]; [|reflexivity].
  rewrite !bind_lift.
  destruct (Py.dict_get data (lit "channel") (JObj [])) as [channel|e]; [|reflexivity].
  rewrite !bind_lift.
  destruct (Py.dict_get channel (lit "alternatives") (JArr [])) as [alts|e]; [|reflexivity].
  destruct (Py.truth alts); cbn [negb]; [|reflexivity].
  rewrite !bind_lift.
  destruct (Py.getitem_int alts 0) as [alt|e]; [|reflexivity].
  rewrite !bind_lift.
  destruct (Py.dict_get alt (lit "transcript") (JStr [])) as [transcript|e]; [|reflexivity].
  rewrite !bind_lift.
  destruct (Py.str_strip transcript) as [text|e] eqn:Hstrip; [|reflexivity].
  rewrite !bind_lift.
  destruct (Py.dict_get data (lit "is_final") (JBool false)) as [is_final|e]; [|reflexivity].
  destruct (str_strip_ok _ _ Hstrip) as (x & _ & ->).
  rewrite event_update. reflexivity.
Qed.


(** *** Trimmed segments *)

Lemma head_solid_app (a b : pystr) : head_solid a = true -> head_solid (a ++ b) = true.
Proof. destruct a; [discriminate | trivial]. Qed.

Lemma head_solid_lstrip (s : pystr) : head_solid s = true -> lstrip s = s.
Proof.
  destruct s as [|c r]; [discriminate|]. cbn [head_solid lstrip].
  destruct (is_space c); [discriminate | reflexivity].
Qed.

Lemma lstrip_head_solid (s : pystr) : lstrip s <> [] -> head_solid (lstrip s) = true.
Proof.
  destruct (InterleavingFacts.lstrip_head s) as [-> | (c & r & -> & Hc)];
    [congruence|]. intros _. cbn [head_solid]. now rewrite Hc.
Qed.

Lemma solid_strip (s : pystr) : strip s <> [] -> solid (strip s).
Proof.
  intros Hne. unfold solid, strip in *. split.
  - destruct (InterleavingFacts.lstrip_head s) as [Hnil | (c & r & Heq & Hc)].
    + rewrite Hnil in Hne. now contradict Hne.
    + rewrite Heq, InterleavingFacts.rstrip_cons by exact Hc.
      cbn [head_solid]. now rewrite Hc.
  - unfold rstrip in *. rewrite rev_involutive. apply lstrip_head_solid.
    intros Hnil. rewrite Hnil in Hne. now contradict Hne.
Qed.

Lemma strip_solid (s : pystr) : solid s -> strip s = s.
Proof.
  intros [Hhead Hlast]. unfold strip, rstrip.
  rewrite (head_solid_lstrip s Hhead), (head_solid_lstrip (rev s) Hlast).
  apply rev_involutive.
Qed.

Lemma solid_join (sep : pystr) (parts : list pystr) :
  Forall solid parts -> parts <> [] -> solid (join sep parts).
Proof.
  induction 1 as [|p rest [Hhead Hlast] Hrest IH]; [congruence|]. intros _.
  destruct rest as [|q rest]; [now split|].
  change (join sep (p :: q :: rest)) with (p ++ sep ++ join sep (q :: rest)).
  split.
  - now apply head_solid_app.
  - rewrite !rev_app_distr, <- app_assoc. apply head_solid_app.
    apply IH. discriminate.
Qed.

Lemma solid_truthy (s : pystr) : solid s -> truthy s = true.
Proof. intros [Hhead _]. destruct s; [discriminate | reflexivity]. Qed.

Lemma tidy_parts (t : Transcriber) : tidy t -> Forall solid (parts_of t).
Proof.
  intros [Hchunks Hpartial]. unfold parts_of. apply Forall_app. split; [exact Hchunks|].
  destruct Hpartial as [-> | Hsolid]; [constructor|].
  rewrite (solid_truthy _ Hsolid). now constructor.
Qed.

Lemma tidy_on_message (parsed : result json) (t : Transcriber) :
  tidy t -> tidy (snd (_on_message parsed t)).
Proof.
  intros [Hchunks Hpartial].
  destruct (on_message_cases parsed t)
    as [(r & ->) | (is_final & transcript & ->)]; [now split|].
  unfold spec_accumulate_step, tidy. cbn [snd].
  destruct is_final; [destruct (truthy (strip transcript)) eqn:Htext|]; fields; cbn [fst snd].
  - split; [|now left]. apply Forall_app. split; [exact Hchunks|].
    constructor; [|constructor]. apply solid_strip. intros Hnil.
    rewrite Hnil in Htext. discriminate.
  - split; [exact Hchunks | now left].
  - split; [exact Hchunks|].
    destruct (strip transcript) eqn:Hs; [now left|]. right.
    rewrite <- Hs. apply solid_strip. rewrite Hs. discriminate.
Qed.


(** X1. Whatever the message, [_on_message] writes no field of the session
    but the two of the accumulator; it appends at most one finalized segment,
    which is then not empty and has no whitespace at either end, and removes
    none; the pending segment it leaves is empty, trimmed, or the one it
    found; and when it raises, the session is as it was. *)
Theorem X1_on_message_frame (parsed : result json) (t : Transcriber) :
  let t' := snd (_on_message parsed t) in
  t' = set_partial (_partial t') (set_final_chunks (_final_chunks t') t)
  /\ (exists more, _final_chunks t' = _final_chunks t ++ more
                   /\ (length more <= 1)%nat /\ Forall solid more)
  /\ (_partial t' = [] \/ solid (_partial t') \/ _partial t' = _partial t)
  /\ (forall e, fst (_on_message parsed t) = Raise e -> t' = t).
Proof.
  destruct (on_message_cases parsed t)
    as [(r & ->) | (is_final & transcript & ->)]; cbn [fst snd].
  - split; [now destruct t|]. split; [|split; [tauto | reflexivity]].
    exists []. rewrite app_nil_r. repeat split; [auto | constructor].
  - unfold spec_accumulate_step.
    destruct is_final; [destruct (truthy (strip transcript)) eqn:Htext|];
      fields; cbn [fst snd]; fields.
    + split; [reflexivity|]. split; [|split; [tauto | discriminate]].
      exists [strip transcript]. repeat split; [auto|].
      constructor; [|constructor]. apply solid_strip. intros Hnil.
      rewrite Hnil in Htext. discriminate.
    + split; [now destruct t|]. split; [|split; [tauto | discriminate]].
      exists []. rewrite app_nil_r. repeat split; [auto | constructor].
    + split; [now destruct t|]. split; [|split; [| discriminate]].
      * exists []. rewrite app_nil_r. repeat split; [auto | constructor].
      * destruct (strip transcript) eqn:Hs; [now left|]. right. left.
        rewrite <- Hs. apply solid_strip. rewrite Hs. discriminate.
Qed.

Lemma tidy_receive (messages : list (result json)) (t : Transcriber) :
  tidy t -> tidy (snd (receive messages t)).
Proof.
  revert t. induction messages as [|m rest IH]; intros t Ht; [exact Ht|].
  cbn [receive]. unfold bind.
  pose proof (tidy_on_message m t Ht) as Hm.
  destruct (_on_message m t) as [[[]|e] u]; cbn [snd] in *; [now apply IH | exact Hm].
Qed.

Lemma receive_keeps_recording (messages : list (result json)) (t : Transcriber) :
  is_recording (snd (receive messages t)) = is_recording t.
Proof.
  revert t. induction messages as [|m rest IH]; intros t; [reflexivity|].
  cbn [receive]. unfold bind.
  assert (is_recording (snd (_on_message m t)) = is_recording t) as Hm.
  { destruct (on_message_cases m t) as [(r & ->) | (f & x & ->)]; reflexivity. }
  destruct (_on_message m t) as [[[]|e] u]; cbn [snd] in *; [now rewrite IH | exact Hm].
Qed.

(** The transcript of a session whose segments are trimmed. *)
Lemma spec_transcript_tidy (t : Transcriber) :
  tidy t ->
  spec_transcript (_final_chunks t, _partial t)
  = match parts_of t with
    | [] => None
    | _ => Some (join (lit " ") (parts_of t))
    end.
Proof.
  intros Ht. pose proof (tidy_parts t Ht) as Hparts.
  unfold spec_transcript. fold (parts_of t).
  destruct (parts_of t) as [|p rest] eqn:Hp; [reflexivity|].
  assert (solid (join (lit " ") (p :: rest))) as Hsolid
    by (apply solid_join; [exact Hparts | discriminate]).
  rewrite (strip_solid _ Hsolid), (solid_truthy _ Hsolid). reflexivity.
Qed.

(** [start_recording] on an idle session: it returns, with the accumulator
    empty; the session is recording when the child process was spawned and
    the open flag was set already or got set in time, and then the sender
    thread is the last thing started. *)
Lemma start_recording_idle (env : StartEnv) (t : Transcriber) :
  is_recording t = false ->
  exists t',
    start_recording env t = (Ok tt, t')
    /\ _final_chunks t' = [] /\ _partial t' = []
    /\ is_recording t'
       = popen_ok env && (_ws_connected t || opens_within env open_timeout)
    /\ (is_recording t' = true ->
        _stop_sending t' = false /\ _ws_connected t' = true
        /\ _send_thread t' = Some SendThread
        /\ last (trace t') = Some (ThreadStart SendThread)
        /\ exists monitor, ffmpeg_process t' = Some (ffmpeg_cmd monitor)).
Proof.
  intros Hidle.
  unfold start_recording. unfold bind at 1. unfold get at 1. rewrite Hidle.
  do 4 (unfold bind at 1; unfold modify at 1). unfold bind at 1.
  match goal with
  | |- context [detect_pulse_monitor ?p ?u] =>
    destruct (detect_pulse_monitor_returns p u) as (monitor & ->)
  end.
  unfold event_wait, popen_ok. run_monad.
  destruct (popen_outcome env) as [[]|]; fields.
  2:{ eexists. split; [reflexivity|]. fields. repeat split; discriminate. }
  destruct (_ws_connected t) eqn:Hflag; fields;
    [|destruct (opens_within env open_timeout); fields;
      [|destruct (kill_outcome env) as [[]|]; fields]];
    (eexists; split; [reflexivity|]); fields; cbn [orb andb];
    (split; [reflexivity|]); (split; [reflexivity|]); (split; [reflexivity|]);
    try (intros Habs; discriminate Habs); intros _;
    (split; [reflexivity|]); (split; [first [reflexivity | exact Hflag]|]);
    (split; [reflexivity|]);
    (split; [rewrite last_snoc; reflexivity | eauto]).
Qed.

(** X3. On a session started from idle, whatever messages arrived since,
    every segment [stop_recording] joins is non-empty and without whitespace
    at either end, so the method returns exactly the segments joined by
    single spaces ([None] when there is none): its final [strip] removes
    nothing. *)
Theorem X3_transcript_is_joined (senv : StartEnv) (messages : list (result json))
    (env : StopEnv) (t : Transcriber) :
  let t1 := snd (start_recording senv t) in
  let t2 := snd (receive messages t1) in
  is_recording t = false ->
  is_recording t1 = true ->
  Forall solid (parts_of t2)
  /\ fst (stop_recording env t2)
     = Ok (match parts_of t2 with
           | [] => None
           | _ => Some (join (lit " ") (parts_of t2))
           end).
Proof.
  intros t1 t2 Hidle Hrec.
  assert (tidy t2) as Ht2.
  { apply tidy_receive.
    destruct (start_recording_idle senv t Hidle) as (t' & Hrun & Hc & Hp & _).
    unfold t1. rewrite Hrun. cbn [snd]. split; [rewrite Hc; constructor | now left]. }
  split; [now apply tidy_parts|].
  rewrite stop_recording_active
    by (unfold t2; now rewrite receive_keeps_recording).
  now rewrite spec_transcript_tidy.
Qed.

Lemma X3_transcript_is_joined_witness :
  let t2 := snd (receive [final "  one "; Raise ValueError; partial " two"] started) in
  Forall solid (parts_of t2)
  /\ fst (stop_recording quiet_stop t2)
     = Ok (match parts_of t2 with
           | [] => None
           | _ => Some (join (lit " ") (parts_of t2))
           end).
Proof.
  apply (X3_transcript_is_joined opens
           [final "  one "; Raise ValueError; partial " two"] quiet_stop (init None));
    reflexivity.
Defined.


(** X4. [start_recording] on an idle session whose child process is spawned
    returns without raising, and leaves the session recording exactly when
    the open flag was set already (nothing in [stop_recording] clears it) or
    got set within the timeout; the session then has an empty accumulator,
    the stop flag cleared, the child process and the sender thread in place,
    and the start of the sender thread is the last call made. *)
Theorem X4_start_recording_outcome (env : StartEnv) (t : Transcriber) :
  is_recording t = false ->
  popen_outcome env = Ok tt ->
  exists t',
    start_recording env t = (Ok tt, t')
    /\ is_recording t' = _ws_connected t || opens_within env open_timeout
    /\ _final_chunks t' = [] /\ _partial t' = []
    /\ (is_recording t' = true ->
        _stop_sending t' = false /\ _ws_connected t' = true
        /\ _send_thread t' = Some SendThread
        /\ last (trace t') = Some (ThreadStart SendThread)
        /\ exists monitor, ffmpeg_process t' = Some (ffmpeg_cmd monitor)).
Proof.
  intros Hidle Hpopen.
  destruct (start_recording_idle env t Hidle) as (t' & Hrun & Hc & Hp & Hrec & Hon).
  exists t'. unfold popen_ok in Hrec. rewrite Hpopen in Hrec. cbn [andb] in Hrec.
  repeat split; try assumption; now apply Hon.
Qed.

Lemma X4_start_recording_outcome_witness :
  exists t',
    start_recording never_opens (set_ws_connected true (init None)) = (Ok tt, t')
    /\ is_recording t' = true || opens_within never_opens open_timeout
    /\ _final_chunks t' = [] /\ _partial t' = []
    /\ (is_recording t' = true ->
        _stop_sending t' = false /\ _ws_connected t' = true
        /\ _send_thread t' = Some SendThread
        /\ last (trace t') = Some (ThreadStart SendThread)
        /\ exists monitor, ffmpeg_process t' = Some (ffmpeg_cmd monitor)).
Proof.
  apply (X4_start_recording_outcome never_opens (set_ws_connected true (init None)));
    reflexivity.
Defined.

(** X5. Sessions do not leak into each other: after any [stop_recording],
    whatever messages still arrive while the session is idle, a
    [start_recording] that succeeds begins with an empty accumulator, so
    the next [stop_recording] returns the transcript of the recognition
    events received after that start, and of nothing else. *)
Theorem X5_sessions_do_not_leak (env0 : StopEnv) (t0 : Transcriber)
    (late : list (result json)) (senv : StartEnv)
    (events : list (bool * pystr)) (env : StopEnv) :
  let idle := snd (receive late (snd (stop_recording env0 t0))) in
  let t1 := snd (start_recording senv idle) in
  let t2 := snd (receive (List.map event_message events) t1) in
  is_recording t1 = true ->
  fst (stop_recording env t2) = Ok (spec_transcript (spec_accumulate events)).
Proof.
  intros idle t1 t2 Hrec.
  assert (is_recording idle = false) as Hidle.
  { unfold idle. rewrite receive_keeps_recording.
    destruct (stop_recording_returns env0 t0) as (r & t' & -> & Hoff). exact Hoff. }
  destruct (start_recording_idle senv idle Hidle) as (t' & Hrun & Hc & Hp & _).
  assert (t1 = t') as Ht1 by (unfold t1; now rewrite Hrun).
  destruct (receive_results events t1) as (u & Hu & Hacc & Hon).
  assert (t2 = u) as Ht2 by (unfold t2; now rewrite Hu).
  rewrite Ht2, stop_recording_active by (now rewrite Hon).
  rewrite Hacc, Ht1, Hc, Hp. reflexivity.
Qed.

Lemma X5_sessions_do_not_leak_witness :
  let idle :=
    snd (receive [final "left over"; partial "late"]
           (snd (stop_recording quiet_stop (snd (receive [final "first"] started))))) in
  let t1 := snd (start_recording opens idle) in
  let t2 := snd (receive (List.map event_message [(true, lit " second "); (false, lit "more")]) t1) in
  fst (stop_recording quiet_stop t2)
  = Ok (spec_transcript (spec_accumulate [(true, lit " second "); (false, lit "more")])).
Proof.
  apply (X5_sessions_do_not_leak quiet_stop (snd (receive [final "first"] started))
           [final "left over"; partial "late"] opens
           [(true, lit " second "); (false, lit "more")] quiet_stop).
  reflexivity.
Defined.

(** *** The monitor source *)

Lemma startswith_app (line prefix : pystr) :
  startswith line prefix = true -> exists rest, line = prefix ++ rest.
Proof.
  revert line. induction prefix as [|p prefix IH]; intros line H.
  - exists line. reflexivity.
  - destruct line as [|c line]; [discriminate H|]. cbn [startswith] in H.
    apply andb_prop in H as [Hpc Hrest]. apply N.eqb_eq in Hpc as ->.
    destruct (IH line Hrest) as (rest & ->). exists rest. reflexivity.
Qed.

Lemma startswith_prefix (prefix rest : pystr) : startswith (prefix ++ rest) prefix = true.
Proof.
  induction prefix as [|p prefix IH]; [now destruct rest|].
  cbn [app startswith]. now rewrite N.eqb_refl, IH.
Qed.

(** Splitting a [Default Sink:] line at its colon gives what follows. *)
Lemma split_colon_default_sink (rest : pystr) :
  snd (split_colon (lit "Default Sink:" ++ rest)) = Some rest.
Proof.
  let prefix := eval vm_compute in (lit "Default Sink:") in
  change (lit "Default Sink:") with prefix.
  reflexivity.
Qed.

Lemma find_default_sink_skip (before rest : list pystr) :
  Forall (fun line => startswith line (lit "Default Sink:") = false) before ->
  find_default_sink (before ++ rest) = find_default_sink rest.
Proof.
  induction 1 as [|line before Hline _ IH]; [reflexivity|].
  cbn [app]. unfold find_default_sink; fold find_default_sink.
  now rewrite Hline.
Qed.

Lemma find_default_sink_here (sink : pystr) (after : list pystr) :
  find_default_sink ((lit "Default Sink:" ++ sink) :: after)
  = Ok (strip sink ++ lit ".monitor").
Proof.
  unfold find_default_sink; fold find_default_sink.
  now rewrite startswith_prefix, split_colon_default_sink.
Qed.

Lemma find_default_sink_monitor (lines : list pystr) :
  exists name, find_default_sink lines = Ok (name ++ lit ".monitor").
Proof.
  induction lines as [|line rest IH].
  - exists (lit "alsa_output.pci-0000_00_1f.3.analog-stereo"). reflexivity.
  - destruct (startswith line (lit "Default Sink:")) eqn:Hline.
    + destruct (startswith_app _ _ Hline) as (sink & ->).
      rewrite find_default_sink_here. eauto.
    + unfold find_default_sink; fold find_default_sink. now rewrite Hline.
Qed.

Lemma detect_pulse_monitor_lines (lines : list pystr) (t : Transcriber) :
  fst (detect_pulse_monitor (Ok lines) t) = find_default_sink lines.
Proof.
  unfold detect_pulse_monitor. run_monad.
  destruct (find_default_sink_monitor lines) as (name & ->). reflexivity.
Qed.

(** X6. [detect_pulse_monitor] never raises and always names a monitor
    source, a name that ends in [.monitor]: the [split(":", 1)[1]] cannot
    fail, as the line begins with [Default Sink:].  The name is the trimmed
    text after the colon of the first line of [pactl info] that begins so,
    and the built-in default when there is no such line or [pactl] fails. *)
Theorem X6_detect_pulse_monitor :
  (forall pactl t,
     exists name, fst (detect_pulse_monitor pactl t) = Ok (name ++ lit ".monitor"))
  /\ (forall before sink after t,
        Forall (fun line => startswith line (lit "Default Sink:") = false) before ->
        fst (detect_pulse_monitor
               (Ok (before ++ (lit "Default Sink:" ++ sink) :: after)) t)
        = Ok (strip sink ++ lit ".monitor"))
  /\ (forall lines t,
        Forall (fun line => startswith line (lit "Default Sink:") = false) lines ->
        fst (detect_pulse_monitor (Ok lines) t) = Ok default_monitor)
  /\ (forall e t, fst (detect_pulse_monitor (Raise e) t) = Ok default_monitor).
Proof.
  split; [|split; [|split]].
  - intros [lines|e] t.
    + rewrite detect_pulse_monitor_lines. apply find_default_sink_monitor.
    + exists (lit "alsa_output.pci-0000_00_1f.3.analog-stereo"). reflexivity.
  - intros before sink after t Hbefore.
    now rewrite detect_pulse_monitor_lines, find_default_sink_skip,
      find_default_sink_here.
  - intros lines t Hlines.
    rewrite detect_pulse_monitor_lines.
    rewrite <- (app_nil_r lines), find_default_sink_skip by exact Hlines.
    reflexivity.
  - reflexivity.
Qed.

Lemma X6_detect_pulse_monitor_witness :
  fst (detect_pulse_monitor
         (Ok ([lit "Server Name: pulseaudio"; lit "Default Source: mic"]
              ++ (lit "Default Sink:" ++ lit " speakers ") :: [lit "Cookie: 1"]))
         (init None))
  = Ok (strip (lit " speakers ") ++ lit ".monitor")
  /\ fst (detect_pulse_monitor (Ok [lit "Server Name: pulseaudio"]) (init None))
     = Ok default_monitor.
Proof.
  split.
  - apply (proj1 (proj2 X6_detect_pulse_monitor)).
    repeat constructor.
  - apply (proj1 (proj2 (proj2 X6_detect_pulse_monitor))).
    repeat constructor.
Defined.

End TranscriberExtras.

(** ** The sender thread *)

Module SenderFacts.
Import Sender.

Ltac run_sender :=
  unfold ws_send; unfold bind, ret, catch, lift.

(** One pass of the loop. *)
Lemma send_loop_cons (k : Tick) (rest : list Tick) (frames : list frame) :
  send_loop (k :: rest) frames
  = if negb (process k) then (Ok tt, frames) else
    match read_outcome k with
    | Raise e => (Raise e, frames)
    | Ok chunk =>
      if negb (nonempty chunk) then (Ok tt, frames) else
      if app k && connected k then
        match send_outcome k with
        | Ok _ => send_loop rest (frames ++ [Binary chunk])
        | Raise _ => (Ok tt, frames)
        end
      else send_loop rest frames
    end.
Proof.
  cbn [send_loop]. run_sender.
  destruct (process k); cbn [negb]; [|reflexivity].
  destruct (read_outcome k) as [chunk|e]; [|reflexivity].
  destruct (nonempty chunk); cbn [negb]; [|reflexivity].
  destruct (app k && connected k); [|reflexivity].
  destruct (send_outcome k) as [[]|e]; reflexivity.
Qed.

Lemma forwarded_cons (k : Tick) (rest : list Tick) :
  forwarded (k :: rest)
  = match (if app k && connected k
           then match read_outcome k with Ok c => Some c | Raise _ => None end
           else None) with
    | Some c => c :: forwarded rest
    | None => forwarded rest
    end.
Proof. reflexivity. Qed.

Lemma chunks_read_cons (k : Tick) (rest : list Tick) :
  chunks_read (k :: rest)
  = match read_outcome k with
    | Ok c => c :: chunks_read rest
    | Raise _ => chunks_read rest
    end.
Proof. unfold chunks_read. cbn. now destruct (read_outcome k). Qed.

Ltac stop_here :=
  eexists; exists []; rewrite app_nil_r;
  split; [reflexivity|]; split; [apply sublist_nil_l | constructor].

Lemma send_loop_frames (ticks : list Tick) (frames : list frame) :
  exists r sent,
    send_loop ticks frames = (r, frames ++ List.map Binary sent)
    /\ sublist sent (forwarded ticks)
    /\ Forall (fun chunk => chunk <> []) sent.
Proof.
  revert frames. induction ticks as [|k rest IH]; intros frames.
  - exists (Ok tt), []. rewrite app_nil_r. repeat split; constructor.
  - rewrite send_loop_cons, forwarded_cons.
    destruct (process k); cbn [negb]; [|stop_here].
    destruct (read_outcome k) as [chunk|e]; [|stop_here].
    destruct (nonempty chunk) eqn:Hchunk; cbn [negb]; [|stop_here].
    destruct (app k && connected k).
    + destruct (send_outcome k) as [[]|e]; [|stop_here].
      destruct (IH (frames ++ [Binary chunk])) as (r & sent & -> & Hsub & Hne).
      exists r, (chunk :: sent). rewrite <- app_assoc. repeat split.
      * now apply sublist_skip.
      * constructor; [|exact Hne]. intros ->. discriminate.
    + exact (IH frames).
Qed.

Lemma forwarded_read (ticks : list Tick) : sublist (forwarded ticks) (chunks_read ticks).
Proof.
  induction ticks as [|k rest IH]; [constructor|].
  rewrite forwarded_cons, chunks_read_cons.
  destruct (app k && connected k), (read_outcome k);
    try (now apply sublist_skip); try (now apply sublist_cons); exact IH.
Qed.

(** X7. [send_audio] never raises.  The frames it hands to the websocket
    are binary frames carrying, in the order read, some of the chunks read
    in passes in which the websocket was there and connected, none of them
    empty and none twice, followed by at most one text frame, the
    [CloseStream] message, which it only sends when the websocket is there
    and connected after the loop and [send] returns. *)
Theorem X7_send_audio_frames (ticks : list Tick) (closing : Closing) :
  exists sent tail,
    send_audio ticks closing [] = (Ok tt, List.map Binary sent ++ tail)
    /\ sublist sent (forwarded ticks)
    /\ sublist (forwarded ticks) (chunks_read ticks)
    /\ Forall (fun chunk => chunk <> []) sent
    /\ (tail = []
        \/ tail = [Text close_stream]
           /\ app_at_end closing = true /\ connected_at_end closing = true
           /\ close_send_outcome closing = Ok tt).
Proof.
  destruct (send_loop_frames ticks []) as (r & sent & Hloop & Hsub & Hne).
  exists sent.
  unfold send_audio. unfold catch at 1. unfold bind. rewrite Hloop. cbn [List.app].
  destruct r as [[]|e].
  - unfold catch, ws_send, ret.
    destruct (app_at_end closing), (connected_at_end closing); cbn [andb];
      try (exists []; rewrite app_nil_r;
           repeat split; auto using forwarded_read; fail).
    destruct (close_send_outcome closing) as [[]|e].
    + exists [Text close_stream]. repeat split; auto using forwarded_read.
    + exists []. rewrite app_nil_r. repeat split; auto using forwarded_read.
  - exists []. rewrite app_nil_r. repeat split; auto using forwarded_read.
Qed.

Lemma send_loop_goes_on (ticks : list Tick) (frames : list frame) :
  Forall goes_on ticks ->
  send_loop ticks frames = (Ok tt, frames ++ List.map Binary (forwarded ticks)).
Proof.
  intros Hticks. revert frames.
  induction Hticks as [|k rest (Hproc & (chunk & Hread & Hne) & Hsend) _ IH]; intros frames.
  - cbn. now rewrite app_nil_r.
  - rewrite send_loop_cons, Hproc, Hread. cbn [negb].
    rewrite forwarded_cons, Hread.
    destruct chunk as [|b chunk]; [congruence|]. cbn [nonempty negb].
    destruct (app k && connected k).
    + rewrite Hsend by reflexivity. rewrite IH, <- app_assoc. reflexivity.
    + apply IH.
Qed.

Lemma send_loop_app (before after : list Tick) (frames : list frame) :
  Forall goes_on before ->
  send_loop (before ++ after) frames
  = send_loop after (frames ++ List.map Binary (forwarded before)).
Proof.
  intros Hbefore. revert frames.
  induction Hbefore as [|k rest (Hproc & (chunk & Hread & Hne) & Hsend) _ IH]; intros frames.
  - cbn. now rewrite app_nil_r.
  - cbn [List.app]. rewrite send_loop_cons, Hproc, Hread. cbn [negb].
    rewrite forwarded_cons, Hread.
    destruct chunk as [|b chunk]; [congruence|]. cbn [nonempty negb].
    destruct (app k && connected k).
    + rewrite Hsend by reflexivity. rewrite IH. cbn [List.map].
      now rewrite <- app_assoc.
    + apply IH.
Qed.

(** X8. While every pass goes on (the process is there, the read gives
    bytes, [send] returns), [send_audio] forwards every chunk read while the
    websocket was there and connected, once and in order.  When the loop is
    then left by the stop flag, the [CloseStream] message follows if the
    websocket is still there and connected; when it is left because a read
    raised, nothing more is sent, not even [CloseStream]. *)
Theorem X8_send_audio_run (before : list Tick) (closing : Closing) :
  Forall goes_on before ->
  send_audio before closing []
  = (Ok tt, List.map Binary (forwarded before) ++ closing_frames closing)
  /\ (forall k after e,
        process k = true -> read_outcome k = Raise e ->
        send_audio (before ++ k :: after) closing []
        = (Ok tt, List.map Binary (forwarded before))).
Proof.
  intros Hbefore. split.
  - unfold send_audio. unfold catch at 1. unfold bind.
    rewrite send_loop_goes_on by exact Hbefore. cbn [List.app].
    unfold closing_frames, catch, ws_send, ret.
    destruct (app_at_end closing && connected_at_end closing);
      [destruct (close_send_outcome closing) as [[]|e]|];
      rewrite ?app_nil_r; reflexivity.
  - intros k after e Hproc Hread.
    unfold send_audio. unfold catch at 1. unfold bind.
    rewrite send_loop_app by exact Hbefore.
    rewrite send_loop_cons, Hproc, Hread. reflexivity.
Qed.

Lemma X8_send_audio_run_witness :
  send_audio [streaming [1; 2]%N; unconnected [3]%N; streaming [4]%N] open_closing []
  = (Ok tt, [Binary [1; 2]%N; Binary [4]%N; Text close_stream])
  /\ send_audio ([streaming [1; 2]%N] ++ broken_pipe :: [streaming [4]%N]) open_closing []
     = (Ok tt, [Binary [1; 2]%N]).
Proof.
  assert (Forall goes_on [streaming [1; 2]%N; unconnected [3]%N; streaming [4]%N]) as Hall
    by (repeat constructor; eauto; discriminate).
  assert (Forall goes_on [streaming [1; 2]%N]) as Hone
    by (repeat constructor; eauto; discriminate).
  split.
  - exact (proj1 (X8_send_audio_run _ open_closing Hall)).
  - exact (proj2 (X8_send_audio_run _ open_closing Hone) broken_pipe [streaming [4]%N]
             OSError eq_refl eq_refl).
Defined.

End SenderFacts.

(** ** More on the dialogue context *)

Module DialogueFacts.
Import Context ContextFacts Dialogue.

(** *** The weight of a text *)

Lemma split_from_length (cur s : pystr) :
  (2 * length (split_from cur s) <= length s + (if truthy cur then 2 else 1))%nat.
Proof.
  revert cur. induction s as [|c r IH]; intros cur.
  - destruct cur; cbn; lia.
  - cbn [split_from]. destruct (is_space c).
    + destruct cur; [specialize (IH []) | specialize (IH [])]; cbn in *; lia.
    + specialize (IH (c :: cur)). destruct cur; cbn in *; lia.
Qed.

Lemma split_from_solid (cur s : pystr) :
  existsb (fun c => negb (is_space c)) s = true -> split_from cur s <> [].
Proof.
  revert cur. induction s as [|c r IH]; intros cur Hs; [discriminate|].
  cbn [split_from]. cbn [existsb] in Hs. destruct (is_space c); cbn in Hs.
  - destruct cur; [now apply IH | discriminate].
  - clear Hs IH. revert c cur. induction r as [|d r IHr]; intros c cur.
    + cbn. discriminate.
    + cbn [split_from]. destruct (is_space d); [discriminate | apply IHr].
Qed.

Lemma split_from_blank (s : pystr) :
  forallb is_space s = true -> split_from [] s = [].
Proof.
  induction s as [|c r IH]; [reflexivity|]. cbn [forallb split_from].
  intros [Hc Hr]%andb_prop. rewrite Hc. now apply IH.
Qed.

(** X9. [_estimate_tokens] is never negative and never more than the
    length of the text; it is 0 exactly for a text of fewer than four
    characters, all whitespace. *)
Theorem X9_estimate_tokens_bounds (s : pystr) :
  0 <= _estimate_tokens s <= len s
  /\ (_estimate_tokens s = 0 <-> len s < 4 /\ forallb is_space s = true).
Proof.
  unfold _estimate_tokens, split, len.
  pose proof (split_from_length [] s) as Hwords. cbn [truthy] in Hwords.
  split; [split|].
  - assert (0 <= Z.of_nat (length s) / 4) by (apply Z.div_pos; lia). lia.
  - assert (Z.of_nat (length s) / 4 * 4 <= Z.of_nat (length s))
      by (pose proof (Z.mul_div_le (Z.of_nat (length s)) 4); lia).
    lia.
  - assert (0 <= Z.of_nat (length s) / 4) as Hdiv by (apply Z.div_pos; lia).
    split.
    + intros Hzero.
      assert (length (split_from [] s) = 0%nat) as Hnone by lia.
      assert (Z.of_nat (length s) / 4 = 0) as Hshort by lia.
      split; [apply Z.div_small_iff in Hshort; lia|].
      destruct (forallb is_space s) eqn:Hblank; [reflexivity|].
      exfalso. apply (split_from_solid [] s); [|now destruct (split_from [] s)].
      clear - Hblank. induction s as [|c r IH]; [discriminate|].
      cbn [forallb existsb] in *. destruct (is_space c); cbn in *; [now apply IH | reflexivity].
    + intros [Hshort Hblank]. rewrite split_from_blank by exact Hblank.
      rewrite Z.div_small by lia. reflexivity.
Qed.


Ltac eval_lits :=
  repeat match goal with
         | |- context [lit ?s] =>
           let v := eval vm_compute in (lit s) in change (lit s) with v
         end.

Lemma estimate_tokens_nonneg (s : pystr) : 0 <= _estimate_tokens s.
Proof.
  unfold _estimate_tokens, len.
  assert (0 <= Z.of_nat (length s) / 4) by (apply Z.div_pos; lia). lia.
Qed.

Section Facts.

Context {T : Type} `{TimeOps T}.

Implicit Types (m : Manager T) (l : list (QAEntry T)).

(** *** The window of turns *)

Lemma add_call_window (c : Call T) m :
  0 <= max_recent_entries m ->
  exists m',
    add_call c m = (Ok tt, m')
    /\ max_recent_entries m' = max_recent_entries m
    /\ recent m'
       = drop (length (recent m ++ [entry_of c]) - Z.to_nat (max_recent_entries m))
           (recent m ++ [entry_of c]).
Proof.
  intros Hmax. unfold add_call.
  destruct (add_qa_spec (call_now c) (call_current_time c) (call_question c)
              (call_answer c) m)
    as (r & k & m' & Hrun & Hrecent & _ & Hsame & _ & _ & _ & Hok).
  destruct (Hok Hmax) as (-> & -> & _).
  exists m'. split; [exact Hrun|]. split; [apply Hsame | exact Hrecent].
Qed.

Lemma add_all_window (calls : list (Call T)) m :
  0 <= max_recent_entries m ->
  len (recent m) <= max_recent_entries m ->
  exists m',
    add_all calls m = (Ok tt, m')
    /\ max_recent_entries m' = max_recent_entries m
    /\ recent m'
       = drop (length (recent m ++ List.map entry_of calls)
               - Z.to_nat (max_recent_entries m))
           (recent m ++ List.map entry_of calls).
Proof.
  revert m. induction calls as [|c calls IH]; intros m Hmax Hlen.
  - exists m. split; [reflexivity|]. split; [reflexivity|].
    cbn [List.map]. rewrite app_nil_r.
    replace (length (recent m) - Z.to_nat (max_recent_entries m))%nat with 0%nat
      by (unfold len in Hlen; lia).
    reflexivity.
  - cbn [add_all]. unfold bind.
    destruct (add_call_window c m Hmax) as (m1 & -> & Hmax1 & Hrecent1).
    destruct (IH m1) as (m' & Hrun & Hmax' & Hrecent').
    { now rewrite Hmax1. }
    { rewrite Hmax1, Hrecent1. unfold len. rewrite length_drop. lia. }
    exists m'. split; [exact Hrun|]. split; [congruence|].
    rewrite Hrecent', Hmax1, Hrecent1. cbn [List.map].
    set (n := Z.to_nat (max_recent_entries m)).
    set (l1 := recent m ++ [entry_of c]).
    set (rest := List.map entry_of calls).
    replace (recent m ++ entry_of c :: rest) with (l1 ++ rest)
      by (unfold l1; now rewrite <- app_assoc).
    assert (drop (length l1 - n) l1 ++ rest = drop (length l1 - n) (l1 ++ rest)) as ->.
    { rewrite drop_app_le by lia. reflexivity. }
    rewrite drop_drop, length_drop, !length_app. f_equal. lia.
Qed.

Lemma entries_nonneg (calls : list (Call T)) :
  Forall (fun e => 0 <= tokens e) (List.map entry_of calls).
Proof.
  induction calls as [|c calls IH]; cbn [List.map]; constructor;
    [apply estimate_tokens_nonneg | exact IH].
Qed.

(** X10. With a bound [N >= 0], after any sequence of calls of [add_qa] on
    a new manager the turns held are exactly those of the last [N] calls
    (of all the calls when there were fewer), in the order of the calls,
    each with the question, the answer and the clock reading of its call and
    the estimate for question and answer together as its weight. *)
Theorem X10_window_of_calls (n mt th : Z) (sv : option Solver) (calls : list (Call T)) :
  0 <= n ->
  exists m',
    add_all calls (init n mt th sv) = (Ok tt, m')
    /\ recent m' = drop (length calls - Z.to_nat n) (List.map entry_of calls)
    /\ _token_count m' = sum_tokens (recent m')
    /\ 0 <= _token_count m'.
Proof.
  intros Hn.
  destruct (add_all_window calls (init n mt th sv)) as (m' & Hrun & _ & Hrecent).
  { exact Hn. }
  { rewrite recent_init. cbn. exact Hn. }
  rewrite recent_init in Hrecent. cbn [List.app] in Hrecent.
  rewrite length_map in Hrecent. change (max_recent_entries (init n mt th sv)) with n in Hrecent.
  exists m'. split; [exact Hrun|]. split; [exact Hrecent|].
  pose proof (add_all_offset calls (init n mt th sv)) as Hoff.
  rewrite Hrun in Hoff. cbn [snd] in Hoff. cbv zeta in Hoff.
  rewrite recent_init in Hoff. cbn in Hoff.
  assert (_token_count m' = sum_tokens (recent m')) as Hcount by lia.
  split; [exact Hcount|]. rewrite Hcount, Hrecent.
  generalize (length calls - Z.to_nat n)%nat. intros k.
  assert (forall l, Forall (fun e => 0 <= tokens e) l -> 0 <= sum_tokens l) as Hsum.
  { induction 1 as [|e l He _ IH]; [cbn; lia|].
    rewrite sum_tokens_cons. lia. }
  apply Hsum. apply Forall_drop. apply entries_nonneg.
Qed.

(** *** The renderings *)

Lemma join_head (sep : pystr) (c : N) (p : pystr) (rest : list pystr) :
  exists tail, join sep ((c :: p) :: rest) = c :: tail.
Proof. destruct rest; cbn [join List.app]; eauto. Qed.

Lemma full_summary_part_head (s : pystr) :
  exists tail, full_summary_part s = 0x1F4CB%N :: tail.
Proof. unfold full_summary_part. eval_lits. cbn [List.app]. eauto. Qed.

Lemma history_header_head : exists tail, history_header = 0x1F5E3%N :: tail.
Proof. unfold history_header. eval_lits. eauto. Qed.

Lemma summary_part_head (s : pystr) :
  exists tail, summary_part s = 0x1F4CB%N :: tail.
Proof. unfold summary_part. eval_lits. cbn [List.app]. eauto. Qed.

Lemma recent_header_head : exists tail, recent_header = 0x1F5E3%N :: tail.
Proof. unfold recent_header. eval_lits. eauto. Qed.

Lemma empty_history_head : exists tail, empty_history = 0x418%N :: tail.
Proof. unfold empty_history. eval_lits. eauto. Qed.

(** A rendering of a manager that holds something begins with the mark of
    the summary or with that of the turns. *)
Lemma get_full_context_head m :
  summary m <> [] \/ recent m <> [] ->
  exists c tail,
    get_full_context m = c :: tail /\ (c = 0x1F4CB \/ c = 0x1F5E3)%N.
Proof.
  intros Hsome. unfold get_full_context.
  destruct (summary m) as [|a s] eqn:Hs; cbn [truthy List.app].
  - destruct (recent m) as [|e l] eqn:Hl; [destruct Hsome; congruence|].
    cbn [nonempty List.app].
    destruct history_header_head as (tail & ->).
    destruct (join_head nl 0x1F5E3%N tail (turn_parts (e :: l))) as (tail' & ->).
    eauto.
  - destruct (full_summary_part_head (a :: s)) as (tail & ->).
    destruct (nonempty (recent m)); cbn [nonempty List.app];
      match goal with
      | |- context [join nl ((?c :: ?p) :: ?rest)] =>
        destruct (join_head nl c p rest) as (tail' & ->)
      end; eauto.
Qed.

Lemma get_context_for_query_head (q : pystr) m :
  summary m <> [] \/ recent m <> [] ->
  exists c tail,
    get_context_for_query q m = c :: tail /\ (c = 0x1F4CB \/ c = 0x1F5E3)%N.
Proof.
  intros Hsome. unfold get_context_for_query, join_parts.
  destruct (summary m) as [|a s] eqn:Hs; cbn [truthy List.app].
  - destruct (recent m) as [|e l] eqn:Hl; [destruct Hsome; congruence|].
    cbn [nonempty List.app].
    destruct recent_header_head as (tail & ->).
    destruct (join_head nl 0x1F5E3%N tail (turn_parts (slice_last 4 (e :: l))))
      as (tail' & ->).
    eauto.
  - destruct (summary_part_head (a :: s)) as (tail & ->).
    destruct (nonempty (recent m)); cbn [nonempty List.app];
      match goal with
      | |- context [join nl ((?c :: ?p) :: ?rest)] =>
        destruct (join_head nl c p rest) as (tail' & ->)
      end; eauto.
Qed.

Lemma renderings_of_nothing (q : pystr) m :
  summary m = [] -> recent m = [] ->
  get_context_for_query q m = [] /\ get_full_context m = empty_history.
Proof.
  intros Hs Hl. unfold get_context_for_query, join_parts, get_full_context.
  now rewrite Hs, Hl.
Qed.

(** X11. [get_full_context] never returns the empty string.  It returns
    the placeholder exactly when the manager holds neither a summary nor a
    turn, which is exactly when [get_context_for_query] returns the empty
    string; otherwise both renderings begin with the mark of the summary or,
    without a summary, with the header of the turns. *)
Theorem X11_renderings_when_empty (q : pystr) m :
  get_full_context m <> []
  /\ (get_full_context m = empty_history <-> summary m = [] /\ recent m = [])
  /\ (get_context_for_query q m = [] <-> summary m = [] /\ recent m = [])
  /\ (summary m <> [] ->
      exists tail tail',
        get_full_context m = 0x1F4CB%N :: tail
        /\ get_context_for_query q m = 0x1F4CB%N :: tail').
Proof.
  assert (summary m = [] /\ recent m = [] \/ (summary m <> [] \/ recent m <> []))
    as Hcases.
  { destruct (summary m); [|right; left; discriminate].
    destruct (recent m); [left; now split | right; right; discriminate]. }
  destruct empty_history_head as (rest & Hplace).
  split; [|split; [|split]].
  - destruct Hcases as [[Hs Hl] | Hsome].
    + rewrite (proj2 (renderings_of_nothing q m Hs Hl)), Hplace. discriminate.
    + destruct (get_full_context_head m Hsome) as (c & tail & -> & _). discriminate.
  - split.
    + intros Heq. destruct Hcases as [Hnone | Hsome]; [exact Hnone|].
      destruct (get_full_context_head m Hsome) as (c & tail & Hrender & Hc).
      rewrite Hrender, Hplace in Heq. injection Heq as Heq _.
      destruct Hc as [-> | ->]; discriminate Heq.
    + intros [Hs Hl]. apply (renderings_of_nothing q m Hs Hl).
  - split.
    + intros Heq. destruct Hcases as [Hnone | Hsome]; [exact Hnone|].
      destruct (get_context_for_query_head q m Hsome) as (c & tail & Hrender & _).
      rewrite Hrender in Heq. discriminate Heq.
    + intros [Hs Hl]. apply (renderings_of_nothing q m Hs Hl).
  - intros Hs. unfold get_full_context, get_context_for_query, join_parts.
    destruct (summary m) as [|a s]; [congruence|]. cbn [truthy List.app].
    destruct (full_summary_part_head (a :: s)) as (t1 & ->).
    destruct (summary_part_head (a :: s)) as (t2 & ->).
    destruct (nonempty (recent m)); cbn [nonempty List.app];
      repeat match goal with
      | |- context [join nl ((?c :: ?p) :: ?rest)] =>
        destruct (join_head nl c p rest) as (? & ->)
      end; eauto.
Qed.

(** *** [clear] *)

Lemma clear_spec m :
  clear m = (Ok tt, set_token_count 0 (set_summary [] (store_recent [] m))).
Proof. reflexivity. Qed.

Lemma contents_store_recent l m (b : loc) :
  b <> recent_qa m -> contents (store_recent l m) b = contents m b.
Proof.
  intros Hb. unfold contents, store_recent. cbn.
  now rewrite lookup_insert_ne by congruence.
Qed.

(** One pass of the worker that finds a batch. *)
Lemma worker_pass (a : Attempt T) (b : loc) (queued : list (option loc)) m :
  items (_summarization_queue m) = Some b :: queued ->
  worker [a] m
  = let m0 := set_queue (mkQueue (maxsize (_summarization_queue m)) queued) m in
    (Ok WaitingForWork, snd (_perform_summarization b (post a) (clock a) m0)).
Proof.
  intros Hitems. cbn [worker]. unfold bind at 1. unfold get at 1. cbv beta iota zeta.
  rewrite Hitems. unfold bind at 1. unfold modify at 1. cbv beta iota.
  unfold bind.
  set (m0 := set_queue _ m).
  destruct (_perform_summarization b (post a) (clock a) m0) as [[[]|e] m'] eqn:Hrun;
    [reflexivity|].
  exfalso. revert Hrun. unfold _perform_summarization, bind, get. cbv beta iota zeta.
  destruct (negb (nonempty (contents m0 b)) || negb (Py.is_some (solver m0)));
    [discriminate|].
  destruct (send_summarization _) as [s|]; [|discriminate].
  destruct (truthy s); [|discriminate].
  destruct (apply_summary_spec 4 s (clock a) m0) as (m2 & -> & _). discriminate.
Qed.

(** X12. [clear] returns with no turns, no summary and a count of 0, the
    list object of the turns being emptied in place and every other list
    object left alone; the work queue and the time of the last summarization
    stay.  So a batch queued before [clear] is still summarized after it:
    when the collaborator answers, the summary of the cleared dialogue comes
    back, with no turns and a count of 0, and the rendering is not empty
    any more. *)
Theorem X12_clear_keeps_queue (q : pystr) m :
  (exists m1,
     clear m = (Ok tt, m1)
     /\ recent m1 = [] /\ summary m1 = [] /\ _token_count m1 = 0
     /\ recent_qa m1 = recent_qa m
     /\ (forall b, b <> recent_qa m -> contents m1 b = contents m b)
     /\ _summarization_queue m1 = _summarization_queue m
     /\ last_summarization_time m1 = last_summarization_time m
     /\ get_context_for_query q m1 = [])
  /\ (forall (a : Attempt T) (b : loc) (queued : list (option loc)) (s : pystr),
        items (_summarization_queue m) = Some b :: queued ->
        b <> recent_qa m -> contents m b <> [] -> solver m <> None ->
        send_summarization (post a (summarization_prompt (contents m b))) = Some s ->
        truthy s = true ->
        exists m2,
          worker [a] (snd (clear m)) = (Ok WaitingForWork, m2)
          /\ summary m2 = s /\ recent m2 = [] /\ _token_count m2 = 0
          /\ get_context_for_query q m2 <> []).
Proof.
  assert (recent (set_token_count 0 (set_summary [] (store_recent [] m))) = []) as Hrecent.
  { change (recent (store_recent [] m) = []). apply recent_store_recent. }
  split.
  - eexists. split; [apply clear_spec|].
    split; [exact Hrecent|]. split; [reflexivity|]. split; [reflexivity|].
    split; [reflexivity|]. split.
    { intros b Hb. now apply contents_store_recent. }
    split; [reflexivity|]. split; [reflexivity|].
    exact (proj1 (renderings_of_nothing q
                   (set_token_count 0 (set_summary [] (store_recent [] m)))
                   eq_refl Hrecent)).
  - intros a b queued s Hitems Hb Hbatch Hsolver Hsend Htruthy.
    rewrite clear_spec. cbn [snd].
    set (m1 := set_token_count 0 (set_summary [] (store_recent [] m))) in *.
    rewrite (worker_pass a b queued m1) by exact Hitems. cbv zeta.
    set (m0 := set_queue _ m1).
    assert (contents m0 b = contents m b) as Hsame
      by (now apply contents_store_recent).
    destruct (perform_summarization_succeeds b (post a) (clock a) s m0)
      as (m2 & Hrun & Hsum & _ & Hcase); try assumption.
    { now rewrite Hsame. }
    { now rewrite Hsame. }
    change (recent m0) with (recent m1) in Hcase. rewrite Hrecent in Hcase.
    cbn in Hcase. destruct Hcase as [Hl Hc].
    rewrite Hrun. cbn [snd]. exists m2. split; [reflexivity|].
    rewrite (InterleavingFacts.send_summarization_stripped _ _ Hsend) in Hsum.
    split; [exact Hsum|]. split; [exact Hl|]. split; [exact Hc|].
    destruct (get_context_for_query_head q m2) as (c & tail & -> & _); [|discriminate].
    left. rewrite Hsum. destruct s; [discriminate Htruthy | discriminate].
Qed.

(** *** Runs of both threads *)

Lemma sum_tokens_nonneg l : Forall (fun e => 0 <= tokens e) l -> 0 <= sum_tokens l.
Proof.
  induction 1 as [|e l He _ IH]; [cbn; lia|]. rewrite sum_tokens_cons. lia.
Qed.

Lemma apply_summary_bound (keep : nat) (s : pystr) (now : T) m :
  max_recent_entries (snd (apply_summary keep s now m)) = max_recent_entries m.
Proof.
  unfold apply_summary, bind, modify, get, alloc, ret. cbv beta iota.
  match goal with |- context [if ?c then _ else _] => destruct c end; reflexivity.
Qed.

(** What an attempt can do: nothing, or the locked block. *)
Lemma perform_summarization_cases (b : loc) (a : Attempt T) m :
  _perform_summarization b (post a) (clock a) m = (Ok tt, m)
  \/ exists s, _perform_summarization b (post a) (clock a) m
               = apply_summary 4 s (clock a) m.
Proof.
  unfold _perform_summarization, bind, get. cbv beta iota zeta.
  destruct (negb (nonempty (contents m b)) || negb (Py.is_some (solver m)));
    [now left|].
  destruct (send_summarization _) as [s|]; [|now left].
  destruct (truthy s); [right; eauto | now left].
Qed.

Lemma settled_add_call (n : Z) (c : Call T) m :
  0 <= n -> settled n m ->
  exists m', add_call c m = (Ok tt, m') /\ settled n m'.
Proof.
  intros Hn (Hmax & Hlen & Hpos & Hcount & Hqueue). unfold add_call.
  destruct (add_qa_spec (call_now c) (call_current_time c) (call_question c)
              (call_answer c) m)
    as (r & k & m' & Hrun & Hrecent & Hcount' & Hsame & _ & _ & _ & Hok).
  destruct Hok as (-> & -> & Hitems); [lia|].
  exists m'. split; [exact Hrun|].
  set (e := mkQAEntry (call_question c) (call_answer c) (call_now c)
              (_estimate_tokens (call_question c ++ call_answer c))) in *.
  assert (Forall (fun e => 0 <= tokens e) (recent m ++ [e])) as Hpos'.
  { apply Forall_app. split; [exact Hpos|]. constructor; [|constructor].
    apply estimate_tokens_nonneg. }
  split; [destruct Hsame as (-> & _); exact Hmax|].
  split.
  { rewrite Hrecent. unfold len. rewrite length_drop, Hmax.
    generalize (length (recent m ++ [e])). intros x. clear - Hn. lia. }
  split; [rewrite Hrecent; now apply Forall_drop|].
  split.
  { rewrite Hcount', Hrecent.
    pose proof (sum_tokens_take_drop
                  (length (recent m ++ [e]) - Z.to_nat (max_recent_entries m))
                  (recent m ++ [e])) as Hsplit.
    rewrite sum_tokens_app, sum_tokens_cons, sum_tokens_nil in Hsplit.
    clear - Hsplit Hcount. lia. }
  destruct (summarization_due (call_current_time c) m'
            && negb (queue_full (_summarization_queue m))).
  - destruct Hitems as (b & _ & _ & _ & ->).
    apply Forall_app. split; [exact Hqueue|]. constructor; [discriminate | constructor].
  - now rewrite Hitems.
Qed.

Lemma settled_work (n : Z) (a : Attempt T) m :
  0 <= n -> settled n m ->
  exists m', worker [a] m = (Ok WaitingForWork, m') /\ settled n m'.
Proof.
  intros Hn (Hmax & Hlen & Hpos & Hcount & Hqueue).
  destruct (items (_summarization_queue m)) as [|[b|] queued] eqn:Hitems.
  - exists m. split.
    + cbn [worker]. unfold bind, get. cbv beta iota zeta. now rewrite Hitems.
    + unfold settled. rewrite Hitems. now repeat split.
  - rewrite (worker_pass a b queued m Hitems). cbv zeta.
    set (m0 := set_queue _ m).
    assert (settled n m0) as Hm0.
    { repeat split; try assumption. cbn. now inversion Hqueue. }
    eexists. split; [reflexivity|].
    destruct (perform_summarization_cases b a m0) as [-> | (s & ->)]; [exact Hm0|].
    destruct Hm0 as (Hmax0 & Hlen0 & Hpos0 & Hcount0 & Hqueue0).
    pose proof (apply_summary_bound 4 s (clock a) m0) as Hbound.
    destruct (apply_summary_spec 4 s (clock a) m0)
      as (m2 & Hrun & _ & _ & Hq & _ & Hcase).
    rewrite Hrun in *. cbn [snd] in *.
    split; [congruence|].
    change (Z.of_nat 4) with 4 in Hcase.
    destruct (Z.gtb_spec (len (recent m0)) 4) as [Hgt|Hle].
    + destruct Hcase as [Hrecent2 Hcount2].
      assert (Forall (fun e => 0 <= tokens e) (recent m2)) as Hpos2.
      { rewrite Hrecent2. unfold slice_last. now apply Forall_drop. }
      split.
      { rewrite Hrecent2. unfold len in *. rewrite length_slice_last; lia. }
      split; [exact Hpos2|]. split; [|now rewrite Hq].
      rewrite Hcount2. pose proof (estimate_tokens_nonneg (strip s)). lia.
    + destruct Hcase as [Hrecent2 Hcount2].
      rewrite Hrecent2, Hcount2, Hq. now repeat split.
  - inversion Hqueue as [|x y Hx _]. congruence.
Qed.

Lemma settled_clear (n : Z) m :
  0 <= n -> settled n m -> settled n (snd (clear m)).
Proof.
  intros Hn (Hmax & Hlen & Hpos & Hcount & Hqueue). rewrite clear_spec. cbn [snd].
  assert (recent (set_token_count 0 (set_summary [] (store_recent [] m))) = []) as Hrecent.
  { change (recent (store_recent [] m) = []). apply recent_store_recent. }
  unfold settled. rewrite Hrecent.
  repeat split; try assumption; try constructor; unfold len, sum_tokens; simpl; lia.
Qed.

Lemma settled_run (n : Z) (ops : list (Op T)) m :
  0 <= n -> settled n m ->
  exists m', run_ops ops WaitingForWork m = (Ok WaitingForWork, m') /\ settled n m'.
Proof.
  intros Hn. revert m. induction ops as [|[c|a|] ops IH]; intros m Hm.
  - exists m. now split.
  - cbn [run_ops]. unfold bind.
    destruct (settled_add_call n c m Hn Hm) as (m1 & -> & Hm1). now apply IH.
  - cbn [run_ops]. unfold bind.
    destruct (settled_work n a m Hn Hm) as (m1 & -> & Hm1). now apply IH.
  - cbn [run_ops]. unfold bind. rewrite clear_spec. apply IH.
    pose proof (settled_clear n m Hn Hm) as Hc. now rewrite clear_spec in Hc.
Qed.

(** X13. With a bound [N >= 0], any sequence of calls of [add_qa], passes
    of the worker (whatever the collaborator answers) and calls of [clear],
    run one after the other on a new manager, goes through without an
    exception and without the worker ending; afterwards there are at most
    [N] turns, no weight is negative, and [_token_count] is at least the sum
    of the weights of the turns held (it is never an undercount). *)
Theorem X13_sequential_runs (n mt th : Z) (sv : option Solver) (ops : list (Op T)) :
  0 <= n ->
  exists m',
    run_ops ops WaitingForWork (init n mt th sv) = (Ok WaitingForWork, m')
    /\ len (recent m') <= n
    /\ 0 <= sum_tokens (recent m') <= _token_count m'.
Proof.
  intros Hn.
  destruct (settled_run n ops (init n mt th sv) Hn)
    as (m' & Hrun & _ & Hlen & Hpos & Hcount & _).
  { unfold settled. rewrite recent_init.
    repeat split; try constructor; unfold len, sum_tokens; simpl; lia. }
  exists m'. split; [exact Hrun|]. split; [exact Hlen|].
  split; [now apply sum_tokens_nonneg | exact Hcount].
Qed.

End Facts.

Lemma X10_window_of_calls_witness :
  exists m',
    add_all (repeat demo_call 12) (init 10 1200 900 None) = (Ok tt, m')
    /\ recent m' = drop (length (repeat demo_call 12) - Z.to_nat 10)
                     (List.map entry_of (repeat demo_call 12))
    /\ _token_count m' = sum_tokens (recent m')
    /\ 0 <= _token_count m'.
Proof.
  apply (X10_window_of_calls (T:=Z) 10 1200 900 None (repeat demo_call 12)). lia.
Defined.

Lemma X12_clear_keeps_queue_witness :
  exists m2,
    worker [answering (lit " stale ")] (snd (clear (demo_manager 1)))
    = (Ok WaitingForWork, m2)
    /\ summary m2 = lit "stale" /\ recent m2 = [] /\ _token_count m2 = 0
    /\ get_context_for_query (lit "q") m2 <> [].
Proof.
  eapply (proj2 (X12_clear_keeps_queue (T:=Z) (lit "q") (demo_manager 1))
            (answering (lit " stale ")) _ [] (lit "stale"));
    first [reflexivity | (vm_compute; discriminate)].
Defined.

Lemma X13_sequential_runs_witness :
  exists m',
    run_ops [AddQA demo_call; Work (answering (lit "ok")); Clear; AddQA demo_call;
             Work network_down]
      WaitingForWork (init 10 1200 0 (Some SystemAnalystSolver))
    = (Ok WaitingForWork, m')
    /\ len (recent m') <= 10
    /\ 0 <= sum_tokens (recent m') <= _token_count m'.
Proof.
  apply (X13_sequential_runs (T:=Z) 10 1200 0 (Some SystemAnalystSolver)). lia.
Defined.

End DialogueFacts.

(** ** Splitting a long message *)

Module ClipboardFacts.
Import Clipboard.

Lemma find_last_bound (c : N) (s : pystr) (j : nat) :
  find_last c s = Some j -> (j < length s)%nat /\ s !! j = Some c.
Proof.
  revert j. induction s as [|x r IH]; intros j; [discriminate|].
  cbn [find_last]. destruct (find_last c r) as [i|].
  - intros [= <-]. destruct (IH i eq_refl) as [Hlt Hat]. cbn. split; [lia | exact Hat].
  - destruct (N.eqb_spec x c) as [->|]; [|discriminate].
    intros [= <-]. cbn. split; [lia | reflexivity].
Qed.

Lemma lstrip_gap (s : pystr) :
  exists gap, s = gap ++ lstrip s /\ blank gap.
Proof.
  induction s as [|c r (gap & Hs & Hgap)].
  - exists []. now split.
  - cbn [lstrip]. destruct (is_space c) eqn:Hc.
    + exists (c :: gap). split; [cbn; now rewrite <- Hs|].
      unfold blank in *. cbn. now rewrite Hc, Hgap.
    + exists []. now split.
Qed.

Lemma lstrip_length (s : pystr) : (length (lstrip s) <= length s)%nat.
Proof.
  induction s as [|c r IH]; [reflexivity|].
  cbn [lstrip]. destruct (is_space c); cbn; lia.
Qed.

Lemma lstrip_space_length (c : N) (r : pystr) :
  is_space c = true -> (length (lstrip (c :: r)) < length (c :: r))%nat.
Proof.
  intros Hc. cbn [lstrip]. rewrite Hc. pose proof (lstrip_length r). cbn. lia.
Qed.

Lemma lstrip_solid_or_nil (s : pystr) : lstrip s = [] \/ head_solid (lstrip s) = true.
Proof.
  destruct (InterleavingFacts.lstrip_head s) as [-> | (c & r & -> & Hc)];
    [now left|]. right. cbn. now rewrite Hc.
Qed.

(** The break point one pass chooses on a text longer than the limit. *)
Lemma break_point (text : pystr) (max_length : Z) :
  1 <= max_length -> max_length < len text ->
  let idx := rfind 0x0A text max_length in
  let idx := if idx =? -1 then rfind 0x20 text max_length else idx in
  let idx := if idx =? -1 then max_length else idx in
  0 <= idx <= max_length
  /\ (idx = 0 -> exists c r, text = c :: r /\ is_space c = true).
Proof.
  intros Hmax Hlong.
  assert (forall c, is_space c = true ->
            rfind c text max_length = -1
            \/ 0 <= rfind c text max_length < max_length
               /\ (rfind c text max_length = 0 ->
                   exists r, text = c :: r)) as Hfind.
  { intros c Hc. unfold rfind.
    destruct (find_last c (slice_to max_length text)) as [j|] eqn:Hj; [right | now left].
    apply find_last_bound in Hj as [Hlt Hat].
    unfold slice_to in *. rewrite length_take in Hlt.
    assert (clamp max_length (len text) = Z.to_nat max_length) as Hclamp.
    { unfold clamp. destruct (Z.ltb_spec max_length 0); [lia|]. f_equal. lia. }
    rewrite Hclamp in *. split; [lia|].
    intros Hzero. assert (j = 0%nat) as -> by lia.
    destruct text as [|x r]; [destruct (Z.to_nat max_length); discriminate Hat|].
    destruct (Z.to_nat max_length); [discriminate Hat|].
    cbn in Hat. injection Hat as ->. eauto. }
  cbv zeta.
  destruct (Hfind 0x0A%N eq_refl) as [-> | (Hrange & Hzero)].
  - rewrite Z.eqb_refl.
    destruct (Hfind 0x20%N eq_refl) as [-> | (Hrange & Hzero)].
    + rewrite Z.eqb_refl. split; [lia|]. intros H0. exfalso. lia.
    + destruct (Z.eqb_spec (rfind 32 text max_length) (-1)); [lia|].
      split; [lia|]. intros H0. destruct (Hzero H0) as (r & ->). now exists 0x20%N, r.
  - destruct (Z.eqb_spec (rfind 10 text max_length) (-1)); [lia|].
    destruct (Z.eqb_spec (rfind 10 text max_length) (-1)); [lia|].
    split; [lia|]. intros H0. destruct (Hzero H0) as (r & ->). now exists 0x0A%N, r.
Qed.


Lemma clamp_inside (idx : Z) (text : pystr) :
  0 <= idx <= len text -> clamp idx (len text) = Z.to_nat idx.
Proof.
  intros Hidx. unfold clamp. destruct (Z.ltb_spec idx 0); [lia|]. f_equal. lia.
Qed.

Lemma rejoin_cons (part gap : pystr) (parts gaps : list pystr) :
  rejoin (part :: parts) (gap :: gaps) = part ++ gap ++ rejoin parts gaps.
Proof. unfold rejoin. cbn. now rewrite <- app_assoc. Qed.

Lemma split_loop_step (fuel : nat) (text : pystr) (max_length : Z) (acc : list pystr) :
  split_loop (S fuel) text max_length acc
  = if negb (truthy text) then Some acc else
    if len text <=? max_length then Some (acc ++ [text]) else
    let idx := rfind 0x0A text max_length in
    let idx := if idx =? -1 then rfind 0x20 text max_length else idx in
    let idx := if idx =? -1 then max_length else idx in
    split_loop fuel (lstrip (slice_from idx text)) max_length
      (acc ++ [slice_to idx text]).
Proof. reflexivity. Qed.

(** What the loop returns when the limit is positive. *)
Lemma split_loop_spec (max_length : Z) :
  1 <= max_length ->
  forall (fuel : nat) (text : pystr) (acc : list pystr),
    (length text < fuel)%nat ->
    exists new gaps,
      split_loop fuel text max_length acc = Some (acc ++ new)
      /\ Forall (fun part => len part <= max_length) new
      /\ length gaps = length new
      /\ Forall blank gaps
      /\ text = rejoin new gaps
      /\ (new = [] <-> text = [])
      /\ Forall (fun part => head_solid part = true) (tail new)
      /\ (head_solid text = true -> Forall (fun part => head_solid part = true) new).
Proof.
  intros Hmax. induction fuel as [|fuel IH]; intros text acc Hfuel; [lia|].
  rewrite split_loop_step.
  destruct text as [|c0 r0] eqn:Htext.
  { exists [], []. rewrite app_nil_r. cbn [truthy negb].
    repeat split; try constructor; discriminate. }
  rewrite <- Htext in *. replace (truthy text) with true by now rewrite Htext.
  cbn [negb].
  destruct (Z.leb_spec (len text) max_length) as [Hshort | Hlong].
  { exists [text], [[]]. split; [reflexivity|].
    split; [now repeat constructor|]. split; [reflexivity|].
    split; [now repeat constructor|].
    split; [unfold rejoin; cbn; now rewrite !app_nil_r|].
    split; [split; [discriminate | intros Hnil; rewrite Hnil in Htext; discriminate]|].
    split; [constructor|]. intros Hhead. now repeat constructor. }
  destruct (break_point text max_length Hmax Hlong) as (Hrange & Hzero).
  cbv zeta in *.
  set (idx := if (if rfind 10 text max_length =? -1
                  then rfind 32 text max_length else rfind 10 text max_length) =? -1
              then max_length
              else if rfind 10 text max_length =? -1
                   then rfind 32 text max_length else rfind 10 text max_length) in *.
  assert (clamp idx (len text) = Z.to_nat idx) as Hclamp
    by (apply clamp_inside; lia).
  unfold slice_from, slice_to. rewrite Hclamp.
  set (k := Z.to_nat idx).
  destruct (lstrip_gap (drop k text)) as (gap & Hgap & Hblank).
  assert (length (lstrip (drop k text)) < fuel)%nat as Hless.
  { destruct (Z.eq_dec idx 0) as [H0|Hpos].
    - destruct (Hzero H0) as (c & r & Hcr & Hc).
      replace k with 0%nat by (unfold k; lia). rewrite Hcr in *. cbn [drop].
      pose proof (lstrip_space_length c r Hc). lia.
    - pose proof (lstrip_length (drop k text)) as Hle. rewrite length_drop in Hle.
      unfold len in *. unfold k in *. lia. }
  destruct (IH (lstrip (drop k text)) (acc ++ [take k text]) Hless)
    as (new & gaps & Hrun & Hparts & Hlen & Hgaps & Hjoin & Hnil & Htail & Hsolid).
  exists (take k text :: new), (gap :: gaps).
  split; [now rewrite Hrun, <- app_assoc|].
  split.
  { constructor; [|exact Hparts]. unfold len in *. rewrite length_take. unfold k. lia. }
  split; [cbn; now rewrite Hlen|].
  split; [now constructor|].
  split.
  { rewrite rejoin_cons, <- Hjoin, <- Hgap. symmetry. apply take_drop. }
  split; [split; [discriminate | intros Hnil'; rewrite Hnil' in Htext; discriminate]|].
  assert (Forall (fun part => head_solid part = true) new) as Hnew.
  { destruct (lstrip_solid_or_nil (drop k text)) as [Hrest | Hrest].
    - apply Hnil in Hrest. rewrite Hrest. constructor.
    - now apply Hsolid. }
  split; [exact Hnew|].
  intros Hhead. constructor; [|exact Hnew].
  assert (idx <> 0) as Hpos.
  { intros H0. destruct (Hzero H0) as (c & r & Hcr & Hc).
    rewrite Hcr in Hhead. cbn in Hhead. rewrite Hc in Hhead. discriminate. }
  destruct k as [|k'] eqn:Hk; [unfold k in Hk; lia|].
  rewrite Htext in *. exact Hhead.
Qed.

Lemma split_loop_more (max_length : Z) (fuel fuel' : nat) (text : pystr)
    (acc parts : list pystr) :
  split_loop fuel text max_length acc = Some parts ->
  (fuel <= fuel')%nat ->
  split_loop fuel' text max_length acc = Some parts.
Proof.
  revert fuel' text acc. induction fuel as [|fuel IH]; intros fuel' text acc;
    [discriminate|].
  intros Hrun Hle. destruct fuel' as [|fuel']; [lia|].
  rewrite split_loop_step in *.
  destruct (negb (truthy text)); [exact Hrun|].
  destruct (len text <=? max_length); [exact Hrun|].
  apply IH; [exact Hrun | lia].
Qed.

(** X14. With a limit of at least 1, the loop of [split_long_message] ends
    within as many passes as the text has characters, and one more.  No part
    is longer than the limit; the text is the parts put together again,
    each followed by the whitespace that was dropped after it; there are no
    parts exactly when the text is empty; and every part but the first (and
    the first too, unless the text begins with whitespace) begins with a
    character that is not whitespace, so that only the first part can be
    empty. *)
Theorem X14_split_long_message (text : pystr) (max_length : Z) :
  1 <= max_length ->
  exists parts gaps,
    split_long_message text max_length = Some parts
    /\ (forall fuel, (length text < fuel)%nat ->
        split_loop fuel text max_length [] = Some parts)
    /\ Forall (fun part => len part <= max_length) parts
    /\ length gaps = length parts
    /\ Forall blank gaps
    /\ text = rejoin parts gaps
    /\ (parts = [] <-> text = [])
    /\ Forall (fun part => head_solid part = true) (tail parts)
    /\ (head_solid text = true -> Forall (fun part => head_solid part = true) parts).
Proof.
  intros Hmax.
  destruct (split_loop_spec max_length Hmax (S (length text)) text [])
    as (parts & gaps & Hrun & Hrest); [lia|].
  exists parts, gaps. split; [exact Hrun|]. split; [|exact Hrest].
  intros fuel Hfuel. apply (split_loop_more max_length (S (length text))); [exact Hrun | lia].
Qed.

Lemma X14_split_long_message_witness :
  exists parts gaps,
    split_long_message (lit "one two  three") 5 = Some parts
    /\ (forall fuel, (length (lit "one two  three") < fuel)%nat ->
        split_loop fuel (lit "one two  three") 5 [] = Some parts)
    /\ Forall (fun part => len part <= 5) parts
    /\ length gaps = length parts
    /\ Forall blank gaps
    /\ lit "one two  three" = rejoin parts gaps
    /\ (parts = [] <-> lit "one two  three" = [])
    /\ Forall (fun part => head_solid part = true) (tail parts)
    /\ (head_solid (lit "one two  three") = true ->
        Forall (fun part => head_solid part = true) parts).
Proof. apply (X14_split_long_message (lit "one two  three") 5). lia. Defined.


(** *** When the loop does not end *)

Lemma split_loop_next (fuel : nat) (text : pystr) (max_length : Z) (acc : list pystr) :
  truthy text = true -> (len text <=? max_length) = false ->
  split_loop (S fuel) text max_length acc
  = split_loop fuel (lstrip (slice_from (break_index text max_length) text)) max_length
      (acc ++ [slice_to (break_index text max_length) text]).
Proof. intros Htext Hlong. rewrite split_loop_step, Htext, Hlong. reflexivity. Qed.

Lemma lstrip_same_length (s : pystr) : length (lstrip s) = length s -> lstrip s = s.
Proof.
  destruct s as [|c r]; [reflexivity|]. cbn [lstrip].
  destruct (is_space c); [|reflexivity].
  pose proof (lstrip_length r). cbn. lia.
Qed.

(** A pass shortens the text or leaves it as it is. *)
Lemma next_text_length (idx : Z) (text : pystr) :
  (length (lstrip (slice_from idx text)) < length text)%nat
  \/ lstrip (slice_from idx text) = text.
Proof.
  unfold slice_from. set (k := clamp idx (len text)).
  pose proof (lstrip_length (drop k text)) as Hle. rewrite length_drop in Hle.
  destruct (Nat.eq_dec (length (lstrip (drop k text))) (length text)) as [Heq|Hne];
    [right | left; lia].
  destruct k as [|k]; [cbn [drop] in *; now apply lstrip_same_length|].
  destruct text as [|c r]; [reflexivity|]. cbn [length] in *. lia.
Qed.

(** A text the pass leaves as it is keeps the loop going for ever. *)
Lemma split_loop_stuck (text : pystr) (max_length : Z) :
  truthy text = true -> (len text <=? max_length) = false ->
  lstrip (slice_from (break_index text max_length) text) = text ->
  forall fuel acc, split_loop fuel text max_length acc = None.
Proof.
  intros Htext Hlong Hsame. induction fuel as [|fuel IH]; intros acc; [reflexivity|].
  rewrite split_loop_next, Hsame by assumption. apply IH.
Qed.

(** A loop that ends does so within as many passes as the text has
    characters, and one more. *)
Lemma split_loop_enough (max_length : Z) (fuel : nat) (text : pystr)
    (acc parts : list pystr) :
  split_loop fuel text max_length acc = Some parts ->
  split_loop (S (length text)) text max_length acc = Some parts.
Proof.
  revert text acc. induction fuel as [|fuel IH]; intros text acc; [discriminate|].
  rewrite !split_loop_step.
  destruct (truthy text) eqn:Htext; cbn [negb]; [|trivial].
  destruct (len text <=? max_length) eqn:Hlong; [trivial|].
  fold (break_index text max_length). intros Hrun.
  destruct (next_text_length (break_index text max_length) text) as [Hless | Hsame].
  - apply (split_loop_more max_length
             (S (length (lstrip (slice_from (break_index text max_length) text)))));
      [now apply IH | lia].
  - rewrite Hsame in Hrun.
    now rewrite (split_loop_stuck text max_length Htext Hlong Hsame) in Hrun.
Qed.

(** X15. [split_long_message] does not return for every limit.  The loop
    ends, if at all, within as many passes as the text has characters, and
    one more; with a limit of 0 it never ends on a text that holds a
    character that is not whitespace, and it returns one empty part for a
    non-empty text of whitespace alone. *)
Theorem X15_split_loop_may_not_end :
  (forall text max_length,
     split_long_message text max_length = None
     <-> forall fuel, split_loop fuel text max_length [] = None)
  /\ (forall text fuel,
        truthy (lstrip text) = true -> split_loop fuel text 0 [] = None)
  /\ (forall text,
        truthy text = true -> lstrip text = [] -> split_long_message text 0 = Some [[]]).
Proof.
  split; [|split].
  - intros text max_length. split.
    + intros Hnone fuel.
      destruct (split_loop fuel text max_length []) as [parts|] eqn:Hrun; [|reflexivity].
      apply split_loop_enough in Hrun. unfold split_long_message in Hnone. congruence.
    + intros Hnone. apply Hnone.
  - intros text fuel Hsolid.
    assert (forall s, truthy s = true -> break_index s 0 = 0) as Hindex.
    { intros s Hs. unfold break_index, rfind, slice_to, clamp.
      destruct (Z.ltb_spec 0 0); [lia|].
      replace (Z.to_nat (Z.min 0 (len s))) with 0%nat by (unfold len; lia).
      reflexivity. }
    assert (forall s, truthy s = true -> slice_from 0 s = s /\ (len s <=? 0) = false)
      as Hslice.
    { intros s Hs. destruct s as [|c r]; [discriminate|]. split; [reflexivity|].
      apply Z.leb_gt. unfold len. cbn [length]. lia. }
    assert (truthy text = true) as Htext by (destruct text; [discriminate | reflexivity]).
    destruct fuel as [|fuel]; [reflexivity|].
    destruct (Hslice text Htext) as [Hall Hlong].
    rewrite split_loop_next, Hindex, Hall by assumption.
    destruct (Hslice (lstrip text) Hsolid) as [Hall' Hlong'].
    apply split_loop_stuck; try assumption.
    rewrite Hindex, Hall' by assumption. apply InterleavingFacts.lstrip_idem.
  - intros text Htext Hblank. unfold split_long_message.
    destruct text as [|c r]; [discriminate|].
    rewrite split_loop_next; [|reflexivity | apply Z.leb_gt; unfold len; cbn [length]; lia].
    assert (break_index (c :: r) 0 = 0) as ->.
    { unfold break_index, rfind, slice_to, clamp.
      destruct (Z.ltb_spec 0 0); [lia|].
      replace (Z.to_nat (Z.min 0 (len (c :: r)))) with 0%nat by (unfold len; lia).
      reflexivity. }
    unfold slice_from, slice_to, clamp. cbn [Z.ltb Z.compare].
    replace (Z.to_nat (Z.min 0 (len (c :: r)))) with 0%nat by (unfold len; lia).
    cbn [drop take]. rewrite Hblank.
    destruct (length (c :: r)) eqn:Hlen; [discriminate Hlen | reflexivity].
Qed.


(** *** Sending *)

Section Sending.

Context {T : Type} `{Context.TimeOps T}.
Variable isprintable : N -> bool.
Variable hash : pystr -> Z.

Implicit Types (s : ClipboardSender T) (post : nat -> pystr -> result unit).

Lemma send_single_message_spec post (message : pystr) s :
  _send_single_message post message s
  = if configured s
    then (Ok (match post (length (requests s)) message with
              | Ok _ => true
              | Raise _ => false
              end),
          set_requests (requests s ++ [message]) s)
    else (Ok false, s).
Proof.
  unfold _send_single_message, configured, bind, get, catch, modify, lift, ret.
  cbv beta iota.
  destruct (set_and_truthy (_base s)), (set_and_truthy (TELEGRAM_CHAT_ID s));
    cbn [negb orb andb]; try reflexivity.
  cbn [requests set_requests].
  now destruct (post (length (requests s)) message) as [[]|e].
Qed.

Lemma send_parts_spec post (parts : list pystr) (ok : bool) s :
  send_parts post parts ok s
  = if configured s
    then (Ok (ok && all_sent post (length (requests s)) parts),
          set_requests (requests s ++ parts) s)
    else (Ok (ok && negb (nonempty parts)), s).
Proof.
  revert ok s. induction parts as [|p rest IH]; intros ok s.
  - cbn [send_parts all_sent nonempty negb]. unfold ret. rewrite andb_true_r, app_nil_r.
    destruct (configured s); [now destruct s | reflexivity].
  - cbn [send_parts]. unfold bind. rewrite send_single_message_spec.
    destruct (configured s) eqn:Hconf.
    + rewrite IH. change (configured (set_requests (requests s ++ [p]) s))
        with (configured s). rewrite Hconf.
      cbn [requests set_requests all_sent]. rewrite length_app, <- app_assoc.
      cbn [length List.app]. replace (length (requests s) + 1)%nat
        with (S (length (requests s))) by lia.
      destruct (post (length (requests s)) p) as [[]|e]; cbn [negb andb];
        [reflexivity|]. now rewrite andb_false_r.
    + rewrite IH, Hconf. cbn [negb nonempty andb]. now rewrite andb_false_r.
Qed.

Lemma parts_to_send_spec (message : pystr) :
  parts_to_send message <> []
  /\ Forall (fun part => len part <= 4000) (parts_to_send message).
Proof.
  unfold parts_to_send.
  destruct (Z.gtb_spec (len message) 4000) as [Hlong | Hshort].
  - destruct (split_loop_spec 4000 ltac:(lia) (S (length message)) message [])
      as (parts & gaps & Hrun & Hparts & _ & _ & _ & Hnil & _); [lia|].
    unfold split_long_message. rewrite Hrun. cbn [default from_option id List.app].
    split.
    { intros Hn. apply Hnil in Hn. rewrite Hn in Hlong.
      unfold len in Hlong. simpl in Hlong. lia. }
    exact Hparts.
  - split; [discriminate|]. repeat constructor; lia.
Qed.


(** [send_to_telegram] in closed form. *)
Lemma send_to_telegram_spec post (now : T) (message : pystr) s :
  let text := clean_telegram_message isprintable message in
  let parts := parts_to_send text in
  send_to_telegram isprintable hash post now message s
  = if debounced hash now text s then (Ok false, s)
    else if configured s then
      let sent := set_requests (requests s ++ parts) s in
      if all_sent post (length (requests s)) parts
      then (Ok true, set_last_sent (hash text) now sent)
      else (Ok false, sent)
    else (Ok false, s).
Proof.
  cbv zeta. unfold send_to_telegram, debounced, hash_eqb, catch.
  unfold bind at 1. unfold get at 1. cbv beta iota.
  set (text := clean_telegram_message isprintable message).
  destruct (match _last_sent_hash s with Some h' => hash text =? h' | None => false end
            && Context.t_gtb (_debounce_seconds s)
                 (Context.t_sub now (_last_sent_time s))); [reflexivity|].
  pose proof (parts_to_send_spec text) as [Hne _].
  unfold parts_to_send in *.
  destruct (len text >? 4000).
  - unfold bind. rewrite send_parts_spec. cbn [andb].
    destruct (configured s).
    + destruct (all_sent post (length (requests s)) _); reflexivity.
    + destruct (default [] (split_long_message text 4000)); [congruence | reflexivity].
  - unfold bind. rewrite send_single_message_spec. cbn [all_sent].
    destruct (configured s); [|reflexivity].
    destruct (post (length (requests s)) text) as [[]|e]; reflexivity.
Qed.

(** X16. [send_to_telegram] never raises.  It posts nothing and changes
    nothing when the message, cleaned, has the hash of the last one sent and
    comes within the debounce time of it, or when the token or the chat id
    is missing.  Otherwise it makes one request per part, in order, for the
    cleaned message or, above 4000 characters, for its parts, none of them
    longer than 4000, and it goes on after a request that fails; it returns
    true exactly when every request went through, and only then records the
    hash and the time. *)
Theorem X16_send_to_telegram post (now : T) (message : pystr) s :
  let text := clean_telegram_message isprintable message in
  let parts := parts_to_send text in
  exists ok s',
    send_to_telegram isprintable hash post now message s = (Ok ok, s')
    /\ parts <> [] /\ Forall (fun part => len part <= 4000) parts
    /\ (debounced hash now text s = true \/ configured s = false ->
        ok = false /\ s' = s)
    /\ (debounced hash now text s = false -> configured s = true ->
        requests s' = requests s ++ parts
        /\ ok = all_sent post (length (requests s)) parts)
    /\ (ok = true ->
        _last_sent_hash s' = Some (hash text) /\ _last_sent_time s' = now)
    /\ (ok = false ->
        _last_sent_hash s' = _last_sent_hash s
        /\ _last_sent_time s' = _last_sent_time s).
Proof.
  cbv zeta. rewrite send_to_telegram_spec. cbv zeta.
  set (text := clean_telegram_message isprintable message).
  destruct (parts_to_send_spec text) as [Hne Hlen].
  destruct (debounced hash now text s) eqn:Hdeb;
    [|destruct (configured s) eqn:Hconf;
      [destruct (all_sent post (length (requests s)) (parts_to_send text)) eqn:Hall|]];
    (eexists; eexists; split; [reflexivity|]);
    (split; [exact Hne|]); (split; [exact Hlen|]);
    repeat split; try discriminate; try reflexivity; try congruence;
    try (intros [Habs | Habs]; discriminate Habs);
    match goal with Habs : _ \/ _ |- _ => destruct Habs; discriminate end.
Qed.

(** X17. A message that was sent is not sent again within the debounce
    time: after a call that returned true at [now], a call with the same
    message at [now2], the debounce time being more than [now2 - now],
    returns false, makes no request and changes nothing. *)
Theorem X17_debounce post post2 (now now2 : T) (message : pystr) s :
  let s1 := snd (send_to_telegram isprintable hash post now message s) in
  fst (send_to_telegram isprintable hash post now message s) = Ok true ->
  Context.t_gtb (_debounce_seconds s) (Context.t_sub now2 now) = true ->
  send_to_telegram isprintable hash post2 now2 message s1 = (Ok false, s1).
Proof.
  cbv zeta. rewrite (send_to_telegram_spec post now message s). cbv zeta.
  set (text := clean_telegram_message isprintable message).
  destruct (debounced hash now text s); [discriminate|].
  destruct (configured s); [|discriminate].
  destruct (all_sent post (length (requests s)) (parts_to_send text)); [|discriminate].
  intros _ Hwindow. cbn [snd].
  rewrite send_to_telegram_spec. cbv zeta. fold text.
  unfold debounced. cbn [_last_sent_hash _last_sent_time _debounce_seconds
                        set_last_sent set_requests].
  now rewrite Z.eqb_refl, Hwindow.
Qed.

(** [process_clipboard] in closed form. *)
Lemma process_clipboard_spec (env : CopyEnv) post (now : T) s :
  process_clipboard isprintable hash env post now s
  = match taken env with
    | None => (Ok tt, s)
    | Some new =>
      (Ok tt, snd (send_to_telegram isprintable hash post now new
                     (set_last_clipboard_content new s)))
    end.
Proof.
  unfold process_clipboard, copy_selected_text, taken.
  unfold bind at 1. unfold catch at 1. unfold bind at 1. unfold lift at 1.
  destruct (paste_before env) as [old|e]; [|reflexivity].
  unfold bind at 1. unfold lift at 1.
  destruct (keys env) as [[]|e]; [|reflexivity].
  unfold bind at 1. unfold lift at 1.
  destruct (paste_after env) as [new|e]; [|reflexivity].
  destruct (truthy new && negb (PyStr.eqb new old)) eqn:Hnew; [|reflexivity].
  unfold bind at 1. unfold modify at 1. unfold ret at 1.
  unfold bind at 1. unfold get at 1.
  cbn [last_clipboard_content set_last_clipboard_content andb].
  apply andb_prop in Hnew as [-> _].
  unfold bind. rewrite send_to_telegram_spec. cbv zeta.
  repeat match goal with |- context [if ?c then _ else _] => destruct c end;
    reflexivity.
Qed.

Lemma eqb_eq (a b : pystr) : PyStr.eqb a b = true -> a = b.
Proof.
  revert b. induction a as [|x a IH]; intros [|y b]; cbn; try discriminate; [reflexivity|].
  intros [Hxy Hab]%andb_prop. apply N.eqb_eq in Hxy as ->. now rewrite (IH b Hab).
Qed.

(** X18. [process_clipboard] never raises.  Unless every call to the
    clipboard and the keyboard returned and the clipboard then holds a text
    that is neither empty nor what it held before the copy, it makes no
    request and changes nothing: pressing the key again on the same
    selection sends nothing, however long ago the first press was.
    Otherwise it records the new text and makes either no request or the
    requests of [send_to_telegram] for it, one per part. *)
Theorem X18_process_clipboard (env : CopyEnv) post (now : T) s :
  exists s',
    process_clipboard isprintable hash env post now s = (Ok tt, s')
    /\ (taken env = None -> s' = s)
    /\ (forall old, paste_before env = Ok old -> paste_after env = Ok old -> s' = s)
    /\ (forall new, taken env = Some new ->
        new <> [] /\ paste_after env = Ok new /\ paste_before env <> Ok new
        /\ last_clipboard_content s' = new
        /\ (requests s' = requests s
            \/ requests s'
               = requests s ++ parts_to_send (clean_telegram_message isprintable new))).
Proof.
  rewrite process_clipboard_spec.
  assert (forall old, paste_before env = Ok old -> paste_after env = Ok old ->
            taken env = None) as Hsame.
  { intros old Hb Ha. unfold taken. rewrite Hb, Ha.
    destruct (keys env); [|reflexivity].
    now rewrite TranscriberFacts.eqb_refl, andb_false_r. }
  destruct (taken env) as [new|] eqn:Htaken.
  - eexists. split; [reflexivity|]. split; [discriminate|].
    split; [intros old Hb Ha; discriminate (Hsame old Hb Ha)|].
    intros new0 [= <-].
    assert (new <> [] /\ paste_after env = Ok new /\ paste_before env <> Ok new)
      as (Hne & Hafter & Hbefore).
    { revert Htaken. unfold taken.
      destruct (paste_before env) as [old|]; [|discriminate].
      destruct (keys env); [|discriminate].
      destruct (paste_after env) as [new'|]; [|discriminate].
      destruct (truthy new' && negb (PyStr.eqb new' old)) eqn:Hc; [|discriminate].
      intros [= ->]. apply andb_prop in Hc as [Ht Hd].
      split; [intros ->; discriminate Ht|]. split; [reflexivity|].
      intros [= ->]. now rewrite TranscriberFacts.eqb_refl in Hd. }
    split; [exact Hne|]. split; [exact Hafter|]. split; [exact Hbefore|].
    rewrite send_to_telegram_spec. cbv zeta.
    repeat match goal with |- context [if ?c then _ else _] => destruct c end;
      cbn [snd last_clipboard_content requests set_last_sent set_requests
           set_last_clipboard_content];
      (split; [reflexivity|]); auto.
  - exists s. split; [reflexivity|]. split; [reflexivity|].
    split; [reflexivity|]. discriminate.
Qed.

End Sending.

Lemma X17_debounce_witness :
  let s1 := snd (demo_send (fun _ _ => Ok tt) 100 (lit "hello") demo_sender) in
  demo_send (fun _ _ => Raise OSError) 101 (lit "hello") s1 = (Ok false, s1).
Proof.
  cbv zeta.
  apply (X17_debounce (H:=Context.TimeOps_Z) demo_isprintable demo_hash
           (fun _ _ => Ok tt) (fun _ _ => Raise OSError) 100 101 (lit "hello")
           demo_sender);
    vm_compute; reflexivity.
Defined.

End ClipboardFacts.

(** ** The streamed answer *)

Module StreamingFacts.
Import Context Streaming.

Section Facts.

Context {T : Type} `{TimeOps T}.
Variable loads : pystr -> result json.

Implicit Types (s : Solver T) (calls : list (effect T)).

Lemma after_calls_nil s : after_calls [] s = s.
Proof. destruct s. unfold after_calls. cbn. now rewrite app_nil_r. Qed.

Lemma after_calls_app calls calls' s :
  after_calls calls' (after_calls calls s) = after_calls (calls ++ calls') s.
Proof. unfold after_calls. cbn. now rewrite app_assoc. Qed.

Lemma forwarded_app calls calls' :
  forwarded (calls ++ calls') = forwarded calls ++ forwarded calls'.
Proof. unfold forwarded. apply omap_app. Qed.

(** The loop: the calls it makes are to the sender, each with a buffer that
    is not empty; what it has handed over and what is left in the buffer
    make up, in order, the buffer it began with and the pieces it added. *)
Lemma stream_loop_spec (lines : list (Line T)) :
  forall (buffer : pystr) (full : list pystr) (last_send : T) s,
  exists r calls,
    stream_loop loads lines buffer full last_send s = (r, after_calls calls s)
    /\ Forall (fun e => exists b, e = SendToTelegram b /\ b <> []) calls
    /\ (telegram_sender s = false -> calls = [])
    /\ forall buffer' full',
         r = Ok (buffer', full') ->
         exists new,
           full' = full ++ new
           /\ Forall (fun p => p <> []) new
           /\ (telegram_sender s = true ->
               concat (forwarded calls) ++ buffer' = buffer ++ concat new).
Proof.
  induction lines as [|l rest IH]; intros buffer full last_send s.
  - exists (Ok (buffer, full)), []. rewrite after_calls_nil.
    split; [reflexivity|]. split; [constructor|]. split; [reflexivity|].
    intros buffer' full' [= <- <-]. exists []. rewrite !app_nil_r.
    split; [reflexivity|]. split; [constructor | reflexivity].
  - cbn [stream_loop].
    destruct (payload (raw_line l)) as [line|]; [|apply IH].
    destruct (piece_of loads line) as [piece|e]; [|apply IH].
    destruct (Py.truth piece) eqn:Htruth; [|apply IH].
    destruct piece as [| | | |p| |]; cbn [as_str];
      try (exists (Raise TypeError), []; rewrite after_calls_nil;
           split; [reflexivity|]; split; [constructor|]; split; [reflexivity|];
           intros ? ? Habs; discriminate Habs).
    unfold bind at 1. unfold lift at 1. cbv beta iota.
    assert (p <> []) as Hp by (intros ->; discriminate Htruth).
    destruct ((len (buffer ++ p) >=? 200) || has_blank_line (buffer ++ p)
              || t_gtb (t_sub (piece_clock l) last_send) (of_int 1)).
    + unfold bind at 1. unfold get at 1. cbv beta iota.
      destruct (telegram_sender s) eqn:Hsender.
      * unfold bind at 1. unfold call, modify. cbv beta iota.
        destruct (IH [] (full ++ [p]) (piece_clock l)
                    (after_calls [SendToTelegram (buffer ++ p)] s))
          as (r & calls & Hrun & Hcalls & _ & Hres).
        exists r, (SendToTelegram (buffer ++ p) :: calls).
        rewrite Hrun, after_calls_app. split; [reflexivity|].
        split.
        { constructor; [|exact Hcalls]. eexists. split; [reflexivity|].
          intros Hnil. apply app_eq_nil in Hnil as [_ Hnil]. contradiction. }
        split; [discriminate|].
        intros buffer' full' Hr. destruct (Hres buffer' full' Hr) as (new & -> & Hnew & Hcat).
        exists (p :: new). rewrite <- app_assoc. split; [reflexivity|].
        split; [now constructor|]. intros _.
        change (forwarded (SendToTelegram (buffer ++ p) :: calls))
          with ((buffer ++ p) :: forwarded calls).
        cbn [concat]. rewrite <- !app_assoc, (Hcat Hsender). reflexivity.
      * unfold bind at 1. unfold ret at 1. cbv beta iota.
        destruct (IH [] (full ++ [p]) (piece_clock l) s)
          as (r & calls & Hrun & Hcalls & Hnone & Hres).
        exists r, calls. split; [exact Hrun|]. split; [exact Hcalls|].
        split; [intros _; now apply Hnone|].
        intros buffer' full' Hr. destruct (Hres buffer' full' Hr) as (new & -> & Hnew & _).
        exists (p :: new). rewrite <- app_assoc. split; [reflexivity|].
        split; [now constructor | discriminate].
    + destruct (IH (buffer ++ p) (full ++ [p]) last_send s)
        as (r & calls & Hrun & Hcalls & Hnone & Hres).
      exists r, calls. split; [exact Hrun|]. split; [exact Hcalls|].
      split; [exact Hnone|].
      intros buffer' full' Hr. destruct (Hres buffer' full' Hr) as (new & -> & Hnew & Hcat).
      exists (p :: new). rewrite <- app_assoc. split; [reflexivity|].
      split; [now constructor|]. intros Hs. rewrite (Hcat Hs).
      cbn [concat]. now rewrite <- app_assoc.
Qed.

(** The [finally] clause. *)
Lemma close_spec (outcome : result unit) s :
  catch (call Close ;;; lift outcome) (fun _ => ret tt) s
  = (Ok tt, after_calls [Close] s).
Proof.
  unfold catch, bind, call, modify, lift, ret. now destruct outcome as [[]|e].
Qed.

(** What a call of [send_to_api_streaming] does. *)
Lemma send_to_api_streaming_spec (env : StreamEnv T) s :
  exists answer calls s',
    send_to_api_streaming loads env s = (Ok answer, s')
    /\ trace s' = trace s ++ calls
    /\ telegram_sender s' = telegram_sender s
    /\ Forall (fun b => b <> []) (forwarded calls)
    /\ (telegram_sender s = false -> forwarded calls = [])
    /\ (forall e, post_outcome env = Raise e ->
        answer = None /\ forwarded calls = [] /\ ~ In Close calls)
    /\ (forall a, answer = Some a ->
        a <> [] /\ strip a = a
        /\ last_request_time s' = final_clock env
        /\ last calls = Some Close
        /\ (telegram_sender s = true -> a = strip (concat (forwarded calls)))).
Proof.
  unfold send_to_api_streaming. unfold bind at 1. unfold get at 1. cbv beta iota.
  set (wait := t_sub (RATE_LIMIT_DELAY s) (t_sub (request_clock env) (last_request_time s))).
  set (calls0 := if t_gtb (RATE_LIMIT_DELAY s)
                      (t_sub (request_clock env) (last_request_time s))
                 then [Sleep wait] else []).
  assert ((if t_gtb (RATE_LIMIT_DELAY s)
                (t_sub (request_clock env) (last_request_time s))
           then call (Sleep wait) else ret tt) s = (Ok tt, after_calls calls0 s)) as Hpre.
  { unfold calls0. destruct (t_gtb _ _); [reflexivity|].
    unfold ret. now rewrite after_calls_nil. }
  assert (forwarded calls0 = [] /\ ~ In Close calls0) as [Hfw0 Hclose0].
  { unfold calls0. destruct (t_gtb _ _); split; try reflexivity; cbn; intuition discriminate. }
  unfold bind at 1. rewrite Hpre.
  destruct (post_outcome env) as [[]|e0] eqn:Hpost.
  2:{ exists None, calls0, (after_calls calls0 s). unfold ret.
      split; [reflexivity|]. split; [reflexivity|]. split; [reflexivity|].
      rewrite Hfw0. split; [constructor|]. split; [reflexivity|].
      split; [intros e _; repeat split; assumption|]. intros a Habs. discriminate Habs. }
  destruct (stream_loop_spec (lines env) [] [] (of_int 0) (after_calls calls0 s))
    as (r & calls1 & Hrun & Hcalls1 & Hnone1 & Hres1).
  assert (Forall (fun b : pystr => b <> []) (forwarded calls1)) as Hfw1.
  { clear - Hcalls1. induction Hcalls1 as [|e calls (b & -> & Hb) _ IH]; [constructor|].
    change (forwarded (SendToTelegram b :: calls)) with (b :: forwarded calls).
    now constructor. }
  assert (forall tail (t : T) answer,
            (forall a, answer = Some a ->
                       a <> [] /\ strip a = a
                       /\ (telegram_sender s = true ->
                           a = strip (concat (forwarded (calls1 ++ tail))))) ->
            Forall (fun b => b <> []) (forwarded tail) ->
            (telegram_sender s = false -> forwarded tail = []) ->
            (answer <> None -> t = final_clock env) ->
            exists calls s',
              (Ok answer,
               after_calls [Close]
                 (set_last_request_time t
                    (after_calls tail (after_calls calls1 (after_calls calls0 s)))))
              = (Ok answer, s')
              /\ trace s' = trace s ++ calls
              /\ telegram_sender s' = telegram_sender s
              /\ Forall (fun b => b <> []) (forwarded calls)
              /\ (telegram_sender s = false -> forwarded calls = [])
              /\ (forall e, Ok tt = Raise e ->
                  answer = None /\ forwarded calls = [] /\ ~ In Close calls)
              /\ (forall a, answer = Some a ->
                  a <> [] /\ strip a = a
                  /\ last_request_time s' = final_clock env
                  /\ last calls = Some Close
                  /\ (telegram_sender s = true -> a = strip (concat (forwarded calls)))))
    as Hleaf.
  { intros tail t answer Hanswer Htail Htail0 Ht.
    exists (calls0 ++ calls1 ++ tail ++ [Close]). eexists. split; [reflexivity|].
    split; [cbn; now rewrite <- !app_assoc|]. split; [reflexivity|].
    assert (forwarded (calls0 ++ calls1 ++ tail ++ [Close])
            = forwarded (calls1 ++ tail)) as ->.
    { rewrite !forwarded_app, Hfw0. cbn [List.app].
      change (forwarded [Close]) with (@nil pystr). now rewrite app_nil_r. }
    split; [rewrite forwarded_app; apply Forall_app; now split|].
    split.
    { intros Hs. rewrite forwarded_app, (Htail0 Hs), app_nil_r.
      rewrite (Hnone1 Hs). reflexivity. }
    split; [intros e Habs; discriminate Habs|].
    intros a Ha. destruct (Hanswer a Ha) as (Hne & Hstrip & Hcat).
    split; [exact Hne|]. split; [exact Hstrip|].
    split; [cbn; apply Ht; rewrite Ha; discriminate|].
    split; [|exact Hcat].
    rewrite !app_assoc. apply last_snoc. }
  unfold bind at 1. unfold catch at 1. unfold bind at 1. rewrite Hrun.
  destruct r as [[buffer full]|e].
  - destruct (Hres1 buffer full eq_refl) as (new & Hfull & Hnew & Hcat).
    cbn [List.app] in Hfull, Hcat. subst full.
    unfold bind at 1. unfold lift at 1.
    destruct (ending env) as [[]|e].
    + unfold bind at 1.
      set (tail := if truthy buffer && telegram_sender s
                   then [SendToTelegram (T:=T) buffer] else []).
      assert ((if truthy buffer && telegram_sender s
               then call (SendToTelegram buffer) else ret tt)
                (after_calls calls1 (after_calls calls0 s))
              = (Ok tt, after_calls tail (after_calls calls1 (after_calls calls0 s))))
        as ->.
      { unfold tail. destruct (truthy buffer && telegram_sender s); [reflexivity|].
        unfold ret. now rewrite after_calls_nil. }
      unfold bind at 1. unfold modify at 1. cbv beta iota.
      unfold ret at 1. cbv beta iota. unfold bind at 1. rewrite close_spec.
      unfold ret.
      eexists. apply Hleaf.
      * intros a Ha.
        destruct (strip (concat new)) as [|c rest] eqn:Hs; [discriminate Ha|].
        cbn [truthy] in Ha. injection Ha as <-. split; [discriminate|].
        split; [rewrite <- Hs; apply InterleavingFacts.strip_idem|].
        intros Hsender. rewrite <- Hs. f_equal.
        rewrite forwarded_app, concat_app, <- (Hcat Hsender).
        unfold tail. rewrite Hsender, andb_true_r.
        destruct buffer; cbn; now rewrite ?app_nil_r.
      * unfold tail. destruct (truthy buffer && telegram_sender s) eqn:Hb;
          [|constructor].
        repeat constructor. destruct buffer; [discriminate Hb | discriminate].
      * intros Hs. unfold tail. now rewrite Hs, andb_false_r.
      * reflexivity.
    + unfold ret at 1. cbv beta iota. unfold bind at 1. rewrite close_spec.
      unfold ret. exists None.
      replace (after_calls calls1 (after_calls calls0 s))
        with (set_last_request_time (last_request_time s)
                (after_calls [] (after_calls calls1 (after_calls calls0 s))))
        by (rewrite after_calls_nil; now destruct s).
      apply Hleaf; try (intros ? Habs; discriminate Habs); try constructor;
        try reflexivity. intros Habs. congruence.
  - unfold ret at 1. cbv beta iota. unfold bind at 1. rewrite close_spec.
    unfold ret. exists None.
    replace (after_calls calls1 (after_calls calls0 s))
      with (set_last_request_time (last_request_time s)
              (after_calls [] (after_calls calls1 (after_calls calls0 s))))
      by (rewrite after_calls_nil; now destruct s).
    apply Hleaf; try (intros ? Habs; discriminate Habs); try constructor;
      try reflexivity. intros Habs. congruence.
Qed.

(** X19. [send_to_api_streaming] never raises.  Every buffer it hands to
    the sender is non-empty, and without a sender it hands over nothing.
    When it returns an answer, the answer is not empty and is trimmed, the
    time of the request is recorded, the response was closed last, and, with
    a sender, the buffers handed over, put together and trimmed, are the
    answer: every piece was forwarded once, in order, and no answer comes
    back without something having been forwarded.  When the request fails
    nothing is forwarded and there is no response to close. *)
Theorem X19_streamed_answer (env : StreamEnv T) s :
  exists answer calls s',
    send_to_api_streaming loads env s = (Ok answer, s')
    /\ trace s' = trace s ++ calls
    /\ telegram_sender s' = telegram_sender s
    /\ Forall (fun b => b <> []) (forwarded calls)
    /\ (telegram_sender s = false -> forwarded calls = [])
    /\ (forall e, post_outcome env = Raise e ->
        answer = None /\ forwarded calls = [] /\ ~ In Close calls)
    /\ (forall a, answer = Some a ->
        a <> [] /\ strip a = a
        /\ last_request_time s' = final_clock env
        /\ last calls = Some Close
        /\ (telegram_sender s = true ->
            a = strip (concat (forwarded calls)) /\ forwarded calls <> [])).
Proof.
  destruct (send_to_api_streaming_spec env s)
    as (answer & calls & s' & Hrun & Htrace & Hsender & Hbuffers & Hnone & Hpost & Hanswer).
  exists answer, calls, s'. repeat (split; [assumption|]).
  intros a Ha. destruct (Hanswer a Ha) as (Hne & Hstrip & Htime & Hlast & Hcat).
  repeat (split; [assumption|]).
  intros Hs. split; [now apply Hcat|].
  intros Hnil. apply Hne. rewrite (Hcat Hs), Hnil. reflexivity.
Qed.

End Facts.

End StreamingFacts.

(** ** A question from the meeting *)

Module AnalystFacts.
Import Context ContextFacts Dialogue Streaming Analyst.

Section Facts.

Context {T : Type} `{TimeOps T}.
Variable loads : pystr -> result json.

Implicit Types (w : World T) (m : Manager T).

(** X20. [process_analyst_question] does nothing for an empty question or
    one of fewer than five characters once trimmed.  Otherwise, with a
    context manager whose bound is not negative, it returns; the prompt it
    sends is the one for a new topic exactly when the manager holds neither
    a summary nor a turn; the solver is left as [send_to_api_streaming]
    leaves it; and a turn is added exactly when an answer came back: the
    question as given, not trimmed, with the answer, trimmed and not empty,
    after the turns held, the oldest being dropped beyond the bound. *)
Theorem X20_process_analyst_question (question : pystr) (env : AnalystEnv T) w m :
  context_manager w = Some m ->
  0 <= max_recent_entries m ->
  (truthy question = false \/ len (strip question) < 5 ->
   process_analyst_question loads question env w = (Ok tt, w))
  /\ (truthy question = true -> 5 <= len (strip question) ->
      let prompt := prompt_for (get_context_for_query question m) question in
      let streamed := send_to_api_streaming loads (respond env prompt) (solver_state w) in
      (prompt = system_role ++ topic_prompt_head ++ question ++ topic_prompt_tail
       <-> summary m = [] /\ recent m = [])
      /\ exists m',
           process_analyst_question loads question env w
           = (Ok tt, mkWorld (Some m') (snd streamed))
           /\ match fst streamed with
              | Ok (Some a) =>
                let e := mkQAEntry question a (add_now env)
                           (_estimate_tokens (question ++ a)) in
                a <> [] /\ strip a = a
                /\ recent m'
                   = drop (length (recent m ++ [e]) - Z.to_nat (max_recent_entries m))
                       (recent m ++ [e])
              | _ => m' = m
              end).
Proof.
  intros Hmgr Hmax. split.
  - intros Hshort. unfold process_analyst_question.
    destruct Hshort as [-> | Hlen]; [reflexivity|].
    destruct (Z.ltb_spec (len (strip question)) 5); [|lia].
    now rewrite orb_true_r.
  - intros Hq Hlen. cbv zeta. split.
    + unfold prompt_for.
      pose proof (DialogueFacts.renderings_of_nothing question m) as Hnothing.
      destruct (get_context_for_query question m) as [|c ctx] eqn:Hctx; cbn [truthy].
      * split; [intros _|reflexivity].
        destruct (summary m) eqn:Hs; [destruct (recent m) eqn:Hr; [now split|]|].
        -- destruct (DialogueFacts.get_context_for_query_head question m)
             as (c & tail & Habs & _); [right; rewrite Hr; discriminate | congruence].
        -- destruct (DialogueFacts.get_context_for_query_head question m)
             as (c & tail & Habs & _); [left; rewrite Hs; discriminate | congruence].
      * split; [|intros [Hs Hr]; destruct (Hnothing Hs Hr) as [Habs _]; congruence].
        intros Heq. exfalso. apply app_inv_head in Heq.
        revert Heq. unfold context_prompt_head, topic_prompt_head.
        DialogueFacts.eval_lits. cbn [join List.app nl]. discriminate.
    + unfold process_analyst_question. rewrite Hq. cbn [negb orb].
      destruct (Z.ltb_spec (len (strip question)) 5); [lia|].
      unfold bind at 1. unfold get at 1. cbv beta iota. rewrite Hmgr.
      unfold bind at 1. unfold on_solver at 1.
      set (prompt := prompt_for (get_context_for_query question m) question).
      destruct (StreamingFacts.send_to_api_streaming_spec loads (respond env prompt)
                  (solver_state w))
        as (answer & calls & s' & Hrun & _ & _ & _ & _ & _ & Hanswer).
      rewrite Hrun. cbn [fst snd]. unfold bind at 1. unfold get at 1. cbv beta iota.
      cbn [context_manager]. rewrite Hmgr.
      destruct answer as [a|]; [|exists m; unfold ret; rewrite <- Hmgr; now destruct w].
      destruct (Hanswer a eq_refl) as (Hne & Hstrip & _).
      replace (truthy a) with true by (destruct a; [congruence | reflexivity]).
      unfold on_manager.
      destruct (add_qa_spec (add_now env) (add_current_time env) question a m)
        as (r & k & m' & Hadd & Hrecent & _ & _ & _ & _ & _ & Hok).
      destruct (Hok Hmax) as (-> & -> & _).
      rewrite Hadd. cbn [solver_state]. exists m'. split; [reflexivity|].
      cbv zeta. split; [exact Hne|]. split; [exact Hstrip | exact Hrecent].
Qed.

End Facts.

Lemma X20_process_analyst_question_witness :
  process_analyst_question demo_loads (lit " ok ") demo_analyst_env demo_world
  = (Ok tt, demo_world)
  /\ exists m',
       process_analyst_question demo_loads (lit "When is it due?") demo_analyst_env
         demo_world
       = (Ok tt,
          mkWorld (Some m')
            (snd (send_to_api_streaming demo_loads demo_response
                    (solver_state demo_world)))).
Proof.
  assert (0 <= max_recent_entries (init (T:=Z) 10 1200 900 None)) as Hmax
    by (cbn; lia).
  split.
  - apply (proj1 (X20_process_analyst_question (T:=Z) demo_loads (lit " ok ")
                    demo_analyst_env demo_world _ eq_refl Hmax)).
    right. vm_compute. reflexivity.
  - destruct (proj2 (X20_process_analyst_question (T:=Z) demo_loads
                       (lit "When is it due?") demo_analyst_env demo_world _
                       eq_refl Hmax) eq_refl)
      as [_ (m' & Hrun & _)].
    + vm_compute. discriminate.
    + exists m'. exact Hrun.
Defined.

End AnalystFacts.

(** ** The hotkeys *)

Module HotkeysFacts.
Import Hotkeys.

Lemma rounds_snoc (n : nat) :
  rounds n ++ [StartRecording; ProcessAudioQuestion] = rounds (S n).
Proof. induction n as [|n IH]; [reflexivity|]. cbn [rounds List.app]. now rewrite IH. Qed.

Lemma recording_snoc (l : list action) (a : action) :
  recording (l ++ [a]) = recording l ++ recording [a].
Proof. unfold recording. apply List.filter_app. Qed.

Lemma reports_snoc (l : list action) (a : action) :
  reports (l ++ [a]) = reports l ++ reports [a].
Proof. unfold reports. apply List.filter_app. Qed.

Ltac run_handler :=
  unfold ignoring_attribute_error, act, catch, bind, get, modify, lift, ret, raise;
  cbn [is_ctrl num_lock_pressed ctrl_pressed started set_num_lock_pressed
       set_ctrl_pressed negb andb].

Lemma in_step_press (outcome : action -> result unit) (k : key) (s : Keys) :
  is_ctrl k = false -> in_step s -> in_step (snd (on_press outcome k s)).
Proof.
  intros Hk (Hctrl & Hreports & n & Hrec).
  destruct s as [num ctrl acts].
  cbn [ctrl_pressed started num_lock_pressed] in Hctrl, Hreports, Hrec. subst ctrl.
  assert (forall a, reports [a] = [] -> recording [a] = [] ->
            in_step (mkKeys num false (acts ++ [a]))) as Hother.
  { intros a Ha Hb. split; [reflexivity|]. split.
    - cbn [started]. now rewrite reports_snoc, Hreports, Ha.
    - exists n. cbn [started num_lock_pressed].
      now rewrite recording_snoc, Hb, app_nil_r. }
  destruct k; try discriminate Hk; unfold on_press; run_handler.
  - destruct num; cbn [negb snd].
    + split; [reflexivity|]. split; [exact Hreports|]. now exists n.
    + assert (in_step (mkKeys true false (acts ++ [StartRecording]))) as Hstart.
      { split; [reflexivity|]. split.
        - cbn [started]. now rewrite reports_snoc, Hreports.
        - exists n. cbn [started num_lock_pressed].
          rewrite recording_snoc, Hrec, app_nil_r. reflexivity. }
      destruct (outcome StartRecording) as [[]|[]]; exact Hstart.
  - split; [reflexivity|]. split; [exact Hreports|]. now exists n.
  - split; [reflexivity|]. split; [exact Hreports|]. now exists n.
  - split; [reflexivity|]. split; [exact Hreports|]. now exists n.
  - destruct (outcome ProcessSqlTask) as [[]|[]]; now apply Hother.
  - destruct (outcome TogglePause) as [[]|[]]; now apply Hother.
  - destruct (outcome ProcessClipboard) as [[]|[]]; now apply Hother.
  - split; [reflexivity|]. split; [exact Hreports|]. now exists n.
Qed.

Lemma in_step_release (outcome : action -> result unit) (k : key) (s : Keys) :
  is_ctrl k = false -> in_step s -> in_step (snd (on_release outcome k s)).
Proof.
  intros Hk (Hctrl & Hreports & n & Hrec).
  destruct s as [num ctrl acts].
  cbn [ctrl_pressed started num_lock_pressed] in Hctrl, Hreports, Hrec. subst ctrl.
  destruct k; try discriminate Hk; unfold on_release; run_handler;
    try (split; [reflexivity|]; split; [exact Hreports|]; now exists n).
  destruct num; cbn [negb snd].
  - assert (in_step (mkKeys false false (acts ++ [ProcessAudioQuestion]))) as Hstop.
    { split; [reflexivity|]. split.
      - cbn [started]. now rewrite reports_snoc, Hreports.
      - exists (S n). cbn [started num_lock_pressed].
        rewrite recording_snoc, Hrec, app_nil_r, <- app_assoc. apply rounds_snoc. }
    destruct (outcome ProcessAudioQuestion) as [[]|[]]; exact Hstop.
  - split; [reflexivity|]. split; [exact Hreports|]. now exists n.
Qed.

(** X21. While no Ctrl key is touched, whatever else is pressed and
    released, in any order and with any repetition, and whatever the calls
    do: no report is started, and the recording is started and stopped in
    turn, beginning with a start, the last start being without its stop
    exactly when the NumLock flag is set.  A NumLock press that repeats
    without a release starts nothing. *)
Theorem X21_recording_alternates (outcome : action -> result unit) (events : list event) :
  Forall (fun e => is_ctrl (key_of e) = false) events ->
  let s' := snd (listen outcome events released) in
  ctrl_pressed s' = false
  /\ reports (started s') = []
  /\ exists n,
       recording (started s')
       = rounds n ++ (if num_lock_pressed s' then [StartRecording] else []).
Proof.
  intros Hevents. cbv zeta.
  assert (in_step released) as Hinit.
  { split; [reflexivity|]. split; [reflexivity|]. now exists 0%nat. }
  revert Hinit. generalize released.
  induction Hevents as [|e events He _ IH]; intros s Hs; [exact Hs|].
  destruct e as [k|k]; cbn [listen key_of] in *; unfold bind.
  - pose proof (in_step_press outcome k s He Hs) as Hstep.
    destruct (on_press outcome k s) as [[[]|err] s1]; cbn [snd] in *;
      [now apply IH | exact Hstep].
  - pose proof (in_step_release outcome k s He Hs) as Hstep.
    destruct (on_release outcome k s) as [[[]|err] s1]; cbn [snd] in *;
      [now apply IH | exact Hstep].
Qed.

Lemma X21_recording_alternates_witness :
  let s' := snd (listen (fun _ => Ok tt)
                   [Press NumLock; Press NumLock; Press F8; Release NumLock;
                    Release NumLock; Press NumLock]
                   released) in
  ctrl_pressed s' = false
  /\ reports (started s') = []
  /\ exists n,
       recording (started s')
       = rounds n ++ (if num_lock_pressed s' then [StartRecording] else []).
Proof.
  apply (X21_recording_alternates (fun _ => Ok tt)
           [Press NumLock; Press NumLock; Press F8; Release NumLock;
            Release NumLock; Press NumLock]).
  repeat constructor.
Defined.

(** With Ctrl in play the starts and stops need not match: Ctrl pressed
    while NumLock is held makes its release set off nothing, so the
    recording is started twice in a row; NumLock pressed while Ctrl is held
    starts nothing, so its release sets off a stop without a start. *)
Example ctrl_breaks_the_turns :
  started (snd (listen (fun _ => Ok tt)
                  [Press NumLock; Press CtrlL; Release NumLock; Release CtrlL;
                   Press NumLock]
                  released))
  = [StartRecording; StartRecording]
  /\ started (snd (listen (fun _ => Ok tt)
                     [Press CtrlL; Press NumLock; Release CtrlL; Release NumLock]
                     released))
     = [ProcessAudioQuestion].
Proof. split; reflexivity. Qed.

End HotkeysFacts.

(** ** The reports *)

Module ReportsFacts.
Import Context Dialogue Streaming Analyst Reports.

Section Facts.

Context {T : Type} `{TimeOps T}.
Variable loads : pystr -> result json.

Implicit Types (w : World T).

(** X22. The thread of a report never raises and leaves the context
    manager alone.  Without a context manager it makes no request and sends
    nothing: the notice the report returns is held back.  With one, and
    with a sender, what reaches the sender is first the buffers of the
    streamed answer and then, when an answer came back, the whole answer
    once more behind the prefix of the report; the buffers, put together
    and trimmed, are that answer.  When no answer came back nothing follows
    the buffers. *)
Theorem X22_report_is_sent_twice (r : report) (respond : pystr -> StreamEnv T) w :
  exists calls w',
    report_thread loads r respond w = (Ok tt, w')
    /\ context_manager w' = context_manager w
    /\ trace (solver_state w') = trace (solver_state w) ++ calls
    /\ (context_manager w = None -> calls = [])
    /\ (forall m, context_manager w = Some m ->
        telegram_sender (solver_state w) = true ->
        exists buffers,
          match fst (send_to_api_streaming loads
                       (respond (report_prompt r (get_full_context m)))
                       (solver_state w)) with
          | Ok (Some a) =>
            strip (concat buffers) = a
            /\ forwarded calls
               = buffers ++ (if PyStr.eqb a not_initialised then []
                             else [report_prefix r ++ nl ++ a])
          | _ => forwarded calls = buffers
          end).
Proof.
  unfold report_thread, run_report. unfold bind at 1. unfold bind at 1.
  unfold get at 1. cbv beta iota.
  destruct (context_manager w) as [m|] eqn:Hmgr.
  - unfold on_solver at 1.
    destruct (StreamingFacts.send_to_api_streaming_spec loads
                (respond (report_prompt r (get_full_context m))) (solver_state w))
      as (answer & calls & s' & Hrun & Htrace & Hsender & _ & _ & _ & Hanswer).
    rewrite Hrun. cbn [fst].
    unfold send_to_telegram_with_prefix. unfold bind at 1. unfold get at 1.
    cbv beta iota. cbn [solver_state context_manager].
    destruct answer as [a|].
    + destruct (Hanswer a eq_refl) as (Hne & _ & _ & _ & Hcat).
      rewrite Hsender.
      replace (truthy a) with true by (destruct a; [congruence | reflexivity]).
      rewrite andb_true_r.
      destruct (telegram_sender (solver_state w)) eqn:Hs; cbn [andb].
      * destruct (PyStr.eqb a not_initialised) eqn:Hplace; cbn [negb].
        -- exists calls. eexists. unfold ret. split; [reflexivity|].
           cbn [context_manager solver_state]. split; [now rewrite ?Hmgr|].
           split; [exact Htrace|]. split; [discriminate|].
           intros m0 [= <-] _. exists (forwarded calls).
           rewrite Hrun. cbn [fst]. rewrite Hplace, app_nil_r.
           split; [symmetry; now apply Hcat | reflexivity].
        -- exists (calls ++ [SendToTelegram (report_prefix r ++ nl ++ a)]).
           eexists. unfold on_solver, call, modify. cbn [solver_state].
           split; [reflexivity|]. cbn [context_manager solver_state after_calls trace].
           split; [now rewrite ?Hmgr|]. split; [now rewrite Htrace, <- app_assoc|].
           split; [discriminate|].
           intros m0 [= <-] _. exists (forwarded calls).
           rewrite Hrun. cbn [fst]. rewrite Hplace.
           split; [symmetry; now apply Hcat|].
           now rewrite StreamingFacts.forwarded_app.
      * exists calls. eexists. unfold ret. split; [reflexivity|].
        cbn [context_manager solver_state]. split; [now rewrite ?Hmgr|].
        split; [exact Htrace|]. split; [discriminate|].
        intros m0 _ Habs. discriminate Habs.
    + exists calls. eexists. unfold ret. split; [reflexivity|].
      cbn [context_manager solver_state]. split; [now rewrite ?Hmgr|].
      split; [exact Htrace|]. split; [discriminate|].
      intros m0 [= <-] _. exists (forwarded calls). rewrite Hrun. reflexivity.
  - unfold ret at 1. cbv beta iota.
    unfold send_to_telegram_with_prefix. unfold bind at 1. unfold get at 1.
    cbv beta iota.
    assert (PyStr.eqb not_initialised not_initialised = true) as ->
      by apply TranscriberFacts.eqb_refl.
    rewrite andb_false_r. exists [], w. unfold ret. rewrite app_nil_r, Hmgr.
    repeat split. intros m Habs. discriminate Habs.
Qed.

End Facts.

End ReportsFacts.

(** ** Typing out a solution *)

Module TypingFacts.
Import Typing.
Local Open Scope typing_scope.

Lemma split_lines_from_line (cur first rest : pystr) :
  Forall (fun c => c <> 0x0A%N) first ->
  split_lines_from cur (first ++ 0x0A%N :: rest)
  = (rev cur ++ first) :: split_lines_from [] rest.
Proof.
  intros Hfirst. revert cur. induction Hfirst as [|c first Hc _ IH]; intros cur.
  - cbn. now rewrite app_nil_r.
  - cbn [List.app split_lines_from].
    destruct (N.eqb_spec c 0x0A) as [->|_]; [congruence|].
    rewrite IH. cbn [rev]. now rewrite <- app_assoc.
Qed.

Lemma split_lines_from_single (cur s : pystr) :
  Forall (fun c => c <> 0x0A%N) s -> split_lines_from cur s = [rev cur ++ s].
Proof.
  intros Hs. revert cur. induction Hs as [|c s Hc _ IH]; intros cur.
  - cbn. now rewrite app_nil_r.
  - cbn [split_lines_from].
    destruct (N.eqb_spec c 0x0A) as [->|_]; [congruence|].
    rewrite IH. cbn [rev]. now rewrite <- app_assoc.
Qed.

Lemma split_lines_from_not_nil (s cur : pystr) : split_lines_from cur s <> [].
Proof.
  revert cur. induction s as [|c s IH]; intros cur; [discriminate|].
  cbn [split_lines_from]. destruct (c =? 10)%N; [discriminate | apply IH].
Qed.

(** *** What a run can have done *)

Lemma pressed_ok_nil (env : TypingEnv) (n : nat) : pressed_ok env n [].
Proof. intros i key Hi. rewrite lookup_nil in Hi. discriminate Hi. Qed.

Lemma pressed_ok_one (env : TypingEnv) (n : nat) (k : keystroke) :
  key_outcome env n k = Ok tt -> pressed_ok env n [k].
Proof.
  intros Hk i key Hi. destruct i as [|i]; cbn in Hi.
  - injection Hi as <-. now rewrite Nat.add_0_r.
  - discriminate Hi.
Qed.

Lemma pressed_ok_app (env : TypingEnv) (n : nat) (a b : list keystroke) :
  pressed_ok env n a -> pressed_ok env (n + length a) b -> pressed_ok env n (a ++ b).
Proof.
  intros Ha Hb i key Hi. apply lookup_app_Some in Hi as [Hi | [Hle Hi]].
  - now apply Ha.
  - specialize (Hb _ _ Hi).
    replace (n + i)%nat with (n + length a + (i - length a))%nat by lia. exact Hb.
Qed.

Lemma sound_leave {A} (env : TypingEnv) (a : A) (s : Typist) : sound env s (leave a s).
Proof.
  exists []. cbn. rewrite app_nil_r. repeat split. apply pressed_ok_nil.
Qed.

Lemma sound_press (env : TypingEnv) (k : keystroke) (s : Typist) :
  sound env s (press env k s).
Proof.
  exists [k]. unfold press. cbn [fst snd typed typing_active].
  split; [reflexivity|]. split; [reflexivity|].
  destruct (key_outcome env (length (typed s)) k) as [[]|e] eqn:Hk.
  - apply pressed_ok_one. exact Hk.
  - exists [], k. split; [reflexivity|]. split; [apply pressed_ok_nil|].
    cbn [length]. rewrite Nat.add_0_r. exact Hk.
Qed.

Lemma sound_wait (env : TypingEnv) (s : Typist) : sound env s (wait env s).
Proof.
  exists []. unfold wait. destruct (held env (polls s)) eqn:Hheld;
    cbn [fst snd typed typing_active polls]; rewrite app_nil_r;
    repeat split; try apply pressed_ok_nil. exact Hheld.
Qed.

Lemma sound_and_next {A B} (env : TypingEnv) (m : W A) (k : A -> W B) (s : Typist) :
  sound env s (m s) -> (forall a s', sound env s' (k a s')) ->
  sound env s (and_next m k s).
Proof.
  intros (keys & Htyped & Hactive & Hm) Hk. unfold and_next.
  destruct (m s) as [[[a|e]|] s1]; cbn [fst snd] in *.
  - destruct (Hk a s1) as (keys' & Htyped' & Hactive' & Hk').
    exists (keys ++ keys'). rewrite Htyped', Htyped, <- app_assoc.
    split; [reflexivity|]. split; [congruence|].
    rewrite Htyped, length_app in Hk'.
    destruct (fst (k a s1)) as [[b|e]|].
    + now apply pressed_ok_app.
    + destruct Hk' as (before & key & -> & Hbefore & Hkey).
      exists (keys ++ before), key. rewrite <- app_assoc. split; [reflexivity|].
      split; [now apply pressed_ok_app|].
      rewrite length_app, <- Hkey. f_equal. lia.
    + destruct Hk' as [Hok Hheld]. split; [now apply pressed_ok_app | exact Hheld].
  - exists keys. auto.
  - exists keys. auto.
Qed.

Lemma sound_type_indent_loop (env : TypingEnv) (missing : nat) :
  forall s, sound env s (type_indent_loop env missing s).
Proof.
  induction missing as [|missing IH]; intros s; cbn [type_indent_loop].
  - apply sound_leave.
  - apply sound_and_next; [apply sound_wait|]. intros _ s1.
    apply sound_and_next; [apply sound_press|]. intros _ s2.
    apply sound_and_next; [|intros _ s3; apply IH].
    exists []. cbn. rewrite app_nil_r. repeat split. apply pressed_ok_nil.
Qed.

Lemma sound_type_line (env : TypingEnv) (line : pystr) :
  forall s, sound env s (_type_line env line s).
Proof.
  induction line as [|c line IH]; intros s; cbn [_type_line].
  - apply sound_leave.
  - apply sound_and_next; [apply sound_wait|]. intros _ s1.
    apply sound_and_next; [apply sound_press|]. intros _ s2. apply IH.
Qed.

Lemma sound_type_lines (env : TypingEnv) (count : Z) (lines : list pystr) :
  forall i s, sound env s (type_lines env i count lines s).
Proof.
  induction lines as [|line rest IH]; intros i s; cbn [type_lines].
  - apply sound_leave.
  - apply sound_and_next; [apply sound_wait|]. intros _ s1.
    apply sound_and_next; [|intros _ s2; apply IH].
    destruct (negb (truthy (strip line))); [apply sound_press|].
    apply sound_and_next; [apply sound_type_indent_loop|]. intros _ s2.
    apply sound_and_next; [apply sound_type_line|]. intros _ s3.
    destruct (i <? count - 1); [apply sound_press | apply sound_leave].
Qed.

(** *** The call *)

(** The call while a typing is under way, or for an empty text. *)
Lemma human_like_typing_guard (env : TypingEnv) (text : pystr) (s : Typist) :
  typing_active s = true \/ text = [] ->
  human_like_typing env text s = (Leaves (Ok tt), s).
Proof.
  intros Hbusy. unfold human_like_typing.
  destruct Hbusy as [-> | ->]; [now rewrite orb_true_r | reflexivity].
Qed.

(** The call on a solver that is not typing, its text not empty. *)
Lemma human_like_typing_idle (env : TypingEnv) (text : pystr) (s : Typist) :
  text <> [] -> typing_active s = false ->
  human_like_typing env text s
  = let s0 := mkTypist true 0 (typed s) (polls s) in
    match focus env with
    | Raise e => (Leaves (Raise e), mkTypist false 0 (typed s) (polls s))
    | Ok _ =>
      let lines := split_lines text in
      let run :=
        if len lines <? 2 then leave tt s0
        else type_lines env 1 (len (clean_lines lines)) (drop 1 (clean_lines lines)) s0 in
      match run with
      | (Leaves r, s') => (Leaves r, mkTypist false 0 (typed s') (polls s'))
      | (Hangs, s') => (Hangs, s')
      end
    end.
Proof.
  intros Htext Hidle. unfold human_like_typing. rewrite Hidle.
  destruct text as [|c text]; [congruence|]. cbn [truthy negb orb].
  unfold typing_body. unfold and_next at 1.
  cbn [set_typing_active set_current_indent typing_active current_indent typed polls].
  destruct (focus env) as [[]|e]; [|reflexivity].
  cbv zeta. destruct (len (split_lines (c :: text)) <? 2); reflexivity.
Qed.

(** The call on a text whose first newline is where [first] ends. *)
Lemma human_like_typing_lines (env : TypingEnv) (first rest : pystr) (s : Typist) :
  Forall (fun c => c <> 0x0A%N) first -> typing_active s = false ->
  human_like_typing env (first ++ 0x0A%N :: rest) s
  = let lines := first :: split_lines rest in
    match focus env with
    | Raise e => (Leaves (Raise e), mkTypist false 0 (typed s) (polls s))
    | Ok _ =>
      match type_lines env 1 (len (clean_lines lines)) (drop 1 (clean_lines lines))
              (mkTypist true 0 (typed s) (polls s)) with
      | (Leaves r, s') => (Leaves r, mkTypist false 0 (typed s') (polls s'))
      | (Hangs, s') => (Hangs, s')
      end
    end.
Proof.
  intros Hfirst Hidle.
  rewrite human_like_typing_idle; [|destruct first; discriminate | exact Hidle].
  cbv zeta. destruct (focus env) as [[]|e]; [|reflexivity].
  unfold split_lines at 1 2 3. rewrite split_lines_from_line by exact Hfirst.
  cbn [rev List.app]. fold (split_lines rest).
  replace (len (first :: split_lines rest) <? 2) with false; [reflexivity|].
  symmetry. apply Z.ltb_ge. unfold len. cbn [length].
  pose proof (split_lines_from_not_nil rest []) as Hlines. unfold split_lines.
  destruct (split_lines_from [] rest); [congruence | cbn [length]; lia].
Qed.

(** X23. [human_like_typing] does nothing while a typing is under way or for
    an empty text, and leaves the flag as it was.  Otherwise the keys it
    presses come after those pressed before, and when it returns or raises
    it leaves [typing_active] unset and [current_indent] at 0: it returns
    only when the focus calls and every key press returned, and an
    exception it raises is that of the focus calls, no key pressed, or that
    of the last key it pressed.  While it waits for [typing_paused] to be
    unset, [typing_active] stays set.  When the focus calls and the key
    presses return and no wait lasts for ever, it returns. *)
Theorem X23_typing_flag (env : TypingEnv) (text : pystr) (s : Typist) :
  (typing_active s = true \/ text = [] ->
   human_like_typing env text s = (Leaves (Ok tt), s))
  /\ (typing_active s = false -> text <> [] ->
      let out := human_like_typing env text s in
      (exists keys,
         typed (snd out) = typed s ++ keys
         /\ match fst out with
            | Leaves r =>
              typing_active (snd out) = false
              /\ current_indent (snd out) = 0
              /\ match r with
                 | Ok _ =>
                   focus env = Ok tt /\ pressed_ok env (length (typed s)) keys
                 | Raise e =>
                   (focus env = Raise e /\ keys = [])
                   \/ (focus env = Ok tt
                       /\ exists before key,
                            keys = before ++ [key]
                            /\ pressed_ok env (length (typed s)) before
                            /\ key_outcome env (length (typed s) + length before) key
                               = Raise e)
                 end
            | Hangs =>
              typing_active (snd out) = true
              /\ focus env = Ok tt
              /\ pressed_ok env (length (typed s)) keys
              /\ held env (polls (snd out)) = true
            end)
      /\ (focus env = Ok tt ->
          (forall n k, key_outcome env n k = Ok tt) ->
          (forall n, held env n = false) ->
          fst out = Leaves (Ok tt))).
Proof.
  split; [apply human_like_typing_guard|].
  intros Hidle Htext. cbv zeta.
  assert (exists keys,
            typed (snd (human_like_typing env text s)) = typed s ++ keys
            /\ match fst (human_like_typing env text s) with
               | Leaves r =>
                 typing_active (snd (human_like_typing env text s)) = false
                 /\ current_indent (snd (human_like_typing env text s)) = 0
                 /\ match r with
                    | Ok _ =>
                      focus env = Ok tt /\ pressed_ok env (length (typed s)) keys
                    | Raise e =>
                      (focus env = Raise e /\ keys = [])
                      \/ (focus env = Ok tt
                          /\ exists before key,
                               keys = before ++ [key]
                               /\ pressed_ok env (length (typed s)) before
                               /\ key_outcome env (length (typed s) + length before) key
                                  = Raise e)
                    end
               | Hangs =>
                 typing_active (snd (human_like_typing env text s)) = true
                 /\ focus env = Ok tt
                 /\ pressed_ok env (length (typed s)) keys
                 /\ held env (polls (snd (human_like_typing env text s))) = true
               end) as Hrun.
  { rewrite human_like_typing_idle by assumption. cbv zeta.
    destruct (focus env) as [[]|e] eqn:Hfocus.
    - set (s0 := mkTypist true 0 (typed s) (polls s)).
      assert (sound env s0
                (if len (split_lines text) <? 2 then leave tt s0
                 else type_lines env 1 (len (clean_lines (split_lines text)))
                        (drop 1 (clean_lines (split_lines text))) s0)) as Hsound.
      { destruct (len (split_lines text) <? 2);
          [apply sound_leave | apply sound_type_lines]. }
      destruct Hsound as (keys & Htyped & Hactive & Hkeys).
      destruct (if len (split_lines text) <? 2 then _ else _) as [[[[]|e]|] s'];
        cbn [fst snd typed typing_active current_indent polls] in *;
        exists keys; (split; [exact Htyped|]).
      + repeat split; try reflexivity. exact Hkeys.
      + repeat split; try reflexivity. right. split; [reflexivity | exact Hkeys].
      + destruct Hkeys as [Hok Hheld]. repeat split; assumption.
    - exists []. cbn [fst snd typed typing_active current_indent].
      rewrite app_nil_r. repeat split; try reflexivity. left. split; reflexivity. }
  split; [exact Hrun|].
  intros Hfocus Hkeys Hfree. destruct Hrun as (keys & _ & Hout).
  destruct (fst (human_like_typing env text s)) as [[[]|e]|]; [reflexivity | |].
  - destruct Hout as (_ & _ & [[Habs _] | (_ & before & key & _ & _ & Habs)]).
    + rewrite Hfocus in Habs. discriminate Habs.
    + rewrite Hkeys in Habs. discriminate Habs.
  - destruct Hout as (_ & _ & _ & Habs). rewrite Hfree in Habs. discriminate Habs.
Qed.

(** *** The keys pressed *)

(** The keys for a text whose first newline is where [first] ends. *)
Lemma keys_for_lines (first rest : pystr) :
  Forall (fun c => c <> 0x0A%N) first ->
  keys_for (first ++ 0x0A%N :: rest)
  = let lines := first :: split_lines rest in
    typed (snd (type_lines calm 1 (len (clean_lines lines)) (drop 1 (clean_lines lines))
                  (mkTypist true 0 [] 0))).
Proof.
  intros Hfirst. unfold keys_for.
  rewrite human_like_typing_lines; [|exact Hfirst | reflexivity].
  cbv zeta. cbn [calm focus idle typed polls].
  destruct (type_lines _ _ _ _ _) as [[r|] s']; reflexivity.
Qed.

(** X24. [human_like_typing] never types the first line of the text: a
    text without a newline makes it press no key, and two texts that differ
    only before their first newline make it press the same keys; whatever
    the key presses and the waits do, the call on the one ends as the call
    on the other. *)
Theorem X24_first_line_not_typed :
  (forall text, Forall (fun c => c <> 0x0A%N) text -> keys_for text = [])
  /\ (forall first first' rest,
        Forall (fun c => c <> 0x0A%N) first ->
        Forall (fun c => c <> 0x0A%N) first' ->
        keys_for (first ++ 0x0A%N :: rest) = keys_for (first' ++ 0x0A%N :: rest))
  /\ (forall env s first first' rest,
        Forall (fun c => c <> 0x0A%N) first ->
        Forall (fun c => c <> 0x0A%N) first' ->
        human_like_typing env (first ++ 0x0A%N :: rest) s
        = human_like_typing env (first' ++ 0x0A%N :: rest) s).
Proof.
  split; [|split].
  - intros text Htext. unfold keys_for.
    destruct text as [|c text]; [reflexivity|].
    rewrite human_like_typing_idle by (reflexivity || discriminate). cbv zeta.
    unfold split_lines. rewrite split_lines_from_single by exact Htext.
    reflexivity.
  - intros first first' rest Hfirst Hfirst'.
    rewrite !keys_for_lines by assumption. cbv zeta.
    unfold clean_lines, min_indent, len. cbn [take drop List.app length].
    reflexivity.
  - intros env s first first' rest Hfirst Hfirst'.
    destruct (typing_active s) eqn:Hactive.
    + rewrite !human_like_typing_guard by (left; exact Hactive). reflexivity.
    + rewrite !human_like_typing_lines by assumption. cbv zeta.
      unfold clean_lines, min_indent, len. cbn [take drop List.app length].
      reflexivity.
Qed.

Lemma X24_first_line_not_typed_witness :
  keys_for (lit "SELECT 1") = []
  /\ keys_for (lit "SELECT *" ++ 0x0A%N :: lit "FROM t")
     = keys_for (lit "x" ++ 0x0A%N :: lit "FROM t").
Proof.
  split.
  - apply (proj1 X24_first_line_not_typed). repeat constructor; discriminate.
  - apply (proj1 (proj2 X24_first_line_not_typed)); repeat constructor; discriminate.
Defined.

(** *** A run that returns *)









(** *** The indentation *)














(** A text of three lines: the second is typed, then two presses of
    [Key.space] and the third, its two spaces pressed as characters. *)
Example where_clause_keys :
  keys_for (lit "SELECT a" ++ 0x0A%N :: where_clause)
  = List.map Char (lit "FROM t") ++ [Enter; Space; Space]
    ++ List.map Char (lit "WHERE a b").
Proof. vm_compute. reflexivity. Qed.

(** The fourth key raising ends the typing there, the flag unset. *)
Example fourth_key_raises :
  human_like_typing fourth_key_fails (lit "SELECT a" ++ 0x0A%N :: where_clause) idle
  = (Leaves (Raise OSError), mkTypist false 0 (List.map Char (lit "FROM")) 5).
Proof. vm_compute. reflexivity. Qed.

(** A pause never lifted leaves the typing waiting, the flag set. *)
Example pause_never_lifted :
  human_like_typing paused_for_good (lit "SELECT a" ++ 0x0A%N :: where_clause) idle
  = (Hangs, mkTypist true 0 (List.map Char (lit "FRO")) 4).
Proof. vm_compute. reflexivity. Qed.

End TypingFacts.
